(** * SmartResumeFix: the rule-based resume pipeline of [server.js]

    A shallow embedding of [improveResume], [renderHtmlFromAiText], the
    [/api/generate] handler and the test, webhook and download handlers,
    the properties of the specification that concern them, and further
    properties of the code.

    JavaScript strings are sequences of UTF-16 code units; they are modelled
    as lists of code units ([N]).  The regular expressions of the source are
    values of a small AST ([regex]) interpreted by a backtracking matcher
    written in the continuation style of the ECMAScript specification. *)

From Stdlib Require Import String Ascii List NArith Arith Bool Lia.
Import ListNotations.

Set Implicit Arguments.

(* ================================================================== *)
(** * Strings *)
(* ================================================================== *)

Module Js.

Definition char := N.
Definition jsstring := list char.

(** An ASCII literal of the source as a list of code units. *)
Definition js (s : string) : jsstring :=
  List.map N_of_ascii (list_ascii_of_string s).

Definition LF : char := 10%N.
Definition SPACE : char := 32%N.
Definition DQUOTE : char := 34%N.
Definition COLON : char := 58%N.
(** The bullet (U+2022) is one code unit. *)
Definition BULLET : char := 8226%N.

Definition char_eqb (a b : char) : bool := N.eqb a b.

Fixpoint str_eqb (a b : jsstring) : bool :=
  match a, b with
  | [], [] => true
  | x :: a', y :: b' => char_eqb x y && str_eqb a' b'
  | _, _ => false
  end.

(** ECMAScript WhiteSpace and LineTerminator code units: the set that both
    [String.prototype.trim] and the class escape [\s] use. *)
Definition isWhiteSpace (c : char) : bool :=
  ((9 <=? c) && (c <=? 13) ||
   (c =? 32) || (c =? 160) || (c =? 5760) ||
   ((8192 <=? c) && (c <=? 8202)) ||
   (c =? 8232) || (c =? 8233) || (c =? 8239) || (c =? 8287) ||
   (c =? 12288) || (c =? 65279))%N.

Definition isDigit (c : char) : bool := ((48 <=? c) && (c <=? 57))%N.
Definition isUpper (c : char) : bool := ((65 <=? c) && (c <=? 90))%N.
Definition isLower (c : char) : bool := ((97 <=? c) && (c <=? 122))%N.
Definition isLetter (c : char) : bool := isUpper c || isLower c.

Definition toUpperAscii (c : char) : char := if isLower c then (c - 32)%N else c.
Definition toLowerAscii (c : char) : char := if isUpper c then (c + 32)%N else c.

(** [s.length === 0], which is also the falsiness of a string. *)
Definition isEmpty (s : jsstring) : bool :=
  match s with [] => true | _ => false end.

(** [a || b] on strings. *)
Definition orDefault (a b : jsstring) : jsstring := if isEmpty a then b else a.

Fixpoint dropWhile (p : char -> bool) (s : jsstring) : jsstring :=
  match s with
  | c :: s' => if p c then dropWhile p s' else s
  | [] => []
  end.

Definition trimStart (s : jsstring) : jsstring := dropWhile isWhiteSpace s.
Definition trimEnd (s : jsstring) : jsstring := rev (dropWhile isWhiteSpace (rev s)).
(** [String.prototype.trim] *)
Definition trim (s : jsstring) : jsstring := trimEnd (trimStart s).

(** [s.startsWith(p)] *)
Fixpoint startsWith (p s : jsstring) : bool :=
  match p, s with
  | [], _ => true
  | a :: p', b :: s' => char_eqb a b && startsWith p' s'
  | _ :: _, [] => false
  end.

(** [s.includes(p)] *)
Fixpoint includes (p s : jsstring) : bool :=
  startsWith p s ||
  match s with
  | [] => false
  | _ :: s' => includes p s'
  end.

(** [l.join(sep)] *)
Fixpoint join (sep : jsstring) (l : list jsstring) : jsstring :=
  match l with
  | [] => []
  | [x] => x
  | x :: l' => x ++ sep ++ join sep l'
  end.

(** [l.map((x, idx) => f(x, idx))] *)
Fixpoint mapi_from {A B} (i : nat) (f : A -> nat -> B) (l : list A) : list B :=
  match l with
  | [] => []
  | x :: l' => f x i :: mapi_from (S i) f l'
  end.
Definition mapi {A B} (f : A -> nat -> B) (l : list A) : list B := mapi_from 0 f l.

(** [s.split(sep)] for a non-empty separator string. *)
Fixpoint split_str_loop (sep : jsstring) (acc : jsstring) (skip : nat) (s : jsstring)
  : list jsstring :=
  match s with
  | [] => [rev acc]
  | c :: s' =>
      match skip with
      | S n => split_str_loop sep acc n s'
      | O =>
          if startsWith sep s
          then rev acc :: split_str_loop sep [] (length sep - 1) s'
          else split_str_loop sep (c :: acc) 0 s'
      end
  end.
Definition split_str (sep s : jsstring) : list jsstring := split_str_loop sep [] 0 s.

End Js.
Export Js.

(* ================================================================== *)
(** * Regular expressions *)
(* ================================================================== *)

Module Regex.

(** Members of a character class. *)
Inductive csitem :=
| One (c : char)            (* a single character *)
| Range (lo hi : char)      (* lo-hi *)
| Space                     (* \s *)
| NotSpace                  (* \S *)
| Digit.                    (* \d *)

(** A term that consumes exactly one character. *)
Inductive atom :=
| AChar (c : char)                          (* pattern character *)
| AClass (neg : bool) (items : list csitem). (* [...] and [^...] *)

(** The fragment of the pattern language that [server.js] uses.  Every
    quantifier of the source is applied to a single character or class, so
    the quantified term is an [atom]; no pattern has more than one capturing
    group, and none has a back-reference or a look-behind. *)
Inductive regex :=
| REmpty
| RAtom (a : atom)
| RSeq (r1 r2 : regex)
| RAlt (r1 r2 : regex)
| RQuant (a : atom) (min : nat) (max : option nat) (greedy : bool)
| RGroup (r : regex)        (* ( ... ), capture 1 *)
| RNonCap (r : regex)       (* (?: ... ) *)
| RLookahead (r : regex)    (* (?= ... ) *)
| REnd.                     (* $ without the m flag *)

Definition item_mem (it : csitem) (c : char) : bool :=
  match it with
  | One a => char_eqb a c
  | Range lo hi => ((lo <=? c) && (c <=? hi))%N
  | Space => isWhiteSpace c
  | NotSpace => negb (isWhiteSpace c)
  | Digit => isDigit c
  end.

(** Canonicalize (non-unicode mode) maps a code unit to its upper-case form
    unless that would move a code unit from outside ASCII into ASCII.  The
    only cased characters the patterns of [server.js] mention are ASCII
    letters, for which two code units are canonically equal exactly when
    they are equal up to ASCII case. *)
Definition canon_eqb (a c : char) : bool :=
  char_eqb a c || char_eqb a (toUpperAscii c) || char_eqb a (toLowerAscii c).

Definition item_mem_ic (it : csitem) (c : char) : bool :=
  item_mem it c || item_mem it (toUpperAscii c) || item_mem it (toLowerAscii c).

Definition atom_test (ic : bool) (a : atom) (c : char) : bool :=
  match a with
  | AChar x => if ic then canon_eqb x c else char_eqb x c
  | AClass neg items =>
      xorb neg (existsb (fun it => if ic then item_mem_ic it c else item_mem it c) items)
  end.

(** Matcher state: the rest of the input and the capture of group 1. *)
Definition mstate := (jsstring * option jsstring)%type.
Definition cont := jsstring -> option jsstring -> option mstate.

(** RepeatMatcher for a one-character term: [min] and [max] count the
    iterations still required and still allowed. *)
Fixpoint rep (p : char -> bool) (greedy : bool) (min : nat) (max : option nat)
    (s : jsstring) (k : jsstring -> option mstate) {struct s} : option mstate :=
  let more :=
    match max, s with
    | Some O, _ => None
    | _, c :: s' =>
        if p c then rep p greedy (Nat.pred min) (option_map Nat.pred max) s' k else None
    | _, [] => None
    end in
  match min with
  | S _ => more
  | O =>
      if greedy
      then match more with Some r => Some r | None => k s end
      else match k s with Some r => Some r | None => more end
  end.

Fixpoint rmatch (ic : bool) (r : regex) (s : jsstring) (cap : option jsstring)
    (k : cont) {struct r} : option mstate :=
  match r with
  | REmpty => k s cap
  | RAtom a =>
      match s with
      | c :: s' => if atom_test ic a c then k s' cap else None
      | [] => None
      end
  | RSeq r1 r2 => rmatch ic r1 s cap (fun s1 cap1 => rmatch ic r2 s1 cap1 k)
  | RAlt r1 r2 =>
      match rmatch ic r1 s cap k with
      | Some x => Some x
      | None => rmatch ic r2 s cap k
      end
  | RQuant a min max greedy =>
      rep (atom_test ic a) greedy min max s (fun s' => k s' cap)
  | RGroup r1 =>
      rmatch ic r1 s cap
        (fun s1 _ => k s1 (Some (firstn (length s - length s1) s)))
  | RNonCap r1 => rmatch ic r1 s cap k
  | RLookahead r1 =>
      match rmatch ic r1 s cap (fun s1 cap1 => Some (s1, cap1)) with
      | Some (_, cap1) => k s cap1
      | None => None
      end
  | REnd => match s with [] => k s cap | _ :: _ => None end
  end.

(** A match attempt at the start of [s]: the rest after the match and the
    capture. *)
Definition match_here (ic : bool) (r : regex) (s : jsstring) : option mstate :=
  rmatch ic r s None (fun s' cap => Some (s', cap)).

(** The match array of [RegExp.prototype.exec]: [index], [m[0]], [m[1]]
    ([None] is [undefined]), together with the text after the match. *)
Record MatchResult := {
  index : nat;
  m0 : jsstring;
  m1 : option jsstring;
  after : jsstring
}.

(** [str.match(re)] for a pattern without the g flag: the first position,
    from the left, at which the pattern matches; the end of the input is a
    position too. *)
Fixpoint exec_from (ic : bool) (r : regex) (i : nat) (s : jsstring) : option MatchResult :=
  match match_here ic r s with
  | Some (s', cap) =>
      Some {| index := i; m0 := firstn (length s - length s') s; m1 := cap; after := s' |}
  | None =>
      match s with
      | [] => None
      | _ :: s' => exec_from ic r (S i) s'
      end
  end.
Definition exec (ic : bool) (r : regex) (s : jsstring) : option MatchResult :=
  exec_from ic r 0 s.

(** [str.split(re)] without a limit, for a pattern with no capturing group
    (the two split patterns of the source have none).  [acc] is the piece
    since the last separator, reversed; [skip] counts the characters of the
    current separator still to pass.  An empty match at the position where
    the piece starts is skipped; an empty match elsewhere closes the piece. *)
Fixpoint split_loop (ic : bool) (r : regex) (acc : jsstring) (skip : nat) (s : jsstring)
  : list jsstring :=
  match s with
  | [] => [rev acc]
  | c :: s' =>
      match skip with
      | S n => split_loop ic r acc n s'
      | O =>
          match match_here ic r s with
          | Some (rest, _) =>
              match length s - length rest with
              | O =>
                  match acc with
                  | [] => split_loop ic r [c] 0 s'
                  | _ :: _ => rev acc :: split_loop ic r [c] 0 s'
                  end
              | S n => rev acc :: split_loop ic r [] n s'
              end
          | None => split_loop ic r (c :: acc) 0 s'
          end
      end
  end.
Definition split (ic : bool) (r : regex) (s : jsstring) : list jsstring :=
  match s with
  | [] => match match_here ic r [] with Some _ => [] | None => [[]] end
  | _ :: _ => split_loop ic r [] 0 s
  end.

(** [str.replace(re, repl)] for a pattern without the g flag and a
    replacement without [$] patterns. *)
Definition replace (ic : bool) (r : regex) (repl s : jsstring) : jsstring :=
  match exec ic r s with
  | Some m => firstn (index m) s ++ repl ++ after m
  | None => s
  end.

(** Pattern characters in sequence. *)
Fixpoint lit (s : jsstring) : regex :=
  match s with
  | [] => REmpty
  | c :: s' => RSeq (RAtom (AChar c)) (lit s')
  end.

(** Terms in sequence. *)
Fixpoint seq (l : list regex) : regex :=
  match l with
  | [] => REmpty
  | [r] => r
  | r :: l' => RSeq r (seq l')
  end.

(** Alternatives, tried left to right. *)
Fixpoint alt (l : list regex) : regex :=
  match l with
  | [] => REmpty
  | [r] => r
  | r :: l' => RAlt r (alt l')
  end.

Definition star (a : atom) : regex := RQuant a 0 None true.
Definition plus (a : atom) : regex := RQuant a 1 None true.
Definition star_lazy (a : atom) : regex := RQuant a 0 None false.
Definition plus_lazy (a : atom) : regex := RQuant a 1 None false.
Definition opt (a : atom) : regex := RQuant a 0 (Some 1) true.
Definition range (a : atom) (lo hi : nat) : regex := RQuant a lo (Some hi) true.
Definition atleast (a : atom) (lo : nat) : regex := RQuant a lo None true.

End Regex.
Export Regex.

(* ================================================================== *)
(** * Errors *)
(* ================================================================== *)

(** What a JavaScript function can throw here: the [Error] that
    [improveResume] raises itself, and the [TypeError] of a property access
    on [undefined]. *)
Inductive Exception :=
| Error (message : jsstring)
| TypeError.

Inductive Result (A : Type) :=
| Ok (a : A)
| Throw (e : Exception).
Arguments Ok {A} a.
Arguments Throw {A} e.

Definition bind {A B} (x : Result A) (f : A -> Result B) : Result B :=
  match x with
  | Ok a => f a
  | Throw e => Throw e
  end.

Notation "x <- c ;; k" := (bind c (fun x => k))
  (at level 61, c at next level, right associativity).

(** [m[1]] used as a string: a [TypeError] when the group is [undefined]. *)
Definition group1 (m : MatchResult) : Result jsstring :=
  match m1 m with
  | Some g => Ok g
  | None => Throw TypeError
  end.

(* ================================================================== *)
(** * [improveResume] (server.js, lines 60-154) *)
(* ================================================================== *)

Module Resume.

Definition ch (a : ascii) : char := N_of_ascii a.

(** [[\s:]] *)
Definition ws_colon : atom := AClass false [Space; One (ch ":")].
(** [[^]]: the negated empty class, any character. *)
Definition any : atom := AClass true [].
(** [[,;]|\n] *)
Definition list_sep_re : regex :=
  RAlt (RAtom (AClass false [One (ch ","); One (ch ";")])) (RAtom (AChar LF)).

(** [/(?:Name|name)[\s:]*([A-Za-z\s]+?)(?:\n|,|$)/] *)
Definition name_re : regex :=
  seq [ RNonCap (alt [lit (js "Name"); lit (js "name")]);
        star ws_colon;
        RGroup (plus_lazy (AClass false [Range (ch "A") (ch "Z"); Range (ch "a") (ch "z"); Space]));
        RNonCap (alt [RAtom (AChar LF); RAtom (AChar (ch ",")); REnd]) ].

(** [/([a-zA-Z0-9._%+-]+@[a-zA-Z0-9.-]+\.[a-zA-Z]{2,})/] *)
Definition email_re : regex :=
  RGroup (seq
    [ plus (AClass false [Range (ch "a") (ch "z"); Range (ch "A") (ch "Z");
                          Range (ch "0") (ch "9"); One (ch "."); One (ch "_");
                          One (ch "%"); One (ch "+"); One (ch "-")]);
      RAtom (AChar (ch "@"));
      plus (AClass false [Range (ch "a") (ch "z"); Range (ch "A") (ch "Z");
                          Range (ch "0") (ch "9"); One (ch "."); One (ch "-")]);
      RAtom (AChar (ch "."));
      atleast (AClass false [Range (ch "a") (ch "z"); Range (ch "A") (ch "Z")]) 2 ]).

(** [[-.\s]] *)
Definition phone_sep : atom := AClass false [One (ch "-"); One (ch "."); Space].
(** [\d] *)
Definition digit : atom := AClass false [Digit].

(** [/(\+?\d{1,3}[-.\s]?\d{1,4}[-.\s]?\d{1,4}[-.\s]?\d{1,9})/] *)
Definition phone_re : regex :=
  RGroup (seq
    [ opt (AChar (ch "+"));
      range digit 1 3; opt phone_sep;
      range digit 1 4; opt phone_sep;
      range digit 1 4; opt phone_sep;
      range digit 1 9 ]).

(** [/(?:Skills|skills)[\s:]*([^]*?)(?=\n(?:Experience|Education|Languages|Objective|$))/i] *)
Definition skills_re : regex :=
  seq [ RNonCap (alt [lit (js "Skills"); lit (js "skills")]);
        star ws_colon;
        RGroup (star_lazy any);
        RLookahead (RSeq (RAtom (AChar LF))
          (RNonCap (alt [lit (js "Experience"); lit (js "Education");
                         lit (js "Languages"); lit (js "Objective"); REnd]))) ].

(** [/(?:Education|education)[\s:]*([^]*?)(?=\n(?:Skills|Experience|Languages|$))/i] *)
Definition education_re : regex :=
  seq [ RNonCap (alt [lit (js "Education"); lit (js "education")]);
        star ws_colon;
        RGroup (star_lazy any);
        RLookahead (RSeq (RAtom (AChar LF))
          (RNonCap (alt [lit (js "Skills"); lit (js "Experience");
                         lit (js "Languages"); REnd]))) ].

(** [/(?:Experience|experience)[\s:]*([^]*?)(?=\n(?:Education|Skills|Languages|$))/i] *)
Definition experience_re : regex :=
  seq [ RNonCap (alt [lit (js "Experience"); lit (js "experience")]);
        star ws_colon;
        RGroup (star_lazy any);
        RLookahead (RSeq (RAtom (AChar LF))
          (RNonCap (alt [lit (js "Education"); lit (js "Skills");
                         lit (js "Languages"); REnd]))) ].

(** [/(?:Languages|languages)[\s:]*([^]*?)(?=\n(?:Skills|Experience|Education|$))/i] *)
Definition languages_re : regex :=
  seq [ RNonCap (alt [lit (js "Languages"); lit (js "languages")]);
        star ws_colon;
        RGroup (star_lazy any);
        RLookahead (RSeq (RAtom (AChar LF))
          (RNonCap (alt [lit (js "Skills"); lit (js "Experience");
                         lit (js "Education"); REnd]))) ].

(** [/(?:Objective|objective|Summary|summary)[\s:]*([^]*?)(?=\n)/i] *)
Definition objective_re : regex :=
  seq [ RNonCap (alt [lit (js "Objective"); lit (js "objective");
                      lit (js "Summary"); lit (js "summary")]);
        star ws_colon;
        RGroup (star_lazy any);
        RLookahead (RAtom (AChar LF)) ].

(** [/\n(?=[A-Z])/g] *)
Definition entry_start_re : regex :=
  RSeq (RAtom (AChar LF))
       (RLookahead (RAtom (AClass false [Range (ch "A") (ch "Z")]))).

(** The joiner of the lists: a line break, a bullet and a space. *)
Definition bullet_join : jsstring := [LF; BULLET; SPACE].
(** A bullet and a space. *)
Definition bullet_prefix : jsstring := [BULLET; SPACE].

Definition nonEmpty (s : jsstring) : bool := negb (isEmpty s).
Definition nonBlank (s : jsstring) : bool := negb (isEmpty (trim s)).

(** The local variables of [improveResume] that the formatted text is built
    from (the ExtractedFields of the specification). *)
Record ExtractedFields := {
  name : jsstring;
  contact : jsstring;
  summary : jsstring;
  skills : jsstring;
  experience : jsstring;
  education : jsstring;
  languages : jsstring
}.

(** Lines 66-70. *)
Definition extract_name (resumeText : jsstring) : jsstring :=
  match exec false name_re resumeText with
  | Some nameMatch =>
      match m1 nameMatch with
      | Some g => if isEmpty g then js "Applicant" else trim g
      | None => js "Applicant"
      end
  | None => js "Applicant"
  end.

(** Lines 73-79.  A group left [undefined] would make [contact] falsy, which
    is how the empty string behaves in every later use, or would be
    appended as the text [undefined]. *)
Definition extract_contact (resumeText : jsstring) : jsstring :=
  let contact :=
    match exec false email_re resumeText with
    | Some emailMatch =>
        match m1 emailMatch with
        | Some g => g
        | None => []
        end
    | None => []
    end in
  match exec false phone_re resumeText with
  | Some phoneMatch =>
      match m1 phoneMatch with
      | Some p => if isEmpty contact then p else contact ++ js " | " ++ p
      | None => if isEmpty contact then [] else contact ++ js " | undefined"
      end
  | None => contact
  end.

(** The raw text of a section: [m[1]] when the pattern matches, [''] otherwise. *)
Definition section_raw (re : regex) (resumeText : jsstring) : Result jsstring :=
  match exec true re resumeText with
  | Some m => group1 m
  | None => Ok []
  end.

(** Lines 82-90. *)
Definition extract_skills (resumeText : jsstring) : Result jsstring :=
  skillsRaw <- section_raw skills_re resumeText ;;
  Ok (join bullet_join
        (firstn 12 (filter nonEmpty (map trim (split false list_sep_re skillsRaw))))).

(** Lines 93-100. *)
Definition extract_education (resumeText : jsstring) : Result jsstring :=
  educationRaw <- section_raw education_re resumeText ;;
  Ok (join bullet_join (firstn 3 (filter nonBlank (split_str [LF] educationRaw)))).

(** Lines 110-116: one entry of the experience section. *)
Definition format_entry (exp : jsstring) : jsstring :=
  let lines := split_str [LF] (trim exp) in
  join [LF]
    (mapi (fun line idx =>
             if Nat.eqb idx 0 && nonEmpty line then bullet_prefix ++ line
             else if startsWith [BULLET] line then line
             else js "  - " ++ line)
          lines).

(** Lines 103-117. *)
Definition extract_experience (resumeText : jsstring) : Result jsstring :=
  experienceRaw <- section_raw experience_re resumeText ;;
  Ok (join [LF]
        (map format_entry
           (firstn 5 (filter nonBlank (split false entry_start_re experienceRaw))))).

(** Lines 120-127. *)
Definition extract_languages (resumeText : jsstring) : Result jsstring :=
  languagesRaw <- section_raw languages_re resumeText ;;
  Ok (join (js ", ")
        (filter nonEmpty (map trim (split false list_sep_re languagesRaw)))).

(** Line 130: the synthesized summary. *)
Definition default_summary (targetRole : jsstring) : jsstring :=
  js "Dedicated professional with strong expertise in "
  ++ orDefault targetRole (js "multiple areas") ++ js ".".

(** Lines 130-141. *)
Definition extract_summary (resumeText targetRole : jsstring) : Result jsstring :=
  let summary0 := default_summary targetRole in
  summary1 <-
    match exec true objective_re resumeText with
    | Some objMatch =>
        g <- group1 objMatch ;;
        Ok (if 5 <? length g then trim g else summary0)
    | None => Ok summary0
    end ;;
  Ok (if negb (includes (js "role") summary1) && nonEmpty targetRole
      then summary1 ++ js " Seeking " ++ targetRole
           ++ js " role to apply technical skills and contribute to organizational growth."
      else summary1).

(** Lines 65-141: the field extraction. *)
Definition extract (resumeText targetRole : jsstring) : Result ExtractedFields :=
  let name := extract_name resumeText in
  let contact := extract_contact resumeText in
  skills <- extract_skills resumeText ;;
  education <- extract_education resumeText ;;
  experience <- extract_experience resumeText ;;
  languages <- extract_languages resumeText ;;
  summary <- extract_summary resumeText targetRole ;;
  Ok {| name := name; contact := contact; summary := summary; skills := skills;
        experience := experience; education := education; languages := languages |}.

(** [value ? `LABEL: ${value}\n` : ''] *)
Definition optional_line (label value : jsstring) : jsstring :=
  if isEmpty value then [] else label ++ js ": " ++ value ++ [LF].

(** Lines 143-151: the formatted text. *)
Definition render (f : ExtractedFields) : jsstring :=
  (js "NAME: " ++ orDefault (name f) (js "Applicant") ++ [LF])
  ++ optional_line (js "CONTACT") (contact f)
  ++ (js "PROFESSIONAL SUMMARY: " ++ summary f ++ [LF])
  ++ optional_line (js "SKILLS") (skills f)
  ++ optional_line (js "WORK EXPERIENCE") (experience f)
  ++ optional_line (js "EDUCATION") (education f)
  ++ optional_line (js "LANGUAGES") (languages f).

Definition empty_text_error : Exception := Error (js "Resume text cannot be empty").

(** [improveResume(resumeText, resumeType, targetRole)] *)
Definition improveResume (resumeText resumeType targetRole : jsstring) : Result jsstring :=
  if isEmpty resumeText || Nat.eqb (length (trim resumeText)) 0
  then Throw empty_text_error
  else
    f <- extract resumeText targetRole ;;
    Ok (render f).

End Resume.
Export Resume.

(* ================================================================== *)
(** * [renderHtmlFromAiText] (server.js, lines 156-196) *)
(* ================================================================== *)

Module Markup.

(** [[\s\S]] *)
Definition any_char : atom := AClass false [Space; NotSpace].

(** [new RegExp(`${label}:[\\s\\S]*?(?=\\n[A-Z]+:|$)`, 'i')] for a label
    made of pattern characters. *)
Definition section_re (label : jsstring) : regex :=
  seq [ lit label; RAtom (AChar COLON); star_lazy any_char;
        RLookahead (RAlt (seq [ RAtom (AChar LF);
                                plus (AClass false [Range (ch "A") (ch "Z")]);
                                RAtom (AChar COLON) ])
                         REnd) ].

(** [new RegExp(`${label}:`, 'i')] *)
Definition label_re (label : jsstring) : regex :=
  RSeq (lit label) (RAtom (AChar COLON)).

(** Lines 158-162. *)
Definition getSection (aiText label : jsstring) : jsstring :=
  match exec true (section_re label) aiText with
  | Some m => trim (replace true (label_re label) [] (m0 m))
  | None => []
  end.

(** The six values that the template embeds (lines 163-168). *)
Record Sections := {
  s_name : jsstring;
  s_contact : jsstring;
  s_summary : jsstring;
  s_experience : jsstring;
  s_education : jsstring;
  s_skills : jsstring
}.

Definition sections (aiText : jsstring) : Sections :=
  {| s_name := orDefault (getSection aiText (js "NAME")) (js "Applicant");
     s_contact := orDefault (getSection aiText (js "CONTACT")) [];
     s_summary := orDefault (getSection aiText (js "SUMMARY")) [];
     s_experience := orDefault (getSection aiText (js "EXPERIENCE")) [];
     s_education := orDefault (getSection aiText (js "EDUCATION")) [];
     s_skills := orDefault (getSection aiText (js "SKILLS")) [] |}.

Definition q : jsstring := [DQUOTE].

(** The blocks of the template (lines 175 and 187-192). *)
Definition title_block (name : jsstring) : jsstring :=
  js "<title>" ++ name ++ js " - Resume</title>".
Definition heading_block (name : jsstring) : jsstring :=
  js "<h1>" ++ name ++ js "</h1>".
Definition contact_block (contact : jsstring) : jsstring :=
  js "<div class=" ++ q ++ js "contact" ++ q ++ js ">" ++ contact ++ js "</div>".
Definition section_block (heading body : jsstring) : jsstring :=
  js "<div class=" ++ q ++ js "section" ++ q ++ js "><h2>" ++ heading
  ++ js "</h2><pre>" ++ body ++ js "</pre></div>".

(** The fixed text of the template between the blocks. *)
Definition html_head : jsstring :=
  js "
  <!doctype html>
  <html>
  <head>
    <meta charset=" ++ q ++ js "utf-8" ++ q ++ js "/>
    ".
Definition html_style : jsstring :=
  js "
    <style>
      body{font-family:Arial,Helvetica,sans-serif; max-width:800px; margin:24px auto; color:#111}
      h1{font-size:20px;margin:0}
      .contact{margin-bottom:14px;color:#555}
      .section{margin-top:12px}
      .section h2{font-size:14px;border-bottom:1px solid #eee;padding-bottom:6px;color:#333}
      .bullet{margin-left:18px}
      pre{white-space:pre-wrap;font-family:inherit}
    </style>
  </head>
  <body>
    ".
Definition html_gap : jsstring :=
  js "
    ".
Definition html_tail : jsstring :=
  js "
  </body>
  </html>
  ".

(** Lines 170-195: the template filled with the six values. *)
Definition page (v : Sections) : jsstring :=
  html_head ++ title_block (s_name v) ++ html_style
  ++ heading_block (s_name v) ++ html_gap
  ++ contact_block (s_contact v) ++ html_gap
  ++ section_block (js "Professional Summary") (s_summary v) ++ html_gap
  ++ section_block (js "Experience") (s_experience v) ++ html_gap
  ++ section_block (js "Education") (s_education v) ++ html_gap
  ++ section_block (js "Skills") (s_skills v)
  ++ html_tail.

Definition renderHtmlFromAiText (aiText : jsstring) : jsstring :=
  page (sections aiText).

End Markup.
Export Markup.

(* ================================================================== *)
(** * The [/api/generate] handler (server.js, lines 246-307) *)
(* ================================================================== *)

Module Server.

(** A body field: absent ([undefined]) or a string. *)
Definition field := option jsstring.

(** [!x] for a body field. *)
Definition missing (x : field) : bool :=
  match x with
  | None => true
  | Some s => isEmpty s
  end.

Record Request := {
  payment_id : field;
  resume_text : field;
  resume_type : field;
  email : field;
  target_role : field
}.

(** What the payment gateway answers to the status query (lines 254-258):
    the fetch or the JSON decoding throws, or the body decodes to [null] or
    to an object whose [status] may be absent. *)
Inductive PaymentReply :=
| FetchThrows
| ReplyNull
| ReplyObject (status : option jsstring).

(** [j && (j.status === 'captured' || j.status === 'authorized')] *)
Definition confirms (r : PaymentReply) : bool :=
  match r with
  | ReplyObject (Some st) => str_eqb st (js "captured") || str_eqb st (js "authorized")
  | _ => false
  end.

(** The collaborators of one request and the configuration of the process. *)
Record World := {
  gateway : jsstring -> PaymentReply;     (* status of a payment id *)
  htmlToPdfBuffer : jsstring -> Result jsstring; (* the rendering engine *)
  fileName : jsstring;                    (* [`${Date.now()}_${uuidv4()}.pdf`] *)
  HOST_URL : option jsstring;
  smtp_configured : bool                  (* EMAIL_SMTP_HOST && ..._USER && ..._PASS *)
}.

(** What the handler does besides answering, in order. *)
Inductive Event :=
| VerifyPayment (id : jsstring)
| ImproveResume (text : jsstring)
| RenderHtml (aiText : jsstring)
| RenderPdf (html : jsstring)
| WriteFile (path : jsstring) (data : jsstring)
| SendMail (to : jsstring) (path : jsstring).

Record State := {
  resumes : list (jsstring * jsstring);   (* the files written under resumes/ *)
  log : list Event                        (* most recent first *)
}.

Inductive Response :=
| Failure (status : nat) (error : jsstring)
| Success (downloadUrl : jsstring).

Definition missing_input : Response :=
  Failure 400 (js "Missing payment_id or resume_text").
Definition payment_unverified : Response :=
  Failure 400 (js "Payment not verified").

Definition record (e : Event) (st : State) : State :=
  {| resumes := resumes st; log := e :: log st |}.

Definition writeFileSync (path data : jsstring) (st : State) : State :=
  {| resumes := (path, data) :: resumes st; log := WriteFile path data :: log st |}.

(** [err.message]; the text of a [TypeError] is the engine's and holds
    neither of the two words the handler looks for. *)
Definition message (e : Exception) : jsstring :=
  match e with
  | Error m => m
  | TypeError => js "Cannot read properties of undefined"
  end.

(** Lines 297-306: the [catch] of the handler. *)
Definition on_error (e : Exception) : Response :=
  Failure 500
    (if includes (js "empty") (message e)
     then js "Please paste your resume text to proceed."
     else if includes (js "Payment not verified") (message e)
     then js "Payment verification failed. Please try again."
     else js "Resume generation failed. Please try again.").

(** [/\/$/] *)
Definition trailing_slash_re : regex := RSeq (RAtom (AChar (ch "/"))) REnd.

(** Lines 264-295: what runs once the payment is verified. *)
Definition deliver (w : World) (req : Request) (text : jsstring) (st : State)
  : Response * State :=
  let resume_type := match resume_type req with
                     | Some t => t
                     | None => js "Modern Professional"
                     end in
  let role := match target_role req with
              | Some r => r
              | None => []
              end in
  let st := record (ImproveResume text) st in
  match improveResume text resume_type role with
  | Throw e => (on_error e, st)
  | Ok aiText =>
      let st := record (RenderHtml aiText) st in
      let html := renderHtmlFromAiText aiText in
      let st := record (RenderPdf html) st in
      match htmlToPdfBuffer w html with
      | Throw e => (on_error e, st)
      | Ok pdfBuffer =>
          let filePath := js "resumes/" ++ fileName w in
          let st := writeFileSync filePath pdfBuffer st in
          let st := match email req with
                    | Some to =>
                        if smtp_configured w && nonEmpty to
                        then record (SendMail to filePath) st
                        else st
                    | None => st
                    end in
          match HOST_URL w with
          | None => (on_error TypeError, st)
          | Some host =>
              (Success (replace false trailing_slash_re [] host
                        ++ js "/download/" ++ fileName w), st)
          end
      end
  end.

(** A body field read as a string once it is known to be present. *)
Definition value (x : field) : jsstring :=
  match x with
  | Some s => s
  | None => []
  end.

(** The handler: the answer and the state it leaves. *)
Definition generate (w : World) (req : Request) (st : State) : Response * State :=
  if missing (payment_id req) || missing (resume_text req)
  then (missing_input, st)
  else
    let st := record (VerifyPayment (value (payment_id req))) st in
    let verified := confirms (gateway w (value (payment_id req))) in
    if negb verified then (payment_unverified, st)
    else deliver w req (value (resume_text req)) st.

(** The events that belong to the document pipeline. *)
Definition is_pipeline (e : Event) : bool :=
  match e with
  | VerifyPayment _ => false
  | _ => true
  end.

End Server.
Export Server.

(* ================================================================== *)
(** * The other endpoints (server.js, lines 231-243 and 310-331) *)
(* ================================================================== *)

Module Endpoints.

(** ** [/api/test-generate] (lines 318-331) *)

Inductive TestResponse :=
| TestFailure (status : nat) (error : jsstring)
| TestSuccess (aiText : jsstring).

Definition missing_text : TestResponse :=
  TestFailure 400 (js "Missing resume_text").

(** The handler: [resume_type] and [target_role] take their defaults when
    the body does not hold them; what [improveResume] throws is answered
    with its own message. *)
Definition test_generate (req : Request) : TestResponse :=
  let resume_type := match resume_type req with
                     | Some t => t
                     | None => js "Modern Professional"
                     end in
  let target_role := match target_role req with
                     | Some r => r
                     | None => []
                     end in
  if missing (resume_text req) then missing_text
  else
    match improveResume (value (resume_text req)) resume_type target_role with
    | Ok improvedText => TestSuccess improvedText
    | Throw err => TestFailure 500 (message err)
    end.

(** ** [/webhook/razorpay] (lines 231-243) *)

Section Json.

(** The numbers of a decoded body; the handler uses them only through
    [ToBoolean]. *)
Variable number : Type.
Variable nonzero : number -> bool.

(** A decoded body and the values inside it. *)
#[local] Unset Elimination Schemes.
Inductive Value :=
| VUndefined
| VNull
| VBool (b : bool)
| VNumber (n : number)
| VString (s : jsstring)
| VArray (items : list Value)
| VObject (members : list (jsstring * Value)).
#[local] Set Elimination Schemes.

(** [ToBoolean] *)
Definition truthy (v : Value) : bool :=
  match v with
  | VUndefined | VNull => false
  | VBool b => b
  | VNumber n => nonzero n
  | VString s => nonEmpty s
  | VArray _ | VObject _ => true
  end.

(** The member of a decoded object under a key; of two members with the
    same key the later one counts. *)
Fixpoint member (key : jsstring) (members : list (jsstring * Value)) : option Value :=
  match members with
  | [] => None
  | (k, v) :: rest =>
      match member key rest with
      | Some x => Some x
      | None => if str_eqb k key then Some v else None
      end
  end.

(** [x.key] for the keys that the handler reads ([event], [payload],
    [payment], [entity], [id], [amount]); no prototype has a property of
    one of these names, so only an object's own member can answer. *)
Definition get (key : jsstring) (x : Value) : Result Value :=
  match x with
  | VUndefined | VNull => Throw TypeError
  | VObject members =>
      Ok (match member key members with
          | Some v => v
          | None => VUndefined
          end)
  | _ => Ok VUndefined
  end.

(** [x === 'payment.captured'] *)
Definition is_captured (x : Value) : bool :=
  match x with
  | VString s => str_eqb s (js "payment.captured")
  | _ => false
  end.

(** The [try] block: the two values of the console line, if one is
    written. *)
Definition webhook_body (payload : Value) : Result (option (Value * Value)) :=
  event <- get (js "event") payload ;;
  if is_captured event then
    p <- get (js "payload") payload ;;
    if truthy p then
      pay <- get (js "payment") p ;;
      if truthy pay then
        entity <- get (js "entity") pay ;;
        if truthy entity then
          id <- get (js "id") entity ;;
          amount <- get (js "amount") entity ;;
          Ok (Some (id, amount))
        else Ok None
      else Ok None
    else Ok None
  else Ok None.

(** The handler: the status and text of the answer, and the console line. *)
Definition webhook (payload : Value) : (nat * jsstring) * option (Value * Value) :=
  match webhook_body payload with
  | Ok line => ((200, js "ok"), line)
  | Throw _ => ((500, js "error"), None)
  end.

End Json.

Arguments VUndefined {number}.
Arguments VNull {number}.
Arguments VBool {number} b.
Arguments VString {number} s.

(** ** [/download/:file] (lines 310-315) *)

Definition SLASH : char := 47%N.
Definition DOT : char := 46%N.

(** The segments of a path: the pieces between its slashes. *)
Definition segments (path : jsstring) : list jsstring := split_str [SLASH] path.

(** [normalizeString] of Node's [path] module, on segments: empty segments
    and [.] are dropped, [..] removes the segment before it, and is kept
    when there is none to remove and the path is relative.  [res] holds the
    segments kept so far, the last one first. *)
Fixpoint normalize_segments (allowAboveRoot : bool) (res segs : list jsstring)
  : list jsstring :=
  match segs with
  | [] => rev res
  | seg :: rest =>
      if isEmpty seg || str_eqb seg [DOT]
      then normalize_segments allowAboveRoot res rest
      else if str_eqb seg [DOT; DOT]
      then match res with
           | top :: res' =>
               if str_eqb top [DOT; DOT]
               then normalize_segments allowAboveRoot
                      (if allowAboveRoot then seg :: res else res) rest
               else normalize_segments allowAboveRoot res' rest
           | [] =>
               normalize_segments allowAboveRoot
                 (if allowAboveRoot then [seg] else []) rest
           end
      else normalize_segments allowAboveRoot (seg :: res) rest
  end.

(** [path.normalize] (POSIX). *)
Definition normalize (path : jsstring) : jsstring :=
  match path with
  | [] => [DOT]
  | c :: _ =>
      let isAbsolute := N.eqb c SLASH in
      let trailingSeparator :=
        match rev path with
        | l :: _ => N.eqb l SLASH
        | [] => false
        end in
      let p := join [SLASH] (normalize_segments (negb isAbsolute) [] (segments path)) in
      match p with
      | [] => if isAbsolute then [SLASH]
              else if trailingSeparator then [DOT; SLASH] else [DOT]
      | _ :: _ =>
          let p := if trailingSeparator then p ++ [SLASH] else p in
          if isAbsolute then SLASH :: p else p
      end
  end.

(** [path.join(a, b)] (POSIX): the arguments that are not empty, joined by
    a slash and normalized. *)
Definition path_join (a b : jsstring) : jsstring :=
  match a, b with
  | [], [] => [DOT]
  | [], _ :: _ => normalize b
  | _ :: _, [] => normalize a
  | _ :: _, _ :: _ => normalize (a ++ SLASH :: b)
  end.

Inductive DownloadResponse :=
| SendFile (file : jsstring)   (* [res.download(file)] *)
| NotFound.                    (* [res.status(404).send('Not found')] *)

(** The handler, for the decoded route parameter; [existsSync] is the state
    of the file system. *)
Definition download (existsSync : jsstring -> bool) (file : jsstring) : DownloadResponse :=
  let file := path_join (js "resumes") file in
  if existsSync file then SendFile file else NotFound.

(** [fs.existsSync] after the generate handler has run: the paths it wrote,
    and those that were there before. *)
Definition existsSync (before : jsstring -> bool) (st : State) (path : jsstring) : bool :=
  existsb (fun e => str_eqb (fst e) path) (resumes st) || before path.

(** [fs.readFileSync] of a path that the handler wrote: the last write. *)
Fixpoint stored (files : list (jsstring * jsstring)) (path : jsstring) : option jsstring :=
  match files with
  | [] => None
  | (p, data) :: rest => if str_eqb p path then Some data else stored rest path
  end.

End Endpoints.
Export Endpoints.

(* ================================================================== *)
(** * The patterns read as functions on text *)
(* ================================================================== *)

(** Plain recursive functions that say what the patterns of the source
    find; the lemmas below relate them to the matcher. *)

(** Patterns whose every successful match has gone through the capturing
    group. *)
Fixpoint sets_group (r : regex) : bool :=
  match r with
  | RGroup _ => true
  | RSeq r1 r2 => sets_group r1 || sets_group r2
  | RAlt r1 r2 => sets_group r1 && sets_group r2
  | RNonCap r1 => sets_group r1
  | _ => false
  end.

(** The pattern characters [P] match at the start of [s]. *)
Fixpoint prefix_match (ic : bool) (P s : jsstring) : bool :=
  match P, s with
  | [], _ => true
  | a :: P', c :: s' => atom_test ic (AChar a) c && prefix_match ic P' s'
  | _ :: _, [] => false
  end.

(** The first rest of [s], from the left, at which [stop] holds, with what
    comes before it. *)
Fixpoint scan (stop : jsstring -> bool) (s : jsstring) : option (jsstring * jsstring) :=
  if stop s then Some ([], s)
  else match s with
       | [] => None
       | c :: s' =>
           match scan stop s' with
           | Some (pre, rest) => Some (c :: pre, rest)
           | None => None
           end
       end.

(** [\n[A-Z]+:] under the [i] flag, at the start of [s]. *)
Definition label_ahead (s : jsstring) : bool :=
  match s with
  | c :: s' =>
      N.eqb c LF &&
      match s' with
      | l :: s'' =>
          isLetter l &&
          match dropWhile isLetter s'' with
          | x :: _ => N.eqb x COLON
          | [] => false
          end
      | [] => false
      end
  | [] => false
  end.

(** The lookahead [(?=\n[A-Z]+:|$)] of [getSection]. *)
Definition is_break (s : jsstring) : bool := label_ahead s || isEmpty s.

(** The text before the first break. *)
Fixpoint until_break (s : jsstring) : jsstring :=
  if is_break s then []
  else match s with
       | [] => []
       | c :: s' => c :: until_break s'
       end.

(** The text after the first occurrence of the pattern characters [P],
    compared without regard to case. *)
Fixpoint after_label (P t : jsstring) : option jsstring :=
  if prefix_match true P t then Some (skipn (length P) t)
  else match t with
       | [] => None
       | _ :: t' => after_label P t'
       end.

(** The lookahead [(?=\n)] of the objective pattern. *)
Definition head_lf (s : jsstring) : bool :=
  match s with
  | c :: _ => N.eqb c LF
  | [] => false
  end.


(** The pattern characters [P] occur in [s], whatever the case. *)
Fixpoint occurs (P s : jsstring) : bool :=
  prefix_match true P s ||
  match s with
  | [] => false
  | _ :: s' => occurs P s'
  end.

(** No character of [P] can match [c]. *)
Definition sep_free (P : jsstring) (c : char) : bool :=
  forallb (fun a => negb (atom_test true (AChar a) c)) P.

(** No line break of [v] is directly followed by letters and a colon. *)
Fixpoint break_free (v : jsstring) : bool :=
  negb (label_ahead v) &&
  match v with
  | [] => true
  | _ :: v' => break_free v'
  end.

(** No white space at the start, at the end, of [v]. *)
Definition starts_clean (v : jsstring) : bool :=
  match v with
  | c :: _ => negb (isWhiteSpace c)
  | [] => true
  end.
Definition ends_clean (v : jsstring) : bool := starts_clean (rev v).

(** A labeled line followed by the rest of the text. *)
Definition line (L v rest : jsstring) : jsstring :=
  L ++ COLON :: SPACE :: v ++ LF :: rest.

(** The same, left out when the value is empty. *)
Definition optline (L v rest : jsstring) : jsstring :=
  if isEmpty v then rest else line L v rest.

(** The section that starts after a line break ends there. *)
Definition stops (rest : jsstring) : Prop :=
  until_break (LF :: rest) = [] \/ until_break (LF :: rest) = [LF].

(* ================================================================== *)
(** * The vocabulary of the properties *)
(* ================================================================== *)

(** What each field is when its pattern finds nothing in the text. *)
Definition field_defaults (resumeText targetRole : jsstring) (f : ExtractedFields) : Prop :=
  (exec false name_re resumeText = None -> name f = js "Applicant") /\
  (exec false email_re resumeText = None -> exec false phone_re resumeText = None ->
   contact f = []) /\
  (exec true skills_re resumeText = None -> skills f = []) /\
  (exec true experience_re resumeText = None -> experience f = []) /\
  (exec true education_re resumeText = None -> education f = []) /\
  (exec true languages_re resumeText = None -> languages f = []) /\
  (exec true objective_re resumeText = None ->
   exists tail, summary f = default_summary targetRole ++ tail).












(** The seven values as they are written. *)
Definition written_values (f : ExtractedFields) : list jsstring :=
  [ orDefault (name f) (js "Applicant"); contact f; summary f; skills f;
    experience f; education f; languages f ].

(** A line of [t] starts with the label [L], a colon and a space. *)
Definition label_starts_line (L t : jsstring) : bool :=
  startsWith (L ++ js ": ") t || includes (LF :: L ++ js ": ") t.

(** No value of the record holds a line that starts with the label [L]. *)
Definition label_free (L : jsstring) (f : ExtractedFields) : bool :=
  forallb (fun v => negb (includes (LF :: L ++ js ": ") v)) (written_values f).

(** No line break in [p]. *)
Definition lf_free (p : jsstring) : bool := forallb (fun c => negb (N.eqb c LF)) p.


(** The labels that [renderHtmlFromAiText] looks up (lines 163-168). *)
Definition lookup_labels : list jsstring :=
  [ js "NAME"; js "CONTACT"; js "SUMMARY"; js "EXPERIENCE"; js "EDUCATION"; js "SKILLS" ].

(** No lookup label with its colon occurs in [v], whatever the case. *)
Definition no_lookup_token (v : jsstring) : bool :=
  forallb (fun T => negb (occurs (T ++ [COLON]) v)) lookup_labels.

(** A value that the lookup can find again: no white space at its ends, no
    line break directly followed by letters and a colon, no lookup label
    followed by a colon. *)
Definition well_formed (v : jsstring) : Prop :=
  trim v = v /\ break_free v = true /\ no_lookup_token v = true.

(** All six fields that the markup embeds are non-empty. *)
Definition all_present (f : ExtractedFields) : Prop :=
  name f <> [] /\ contact f <> [] /\ summary f <> [] /\
  skills f <> [] /\ experience f <> [] /\ education f <> [].

(** The same six fields are well formed. *)
Definition all_well_formed (f : ExtractedFields) : Prop :=
  well_formed (name f) /\ well_formed (contact f) /\ well_formed (summary f) /\
  well_formed (skills f) /\ well_formed (experience f) /\ well_formed (education f).

(** The document made from a record: the page of its formatted text holds,
    between the fixed texts of the template and in the template's order, a
    title block and a heading block, a contact block and the summary,
    experience, education and skills blocks, and every value of the record
    is a substring of the block it belongs to. *)
Definition roundtrip_contains (f : ExtractedFields) : Prop :=
  exists n c s e d k : jsstring,
    renderHtmlFromAiText (render f)
    = html_head ++ title_block n ++ html_style
      ++ heading_block n ++ html_gap
      ++ contact_block c ++ html_gap
      ++ section_block (js "Professional Summary") s ++ html_gap
      ++ section_block (js "Experience") e ++ html_gap
      ++ section_block (js "Education") d ++ html_gap
      ++ section_block (js "Skills") k
      ++ html_tail /\
    includes (name f) (title_block n) = true /\
    includes (name f) (heading_block n) = true /\
    includes (contact f) (contact_block c) = true /\
    includes (summary f) (section_block (js "Professional Summary") s) = true /\
    includes (experience f) (section_block (js "Experience") e) = true /\
    includes (education f) (section_block (js "Education") d) = true /\
    includes (skills f) (section_block (js "Skills") k) = true.

(** The record without its languages. *)
Definition without_languages (f : ExtractedFields) : ExtractedFields :=
  {| name := name f; contact := contact f; summary := summary f;
     skills := skills f; experience := experience f; education := education f;
     languages := [] |}.

(** The page with nothing filled in: the fixed text of the template. *)
Definition template_text : jsstring :=
  page {| s_name := []; s_contact := []; s_summary := []; s_experience := [];
          s_education := []; s_skills := [] |}.

(** The lines of a text: [t.split('\n')]. *)
Definition lines_of (t : jsstring) : list jsstring := split_str [LF] t.

(** The lines of a text that do not start with [PROFESSIONAL SUMMARY: ]. *)
Definition other_lines (t : jsstring) : list jsstring :=
  filter (fun l => negb (startsWith (js "PROFESSIONAL SUMMARY: ") l)) (lines_of t).

(** The outputs of two runs that differ only in the target role have the
    same lines, the PROFESSIONAL SUMMARY line apart. *)
Definition role_only_in_summary_line (resumeText resumeType role1 role2 : jsstring) : Prop :=
  exists out1 out2,
    improveResume resumeText resumeType role1 = Ok out1 /\
    improveResume resumeText resumeType role2 = Ok out2 /\
    other_lines out1 = other_lines out2.

(** The gateway does not confirm the payment id of the request. *)
Definition unconfirmed (w : World) (req : Request) : Prop :=
  confirms (gateway w (value (payment_id req))) = false.

(** The payment gate as the specification states it: an unconfirmed payment
    is answered by the payment failure and no file is written, whatever the
    resume text. *)
Definition payment_gate_as_stated (w : World) (req : Request) (st : State) : Prop :=
  unconfirmed w req ->
  fst (generate w req st) = payment_unverified /\
  resumes (snd (generate w req st)) = resumes st.

(* ================================================================== *)
(** * Sample inputs *)
(* ================================================================== *)

(** Twenty comma-separated skills. *)
Definition twenty_skills : jsstring :=
  js "Skills: s01, s02, s03, s04, s05, s06, s07, s08, s09, s10, s11, s12, s13, s14, s15, s16, s17, s18, s19, s20".

(** The entries of a skills value. *)
Definition skill_entries (skills : jsstring) : list jsstring :=
  match skills with
  | [] => []
  | _ :: _ => split_str bullet_join skills
  end.

(** A gateway that reports the status [failed] for every payment. *)
Definition refusing_world : World :=
  {| gateway := fun _ => ReplyObject (Some (js "failed"));
     htmlToPdfBuffer := fun html => Ok html;
     fileName := js "1_u.pdf";
     HOST_URL := Some (js "https://host/");
     smtp_configured := false |}.

(** A request with a payment id and an empty text, and one with a blank
    text. *)
Definition request_without_text : Request :=
  {| payment_id := Some (js "pay_1"); resume_text := Some [];
     resume_type := None; email := None; target_role := None |}.

Definition request_blank_text : Request :=
  {| payment_id := Some (js "pay_1"); resume_text := Some (js "   ");
     resume_type := None; email := None; target_role := None |}.

Definition empty_state : State := {| resumes := []; log := [] |}.

(** A resume whose education line ends with a space. *)
Definition resume_with_trailing_space : jsstring :=
  js "Name: Jane Doe
Email: jane@x.com
Summary: Backend engineer
Skills: Go, SQL
Experience
Engineer at Acme
Education
BSc CS 
".

(** The fields extracted from it. *)
Definition fields_with_trailing_space : ExtractedFields :=
  {| name := js "Jane Doe";
     contact := js "jane@x.com";
     summary := js "Backend engineer";
     skills := js "Go" ++ bullet_join ++ js "SQL";
     experience := bullet_prefix ++ js "Engineer at Acme";
     education := js "BSc CS ";
     languages := [] |}.

(** Six plain values and a language. *)
Definition well_formed_fields : ExtractedFields :=
  {| name := js "Jane Doe";
     contact := js "jane@x.com";
     summary := js "Backend engineer";
     skills := js "Go" ++ bullet_join ++ js "SQL";
     experience := bullet_prefix ++ js "Engineer at Acme";
     education := js "BSc CS";
     languages := js "English" |}.

(** Six values, the experience with an inner line that reads like a
    label. *)
Definition fields_with_inner_label : ExtractedFields :=
  {| name := js "Jane Doe";
     contact := js "jane@x.com";
     summary := js "Backend engineer";
     skills := js "Go";
     experience := bullet_prefix ++ js "Engineer at Acme" ++ LF :: js "Stack: Go";
     education := js "BSc CS";
     languages := [] |}.

(** Six values, the summary with a lookup label in it. *)
Definition fields_with_lookup_label : ExtractedFields :=
  {| name := js "Jane Doe";
     contact := js "jane@x.com";
     summary := js "Strong skills: Go";
     skills := js "Python";
     experience := bullet_prefix ++ js "Engineer at Acme";
     education := js "BSc CS";
     languages := [] |}.

(** Languages that read like a skills line, and no skills. *)
Definition fields_with_languages_label : ExtractedFields :=
  {| name := js "Jane Doe";
     contact := [];
     summary := js "Backend engineer";
     skills := [];
     experience := [];
     education := [];
     languages := js "Skills: none" |}.


(** A record without skills whose summary holds a line that reads like a
    skills line. *)
Definition fields_with_skills_in_summary : ExtractedFields :=
  {| name := js "Jane Doe"; contact := [];
     summary := js "Backend engineer" ++ LF :: js "SKILLS: none";
     skills := []; experience := []; education := []; languages := [] |}.

(** A target role with a line break in it, followed by a label. *)
Definition role_with_label : jsstring := js "x." ++ LF :: js "SKILLS: injected".

(** The text that [improveResume] returns for the resume ["hello"]. *)
Definition hello_text : jsstring :=
  js "NAME: Applicant
PROFESSIONAL SUMMARY: Dedicated professional with strong expertise in multiple areas.
".

(* ================================================================== *)
(** * More patterns read as functions on text *)
(* ================================================================== *)

(** The characters that [[,;]|\n] matches. *)
Definition is_list_sep (c : char) : bool :=
  N.eqb c (ch ",") || N.eqb c (ch ";") || N.eqb c LF.

(** The characters that [[\s:]] matches. *)
Definition is_ws_colon (c : char) : bool := isWhiteSpace c || N.eqb c COLON.

(** The pieces of [s] between the characters that satisfy [sep]; [acc] is
    the piece being read, reversed. *)
Fixpoint pieces (sep : char -> bool) (acc s : jsstring) : list jsstring :=
  match s with
  | [] => [rev acc]
  | c :: s' => if sep c then rev acc :: pieces sep [] s' else pieces sep (c :: acc) s'
  end.

(** The lookahead of a section pattern, [(?=\n(?:L1|...|Ln|$))] under the
    [i] flag: a line break followed by one of the labels or by the end of
    the text. *)
Definition section_stop (labels : list jsstring) (s : jsstring) : bool :=
  match s with
  | c :: s' => N.eqb c LF && (existsb (fun L => prefix_match true L s') labels || isEmpty s')
  | [] => false
  end.

(** Where a pattern's label is read at the start of [s]: the text behind
    the word, when [s] starts with it, whatever the case. *)
Definition word_here (word s : jsstring) : option jsstring :=
  if prefix_match true word s then Some (skipn (length word) s) else None.

(** The label of the objective pattern, [(?:Objective|objective|Summary|summary)]
    under the [i] flag. *)
Definition objective_here (s : jsstring) : option jsstring :=
  match word_here (js "objective") s with
  | Some r => Some r
  | None => word_here (js "summary") s
  end.

(** The text behind the first place, from the left, where a label is
    read. *)
Fixpoint first_label (lab : jsstring -> option jsstring) (t : jsstring) : option jsstring :=
  match lab t with
  | Some r => Some r
  | None =>
      match t with
      | [] => None
      | _ :: t' => first_label lab t'
      end
  end.

(** What a labeled pattern, [label[\s:]*([^]*?)(?=stop)], captures: after
    the first label and the white space and colons behind it, the text up
    to the first stop; nothing when there is none. *)
Definition raw_labeled (lab : jsstring -> option jsstring) (stop : jsstring -> bool)
    (text : jsstring) : jsstring :=
  match first_label lab text with
  | Some r =>
      match scan stop (dropWhile is_ws_colon r) with
      | Some (pre, _) => pre
      | None => []
      end
  | None => []
  end.

(** The raw text of a section: the label is a word, the stop a line break
    followed by one of the labels or by the end of the text. *)
Definition raw_section (word : jsstring) (labels : list jsstring) (text : jsstring)
  : jsstring :=
  raw_labeled (word_here word) (section_stop labels) text.

(** Every character that the pattern consumes satisfies [P]; a lookahead
    and [$] consume nothing. *)
Fixpoint consumes_only (ic : bool) (P : char -> bool) (r : regex) : Prop :=
  match r with
  | REmpty | REnd | RLookahead _ => True
  | RAtom a | RQuant a _ _ _ => forall c, atom_test ic a c = true -> P c = true
  | RSeq r1 r2 | RAlt r1 r2 => consumes_only ic P r1 /\ consumes_only ic P r2
  | RGroup r1 | RNonCap r1 => consumes_only ic P r1
  end.

(** Every group of the pattern consumes only characters that satisfy [P]. *)
Fixpoint captures_only (ic : bool) (P : char -> bool) (r : regex) : Prop :=
  match r with
  | REmpty | REnd | RAtom _ | RQuant _ _ _ _ => True
  | RSeq r1 r2 | RAlt r1 r2 => captures_only ic P r1 /\ captures_only ic P r2
  | RGroup r1 => consumes_only ic P r1
  | RNonCap r1 | RLookahead r1 => captures_only ic P r1
  end.

(** The least number of characters that a match of the pattern consumes. *)
Fixpoint min_length (r : regex) : nat :=
  match r with
  | REmpty | REnd | RLookahead _ => 0
  | RAtom _ => 1
  | RQuant _ min _ _ => min
  | RSeq r1 r2 => min_length r1 + min_length r2
  | RAlt r1 r2 => Nat.min (min_length r1) (min_length r2)
  | RGroup r1 | RNonCap r1 => min_length r1
  end.

(** The characters of a name: [[A-Za-z\s]]. *)
Definition name_char (c : char) : bool := isLetter c || isWhiteSpace c.


(** The characters of a phone number, as the pattern takes it. *)
Definition phone_char (c : char) : bool :=
  isDigit c || isWhiteSpace c || existsb (N.eqb c) [ch "+"; ch "-"; ch "."].

(** The shape that the four section patterns share:
    [/(?:Cap|word)[\s:]*([^]*?)(?=\n(?:L1|...|Ln|$))/i]. *)
Definition section_pattern (Cap word : jsstring) (labels : list jsstring) : regex :=
  seq [ RNonCap (alt [lit Cap; lit word]);
        star ws_colon;
        RGroup (star_lazy any);
        RLookahead (RSeq (RAtom (AChar LF))
          (RNonCap (alt (map lit labels ++ [REnd])))) ].

(** The labels that end each section. *)
Definition skills_stops : list jsstring :=
  [js "Experience"; js "Education"; js "Languages"; js "Objective"].
Definition education_stops : list jsstring :=
  [js "Skills"; js "Experience"; js "Languages"].
Definition experience_stops : list jsstring :=
  [js "Education"; js "Skills"; js "Languages"].
Definition languages_stops : list jsstring :=
  [js "Skills"; js "Experience"; js "Education"].

(** The entries of a list section: the pieces between commas, semicolons
    and line breaks, trimmed, the empty ones left out. *)
Definition list_entries (raw : jsstring) : list jsstring :=
  filter nonEmpty (map trim (pieces is_list_sep [] raw)).

(** The lines of a section that are not blank. *)
Definition filled_lines (raw : jsstring) : list jsstring :=
  filter nonBlank (pieces (fun c => N.eqb c LF) [] raw).

(** Lines 112-115: what becomes of a line of an experience entry. *)
Definition entry_line_of (line : jsstring) (idx : nat) : jsstring :=
  if Nat.eqb idx 0 && nonEmpty line then bullet_prefix ++ line
  else if startsWith [BULLET] line then line
  else js "  - " ++ line.

(** The blocks of the experience section: the pieces between the line
    breaks that a capital letter follows; [acc] is the block being read,
    reversed. *)
Fixpoint entry_blocks (acc s : jsstring) : list jsstring :=
  match s with
  | [] => [rev acc]
  | c :: s' =>
      if N.eqb c LF && match s' with d :: _ => isUpper d | [] => false end
      then rev acc :: entry_blocks [] s'
      else entry_blocks (c :: acc) s'
  end.

(** A line of the experience value: it starts with a bullet or with the
    indent, and holds no line break. *)
Definition entry_line (l : jsstring) : Prop :=
  (startsWith [BULLET] l = true \/ startsWith (js "  - ") l = true) /\
  forallb (fun c => negb (N.eqb c LF)) l = true.

(** What the objective pattern captures: after the first [objective] or
    [summary], whatever the case, and the white space and colons behind it,
    the text up to the next line break. *)
Definition objective_text (text : jsstring) : jsstring :=
  raw_labeled objective_here head_lf text.

(** Lines 139-141: the career goal is appended to a summary that does not
    read [role], when a target role is given. *)
Definition with_career_goal (targetRole summary : jsstring) : jsstring :=
  if negb (includes (js "role") summary) && nonEmpty targetRole
  then summary ++ js " Seeking " ++ targetRole
       ++ js " role to apply technical skills and contribute to organizational growth."
  else summary.

(** The text before a label ends a line, or is empty: the label starts a
    line. *)
Definition line_start (before : jsstring) : bool :=
  match rev before with
  | [] => true
  | c :: _ => N.eqb c LF
  end.

(** No line of [v] after its first starts with one of the labels, whatever
    the case. *)
Fixpoint stop_free (labels : list jsstring) (v : jsstring) : bool :=
  match v with
  | [] => true
  | c :: v' =>
      negb (N.eqb c LF && existsb (fun L => prefix_match true L v') labels)
      && stop_free labels v'
  end.

(** The first character of [v] is neither white space nor a colon. *)
Definition starts_plain (v : jsstring) : bool :=
  match v with
  | c :: _ => negb (is_ws_colon c)
  | [] => false
  end.

(** What may follow a name: a line break, a comma or the end of the text. *)
Definition name_end (t : jsstring) : bool :=
  match t with
  | [] => true
  | c :: _ => N.eqb c LF || N.eqb c (ch ",")
  end.

(** A letter or a space. *)
Definition name_letter (c : char) : bool := isLetter c || N.eqb c SPACE.


(* ================================================================== *)
(** * The vocabulary of the further properties *)
(* ================================================================== *)

(** The four sections of lines 82-127. *)
Inductive SectionKind := Skills | Education | Experience | Languages.

(** The word that opens a section. *)
Definition section_word (k : SectionKind) : jsstring :=
  match k with
  | Skills => js "skills"
  | Education => js "education"
  | Experience => js "experience"
  | Languages => js "languages"
  end.

(** The labels that close it. *)
Definition section_stops (k : SectionKind) : list jsstring :=
  match k with
  | Skills => skills_stops
  | Education => education_stops
  | Experience => experience_stops
  | Languages => languages_stops
  end.

(** The code that extracts it. *)
Definition extract_section (k : SectionKind) (resumeText : jsstring) : Result jsstring :=
  match k with
  | Skills => extract_skills resumeText
  | Education => extract_education resumeText
  | Experience => extract_experience resumeText
  | Languages => extract_languages resumeText
  end.

(** The field made from the raw text of the section. *)
Definition section_field (k : SectionKind) (raw : jsstring) : jsstring :=
  match k with
  | Skills => join bullet_join (firstn 12 (list_entries raw))
  | Education => join bullet_join (firstn 3 (filled_lines raw))
  | Experience =>
      join [LF] (map format_entry (firstn 5 (filter nonBlank (entry_blocks [] raw))))
  | Languages => join (js ", ") (list_entries raw)
  end.

(** [Label] is the word, in some case. *)
Definition reads (word Label : jsstring) : bool :=
  prefix_match true word Label && Nat.eqb (length Label) (length word).

(** The text that both generating handlers ask [improveResume] for: the
    resume text of the body, with the defaults of [resume_type] and
    [target_role]. *)
Definition generated_text (req : Request) : Result jsstring :=
  improveResume (value (resume_text req))
    (match resume_type req with
     | Some t => t
     | None => js "Modern Professional"
     end)
    (match target_role req with
     | Some r => r
     | None => []
     end).

(** The three messages of the [catch] of the generate handler. *)
Definition paste_message : jsstring := js "Please paste your resume text to proceed.".
Definition payment_message : jsstring := js "Payment verification failed. Please try again.".
Definition generic_message : jsstring := js "Resume generation failed. Please try again.".

(** The rendering engine failed with a message that reads [word]. *)
Definition engine_says (w : World) (word : jsstring) : Prop :=
  exists html m, htmlToPdfBuffer w html = Throw (Error m) /\ includes word m = true.

(** A file name [`${Date.now()}_${uuidv4()}.pdf`]: the digits of the clock,
    an underscore, the identifier and the extension. *)
Definition artifact_name (now uuid : jsstring) : jsstring :=
  now ++ js "_" ++ uuid ++ js ".pdf".

(** The characters of an identifier: hexadecimal digits and hyphens. *)
Definition uuid_char (c : char) : bool :=
  isDigit c || ((97 <=? c) && (c <=? 102))%N || N.eqb c (ch "-").

(** A single path segment that names a file: not empty, without a slash,
    and neither [.] nor [..]. *)
Definition plain_name (n : jsstring) : bool :=
  nonEmpty n && forallb (fun c => negb (N.eqb c SLASH)) n
  && negb (str_eqb n [DOT]) && negb (str_eqb n [DOT; DOT]).

(** No segment of the path is [..]. *)
Definition no_parent_segment (path : jsstring) : bool :=
  forallb (fun seg => negb (str_eqb seg [DOT; DOT])) (segments path).

(** The path is the directory [resumes] or lies below it. *)
Definition in_resumes (path : jsstring) : bool :=
  str_eqb path (js "resumes") || startsWith (js "resumes/") path.

(** The host without its final slash, if it has one: what
    [HOST_URL.replace(/\/$/, '')] returns. *)
Definition strip_final_slash (host : jsstring) : jsstring :=
  match rev host with
  | c :: r => if N.eqb c SLASH then rev r else host
  | [] => []
  end.

(** The page of a text in which no section is found. *)
Definition default_page : jsstring :=
  page {| s_name := js "Applicant"; s_contact := []; s_summary := [];
          s_experience := []; s_education := []; s_skills := [] |}.

(** The six values of the page, in the order of the template. *)
Definition section_values (v : Sections) : list jsstring :=
  [s_name v; s_contact v; s_summary v; s_experience v; s_education v; s_skills v].

(** The request with another recipient, the world with another mail
    configuration. *)
Definition with_email (req : Request) (e : field) : Request :=
  {| payment_id := payment_id req; resume_text := resume_text req;
     resume_type := resume_type req; email := e; target_role := target_role req |}.
Definition with_smtp (w : World) (configured : bool) : World :=
  {| gateway := gateway w; htmlToPdfBuffer := htmlToPdfBuffer w;
     fileName := fileName w; HOST_URL := HOST_URL w; smtp_configured := configured |}.

(** The world of a later request: the same gateway, engine and
    configuration, another file name. *)
Definition later (w : World) (name : jsstring) : World :=
  {| gateway := gateway w; htmlToPdfBuffer := htmlToPdfBuffer w;
     fileName := name; HOST_URL := HOST_URL w; smtp_configured := smtp_configured w |}.

(** Sample inputs. *)

(** A world in which every payment is captured and the engine returns the
    page itself. *)
Definition accepting_world (host : option jsstring) : World :=
  {| gateway := fun _ => ReplyObject (Some (js "captured"));
     htmlToPdfBuffer := fun html => Ok html;
     fileName := artifact_name (js "1700000000000")
                   (js "3f2b8c1e-9a4d-4c6f-8e2a-5b7d9c0e1f23");
     HOST_URL := host;
     smtp_configured := true |}.

(** A request with a payment id, a resume and a recipient. *)
Definition request_with_resume : Request :=
  {| payment_id := Some (js "pay_1");
     resume_text := Some (js "Name: Jane Doe
Skills: Go, SQL
");
     resume_type := None; email := Some (js "jane@x.com"); target_role := None |}.

(* ================================================================== *)
(** * Lemmas *)
(* ================================================================== *)

(** ** Trimming and emptiness *)

Section StringFacts.

Lemma dropWhile_nil_iff (p : char -> bool) (s : jsstring) :
  dropWhile p s = [] <-> forallb p s = true.
Proof.
  induction s as [|c s IH]; simpl.
  - tauto.
  - destruct (p c); simpl; [exact IH | split; discriminate].
Qed.

Lemma dropWhile_head (p : char -> bool) (s : jsstring) c r :
  dropWhile p s = c :: r -> p c = false.
Proof.
  induction s as [|x s IH]; simpl; [discriminate|].
  destruct (p x) eqn:E; [exact IH|].
  intros H; injection H as -> _. exact E.
Qed.

Lemma dropWhile_forall_suffix (p : char -> bool) (s : jsstring) :
  forallb p (dropWhile p s) = true -> forallb p s = true.
Proof.
  induction s as [|x s IH]; simpl; [trivial|].
  destruct (p x) eqn:E; simpl; [exact IH|].
  rewrite E. discriminate.
Qed.

Lemma forallb_rev (p : char -> bool) (s : jsstring) :
  forallb p (rev s) = forallb p s.
Proof.
  induction s as [|x s IH]; simpl; [reflexivity|].
  rewrite forallb_app, IH. simpl. rewrite andb_true_r. apply andb_comm.
Qed.

Lemma rev_nil_iff (s : jsstring) : rev s = [] <-> s = [].
Proof.
  split; intros H.
  - rewrite <- (rev_involutive s), H. reflexivity.
  - subst. reflexivity.
Qed.

(** A string trims to the empty string exactly when it is made of white
    space only. *)
Lemma trim_nil_iff (s : jsstring) :
  trim s = [] <-> forallb isWhiteSpace s = true.
Proof.
  unfold trim, trimEnd, trimStart.
  rewrite rev_nil_iff, dropWhile_nil_iff, forallb_rev.
  split; intros H.
  - apply dropWhile_forall_suffix, H.
  - apply dropWhile_nil_iff in H. rewrite H. reflexivity.
Qed.

Lemma isEmpty_true_iff (s : jsstring) : isEmpty s = true <-> s = [].
Proof. destruct s; simpl; split; congruence. Qed.

Lemma orDefault_nonempty (a b : jsstring) : b <> [] -> orDefault a b <> [].
Proof.
  unfold orDefault. destruct a; simpl; [trivial | discriminate].
Qed.

Lemma nonBlank_false_iff (s : jsstring) :
  nonBlank s = false <-> forallb isWhiteSpace s = true.
Proof.
  unfold nonBlank. rewrite negb_false_iff, isEmpty_true_iff. apply trim_nil_iff.
Qed.

End StringFacts.

(** ** Where a match hands over, and what it captures *)

Section MatcherFacts.

(** A successful repetition ends in a successful continuation. *)
Lemma rep_success (p : char -> bool) greedy (s : jsstring) :
  forall min max k res,
    rep p greedy min max s k = Some res ->
    exists s', k s' = Some res.
Proof.
  induction s as [|c s IH]; intros min max k res H.
  - simpl in H.
    assert (E : match max with Some 0 => None | _ => @None mstate end = None)
      by (destruct max as [[|]|]; reflexivity).
    rewrite E in H.
    destruct min; [|discriminate].
    destruct greedy; [eauto|].
    destruct (k []) eqn:K; [injection H as <-; eauto | discriminate].
  - simpl in H.
    set (more := match max with
                 | Some 0 => None
                 | _ => if p c then rep p greedy (Nat.pred min) (option_map Nat.pred max) s k
                        else None
                 end) in H.
    assert (M : forall r, more = Some r -> exists s', k s' = Some r).
    { intros r Hr. unfold more in Hr.
      destruct max as [[|m]|]; try discriminate;
        (destruct (p c); [eapply IH; exact Hr | discriminate]). }
    destruct min.
    + destruct greedy.
      * destruct more as [r|] eqn:Em.
        -- injection H as <-. apply M. reflexivity.
        -- eauto.
      * destruct (k (c :: s)) eqn:K.
        -- injection H as <-. eauto.
        -- apply M, H.
    + apply M, H.
Qed.

Lemma rmatch_capture ic (r : regex) :
  forall s cap k res,
    rmatch ic r s cap k = Some res ->
    exists s' cap',
      k s' cap' = Some res /\
      (sets_group r = true \/ cap <> None -> cap' <> None).
Proof.
  induction r as [|a|r1 IH1 r2 IH2|r1 IH1 r2 IH2|a min max g|r1 IH1|r1 IH1|r1 IH1|];
    intros s cap k res H; simpl in H.
  - exists s, cap. split; [exact H|]. intros [D|D]; [discriminate|exact D].
  - destruct s as [|c s]; [discriminate|].
    destruct (atom_test ic a c); [|discriminate].
    exists s, cap. split; [exact H|]. intros [D|D]; [discriminate|exact D].
  - apply IH1 in H. destruct H as (s1 & cap1 & H & C1).
    apply IH2 in H. destruct H as (s2 & cap2 & H & C2).
    exists s2, cap2. split; [exact H|].
    simpl. rewrite orb_true_iff. intros [[D|D]|D]; apply C2; auto.
  - destruct (rmatch ic r1 s cap k) eqn:E.
    + injection H as <-. apply IH1 in E. destruct E as (s1 & cap1 & E & C1).
      exists s1, cap1. split; [exact E|].
      simpl. rewrite andb_true_iff. intros [[D _]|D]; apply C1; auto.
    + apply IH2 in H. destruct H as (s2 & cap2 & H & C2).
      exists s2, cap2. split; [exact H|].
      simpl. rewrite andb_true_iff. intros [[_ D]|D]; apply C2; auto.
  - apply rep_success in H. destruct H as (s' & H).
    exists s', cap. split; [exact H|]. intros [D|D]; [discriminate|exact D].
  - apply IH1 in H. destruct H as (s1 & cap1 & H & _).
    eexists s1, _. split; [exact H|]. intros _. discriminate.
  - apply IH1 in H. destruct H as (s1 & cap1 & H & C1).
    exists s1, cap1. split; [exact H|]. exact C1.
  - destruct (rmatch ic r1 s cap (fun s1 cap1 => Some (s1, cap1))) as [[s1 cap1]|] eqn:E;
      [|discriminate].
    apply IH1 in E. destruct E as (s2 & cap2 & E & C1).
    injection E as -> ->.
    exists s, cap1. split; [exact H|].
    intros [D|D]; [discriminate|]. apply C1. auto.
  - destruct s; [|discriminate].
    exists [], cap. split; [exact H|]. intros [D|D]; [discriminate|exact D].
Qed.

(** When such a pattern matches, [m[1]] is a string. *)
Lemma exec_group_defined ic (r : regex) (s : jsstring) :
  sets_group r = true ->
  forall i m, exec_from ic r i s = Some m -> exists g, m1 m = Some g.
Proof.
  intros G. induction s as [|c s IH]; intros i m H; simpl in H.
  - destruct (match_here ic r []) as [[s' cap]|] eqn:E; [|discriminate].
    injection H as <-. simpl.
    apply rmatch_capture in E. destruct E as (s2 & cap2 & E & C).
    injection E as -> ->.
    destruct cap as [g|]; [eauto|]. exfalso. apply C; auto.
  - destruct (match_here ic r (c :: s)) as [[s' cap]|] eqn:E.
    + injection H as <-. simpl.
      apply rmatch_capture in E. destruct E as (s2 & cap2 & E & C).
      injection E as -> ->.
      destruct cap as [g|]; [eauto|]. exfalso. apply C; auto.
    + eapply IH, H.
Qed.

End MatcherFacts.

(** ** The extraction never throws *)

Section Totality.

Lemma group1_defined ic (r : regex) (s : jsstring) m :
  sets_group r = true -> exec ic r s = Some m -> exists g, group1 m = Ok g.
Proof.
  intros G H. unfold group1.
  destruct (exec_group_defined ic r s G _ H) as (g & ->). eauto.
Qed.

Lemma section_raw_defined (re : regex) (resumeText : jsstring) :
  sets_group re = true -> exists v, section_raw re resumeText = Ok v.
Proof.
  intros G. unfold section_raw.
  destruct (exec true re resumeText) as [m|] eqn:E; [|eauto].
  exact (group1_defined _ _ _ G E).
Qed.

Lemma extract_summary_defined (resumeText targetRole : jsstring) :
  exists v, extract_summary resumeText targetRole = Ok v.
Proof.
  unfold extract_summary.
  destruct (exec true objective_re resumeText) as [m|] eqn:E.
  - destruct (group1_defined _ _ _ (eq_refl : sets_group objective_re = true) E) as (g & ->).
    simpl. eauto.
  - simpl. eauto.
Qed.

Lemma extract_defined (resumeText targetRole : jsstring) :
  exists f, extract resumeText targetRole = Ok f.
Proof.
  unfold extract, extract_skills, extract_education, extract_experience,
    extract_languages.
  destruct (section_raw_defined skills_re resumeText eq_refl) as (k & ->).
  destruct (section_raw_defined education_re resumeText eq_refl) as (d & ->).
  destruct (section_raw_defined experience_re resumeText eq_refl) as (e & ->).
  destruct (section_raw_defined languages_re resumeText eq_refl) as (l & ->).
  destruct (extract_summary_defined resumeText targetRole) as (su & ->).
  simpl. eauto.
Qed.

(** The guard of lines 61-63 in terms of the text. *)
Lemma guard_blank (resumeText : jsstring) :
  (isEmpty resumeText || Nat.eqb (length (trim resumeText)) 0) = negb (nonBlank resumeText).
Proof.
  unfold nonBlank. rewrite negb_involutive.
  destruct resumeText as [|c s]; [reflexivity|].
  simpl isEmpty at 1. simpl orb.
  destruct (trim (c :: s)); reflexivity.
Qed.

Lemma improveResume_nonblank (resumeText resumeType targetRole : jsstring) :
  nonBlank resumeText = true ->
  improveResume resumeText resumeType targetRole
  = (f <- extract resumeText targetRole ;; Ok (render f)).
Proof.
  intros H. unfold improveResume. rewrite guard_blank, H. reflexivity.
Qed.

Lemma improveResume_blank (resumeText resumeType targetRole : jsstring) :
  nonBlank resumeText = false ->
  improveResume resumeText resumeType targetRole = Throw empty_text_error.
Proof.
  intros H. unfold improveResume. rewrite guard_blank, H. reflexivity.
Qed.

End Totality.

Lemma Ok_inj (A : Type) (a b : A) : Ok a = Ok b -> a = b.
Proof. congruence. Qed.

Lemma extract_summary_no_objective (resumeText targetRole : jsstring) :
  exec true objective_re resumeText = None ->
  extract_summary resumeText targetRole
  = Ok (if negb (includes (js "role") (default_summary targetRole)) && nonEmpty targetRole
        then default_summary targetRole ++ js " Seeking " ++ targetRole
             ++ js " role to apply technical skills and contribute to organizational growth."
        else default_summary targetRole).
Proof.
  intros N. unfold extract_summary. rewrite N. reflexivity.
Qed.

Lemma extract_field_defaults (resumeText targetRole : jsstring) f :
  extract resumeText targetRole = Ok f -> field_defaults resumeText targetRole f.
Proof.
  unfold extract. intros H.
  destruct (extract_skills resumeText) as [k|] eqn:Ek; [|discriminate].
  destruct (extract_education resumeText) as [d|] eqn:Ed; [|discriminate].
  destruct (extract_experience resumeText) as [e|] eqn:Ee; [|discriminate].
  destruct (extract_languages resumeText) as [l|] eqn:El; [|discriminate].
  destruct (extract_summary resumeText targetRole) as [su|] eqn:Es; [|discriminate].
  cbn [bind] in H. injection H as <-. unfold field_defaults.
  cbn [name contact summary skills experience education languages].
  repeat split.
  - intros N. unfold extract_name. rewrite N. reflexivity.
  - intros N1 N2. unfold extract_contact. rewrite N1, N2. reflexivity.
  - intros N. unfold extract_skills, section_raw in Ek. rewrite N in Ek.
    simpl in Ek. injection Ek as <-. reflexivity.
  - intros N. unfold extract_experience, section_raw in Ee. rewrite N in Ee.
    simpl in Ee. injection Ee as <-. reflexivity.
  - intros N. unfold extract_education, section_raw in Ed. rewrite N in Ed.
    simpl in Ed. injection Ed as <-. reflexivity.
  - intros N. unfold extract_languages, section_raw in El. rewrite N in El.
    simpl in El. injection El as <-. reflexivity.
  - intros N. rewrite (extract_summary_no_objective _ targetRole N) in Es.
    apply Ok_inj in Es. rewrite <- Es.
    destruct (negb (includes (js "role") (default_summary targetRole)) && nonEmpty targetRole).
    + exists (js " Seeking " ++ targetRole
              ++ js " role to apply technical skills and contribute to organizational growth.").
      reflexivity.
    + exists []. rewrite app_nil_r. reflexivity.
Qed.

(** ** The formatted text as a list of lines *)

Section Rendering.


Lemma extract_shape (resumeText targetRole : jsstring) :
  exists k e d l su,
    extract_summary resumeText targetRole = Ok su /\
    extract resumeText targetRole
    = Ok {| name := extract_name resumeText; contact := extract_contact resumeText;
            summary := su;
            skills := k; experience := e; education := d; languages := l |} /\
    forall role' su',
      extract_summary resumeText role' = Ok su' ->
      extract resumeText role'
      = Ok {| name := extract_name resumeText; contact := extract_contact resumeText;
              summary := su';
              skills := k; experience := e; education := d; languages := l |}.
Proof.
  destruct (section_raw_defined skills_re resumeText eq_refl) as (k & Ek).
  destruct (section_raw_defined education_re resumeText eq_refl) as (d & Ed).
  destruct (section_raw_defined experience_re resumeText eq_refl) as (e & Ee).
  destruct (section_raw_defined languages_re resumeText eq_refl) as (l & El).
  destruct (extract_summary_defined resumeText targetRole) as (su & Es).
  do 5 eexists. split; [exact Es|].
  split.
  - unfold extract, extract_skills, extract_education, extract_experience,
      extract_languages.
    rewrite Ek, Ed, Ee, El, Es. cbn [bind]. reflexivity.
  - intros role' su' Es'.
    unfold extract, extract_skills, extract_education, extract_experience,
      extract_languages.
    rewrite Ek, Ed, Ee, El, Es'. cbn [bind]. reflexivity.
Qed.

End Rendering.

(** ** The handler before and after the payment check *)

Section PaymentGate.

Variable w : World.
Variable req : Request.
Variable st : State.

Lemma generate_missing :
  missing (payment_id req) || missing (resume_text req) = true ->
  generate w req st = (missing_input, st).
Proof.
  intros H. unfold generate. rewrite H. reflexivity.
Qed.

Lemma generate_unconfirmed :
  missing (payment_id req) || missing (resume_text req) = false ->
  unconfirmed w req ->
  generate w req st
  = (payment_unverified, record (VerifyPayment (value (payment_id req))) st).
Proof.
  intros H U. unfold generate. rewrite H. unfold unconfirmed in U. rewrite U.
  reflexivity.
Qed.

(** The pipeline only adds to the log, above what it was given. *)
Lemma deliver_log text st0 :
  exists evs, log (snd (deliver w req text st0)) = evs ++ log st0.
Proof.
  unfold deliver.
  destruct (improveResume text _ _) as [aiText|e].
  - destruct (htmlToPdfBuffer w _) as [pdf|e].
    + assert (M : exists evs,
                 log (match email req with
                      | Some to =>
                          if smtp_configured w && nonEmpty to
                          then record (SendMail to (js "resumes/" ++ fileName w))
                                 (writeFileSync (js "resumes/" ++ fileName w) pdf
                                    (record (RenderPdf (renderHtmlFromAiText aiText))
                                       (record (RenderHtml aiText)
                                          (record (ImproveResume text) st0))))
                          else writeFileSync (js "resumes/" ++ fileName w) pdf
                                 (record (RenderPdf (renderHtmlFromAiText aiText))
                                    (record (RenderHtml aiText)
                                       (record (ImproveResume text) st0)))
                      | None => writeFileSync (js "resumes/" ++ fileName w) pdf
                                  (record (RenderPdf (renderHtmlFromAiText aiText))
                                     (record (RenderHtml aiText)
                                        (record (ImproveResume text) st0)))
                      end) = evs ++ log st0).
      { destruct (email req) as [to|];
          [destruct (smtp_configured w && nonEmpty to)|];
          cbn [log record writeFileSync];
          [ exists [SendMail to (js "resumes/" ++ fileName w);
                    WriteFile (js "resumes/" ++ fileName w) pdf;
                    RenderPdf (renderHtmlFromAiText aiText);
                    RenderHtml aiText; ImproveResume text]
          | exists [WriteFile (js "resumes/" ++ fileName w) pdf;
                    RenderPdf (renderHtmlFromAiText aiText);
                    RenderHtml aiText; ImproveResume text]
          | exists [WriteFile (js "resumes/" ++ fileName w) pdf;
                    RenderPdf (renderHtmlFromAiText aiText);
                    RenderHtml aiText; ImproveResume text] ];
          reflexivity. }
      destruct (HOST_URL w); exact M.
    + exists [RenderPdf (renderHtmlFromAiText aiText); RenderHtml aiText;
              ImproveResume text]. reflexivity.
  - exists [ImproveResume text]. reflexivity.
Qed.

End PaymentGate.

(** ** Literal text and stars *)

Section Lookup.

Lemma rmatch_lit ic (P : jsstring) :
  forall s cap k,
    rmatch ic (lit P) s cap k
    = if prefix_match ic P s then k (skipn (length P) s) cap else None.
Proof.
  induction P as [|a P IH]; intros s cap k.
  - reflexivity.
  - destruct s as [|c s]; [reflexivity|].
    cbn [lit rmatch prefix_match length skipn].
    destruct (atom_test ic (AChar a) c); [apply IH | reflexivity].
Qed.

Lemma prefix_match_app ic (P : jsstring) (a : char) :
  forall s,
    prefix_match ic (P ++ [a]) s
    = prefix_match ic P s &&
      match skipn (length P) s with
      | c :: _ => atom_test ic (AChar a) c
      | [] => false
      end.
Proof.
  induction P as [|b P IH]; intros s.
  - destruct s as [|c s]; cbn; [reflexivity | rewrite andb_true_r; reflexivity].
  - destruct s as [|c s]; [reflexivity|].
    cbn [app prefix_match length skipn]. rewrite IH, andb_assoc. reflexivity.
Qed.

Lemma prefix_match_length ic (P s : jsstring) :
  prefix_match ic P s = true -> length P <= length s.
Proof.
  revert s. induction P as [|a P IH]; intros s H; [simpl; lia|].
  destruct s as [|c s]; [discriminate|].
  cbn [prefix_match] in H. apply andb_true_iff in H. destruct H as [_ H].
  apply IH in H. simpl. lia.
Qed.

Lemma scan_app stop (s pre rest : jsstring) :
  scan stop s = Some (pre, rest) -> s = pre ++ rest.
Proof.
  revert pre rest. induction s as [|c s IH]; intros pre rest H; simpl in H.
  - destruct (stop []); [|discriminate]. injection H as <- <-. reflexivity.
  - destruct (stop (c :: s)).
    + injection H as <- <-. reflexivity.
    + destruct (scan stop s) as [[p r]|]; [|discriminate].
      injection H as <- <-. simpl. f_equal. apply IH. reflexivity.
Qed.

(** A lazy star over a term that accepts every character stops at the
    first position where the rest of the pattern matches. *)
Lemma rep_lazy_all (p : char -> bool) (stop : jsstring -> bool)
    (F : jsstring -> mstate) :
  (forall c, p c = true) ->
  forall s,
    rep p false 0 None s (fun s' => if stop s' then Some (F s') else None)
    = match scan stop s with
      | Some (_, rest) => Some (F rest)
      | None => None
      end.
Proof.
  intros Hp. induction s as [|c s IH].
  - cbn. destruct (stop []); reflexivity.
  - cbn [rep scan]. rewrite Hp. cbn [Nat.pred option_map].
    destruct (stop (c :: s)); [reflexivity|].
    rewrite IH. destruct (scan stop s) as [[pre rest]|]; reflexivity.
Qed.

(** A greedy star followed by something that cannot start with a character
    of the star takes the longest run. *)
Lemma rep_greedy_run (p : char -> bool) (K : jsstring -> option mstate) :
  (forall c s, p c = true -> K (c :: s) = None) ->
  forall s, rep p true 0 None s K = K (dropWhile p s).
Proof.
  intros HK. induction s as [|c s IH].
  - reflexivity.
  - cbn [rep dropWhile]. destruct (p c) eqn:E.
    + cbn [Nat.pred option_map]. rewrite IH, (HK c s E).
      destruct (K (dropWhile p s)); reflexivity.
    + reflexivity.
Qed.

Lemma canon_eqb_nonletter (a c : char) :
  isLetter a = false -> canon_eqb a c = N.eqb a c.
Proof.
  unfold canon_eqb, char_eqb, toUpperAscii, toLowerAscii, isLetter, isUpper, isLower.
  intros H.
  destruct (N.eqb_spec a c) as [->|Hne]; [reflexivity|].
  apply orb_false_iff in H. destruct H as [H1 H2].
  cbn [orb].
  destruct ((97 <=? c) && (c <=? 122))%N eqn:L;
    destruct ((65 <=? c) && (c <=? 90))%N eqn:U;
    repeat match goal with
           | |- context [N.eqb ?x ?y] => destruct (N.eqb_spec x y)
           end; try reflexivity; exfalso;
    rewrite ?andb_true_iff, ?andb_false_iff, ?N.leb_le, ?N.leb_gt in *; lia.
Qed.

Lemma upper_class_ic (c : char) :
  atom_test true (AClass false [Range (ch "A") (ch "Z")]) c = isLetter c.
Proof.
  cbn [atom_test existsb xorb]. rewrite orb_false_r.
  unfold item_mem_ic, item_mem, toUpperAscii, toLowerAscii, isLetter, isUpper, isLower.
  change (ch "A") with 65%N. change (ch "Z") with 90%N.
  destruct ((97 <=? c) && (c <=? 122))%N eqn:L;
    destruct ((65 <=? c) && (c <=? 90))%N eqn:U; cbn [orb].
  - reflexivity.
  - rewrite orb_true_iff. left.
    rewrite andb_true_iff, !N.leb_le in *. lia.
  - reflexivity.
  - exact U.
Qed.

Lemma any_char_all ic (c : char) : atom_test ic any_char c = true.
Proof.
  unfold any_char. cbn [atom_test existsb xorb].
  destruct ic; unfold item_mem_ic; cbn [item_mem];
    destruct (isWhiteSpace c); cbn [negb orb]; rewrite ?orb_true_r; reflexivity.
Qed.

Lemma any_all ic (c : char) : atom_test ic any c = true.
Proof. destruct ic; reflexivity. Qed.

End Lookup.

(** ** The section pattern of [getSection] *)

Section SectionLookup.

Lemma rep_ext (p : char -> bool) greedy (K1 K2 : jsstring -> option mstate) :
  (forall s, K1 s = K2 s) ->
  forall s min max, rep p greedy min max s K1 = rep p greedy min max s K2.
Proof.
  intros HK. induction s as [|c s IH]; intros min max.
  - cbn. rewrite HK. reflexivity.
  - cbn [rep]. rewrite HK, IH. reflexivity.
Qed.

Lemma colon_test (c : char) : atom_test true (AChar COLON) c = N.eqb c COLON.
Proof.
  cbn [atom_test]. rewrite canon_eqb_nonletter by reflexivity. apply N.eqb_sym.
Qed.

Lemma lf_test (c : char) : atom_test true (AChar LF) c = N.eqb c LF.
Proof.
  cbn [atom_test]. rewrite canon_eqb_nonletter by reflexivity. apply N.eqb_sym.
Qed.

Lemma letter_not_colon (c : char) : isLetter c = true -> N.eqb c COLON = false.
Proof.
  unfold isLetter, isUpper, isLower, COLON. intros H.
  apply N.eqb_neq. intros ->. discriminate H.
Qed.

Lemma label_alternative (s : jsstring) (cap : option jsstring) :
  rmatch true
    (seq [ RAtom (AChar LF); plus (AClass false [Range (ch "A") (ch "Z")]);
           RAtom (AChar COLON) ])
    s cap (fun s1 cap1 => Some (s1, cap1))
  = if label_ahead s
    then Some (skipn 1 (dropWhile isLetter (skipn 1 s)), cap)
    else None.
Proof.
  cbn [seq rmatch plus].
  destruct s as [|c s]; [reflexivity|].
  rewrite lf_test. cbn [label_ahead skipn].
  destruct (N.eqb c LF); [|reflexivity]. cbn [andb].
  destruct s as [|l s]; [reflexivity|].
  cbn [rep Nat.pred option_map]. rewrite upper_class_ic.
  destruct (isLetter l) eqn:El; [|reflexivity]. cbn [andb dropWhile]. rewrite El.
  rewrite (rep_ext _ _ _
             (fun s5 => match s5 with
                        | x :: s6 => if N.eqb x COLON then Some (s6, cap) else None
                        | [] => None
                        end)).
  2:{ intros [|x s6]; [reflexivity|]. rewrite colon_test. reflexivity. }
  assert (R : forall K s0,
             rep (atom_test true (AClass false [Range (ch "A") (ch "Z")])) true 0 None s0 K
             = rep isLetter true 0 None s0 K).
  { intros K s0. revert K. induction s0 as [|y s0 IH]; intros K; [reflexivity|].
    cbn [rep Nat.pred option_map]. rewrite upper_class_ic, IH. reflexivity. }
  rewrite R, rep_greedy_run.
  - destruct (dropWhile isLetter s) as [|x s6]; [reflexivity|].
    cbn [skipn]. destruct (N.eqb x COLON); reflexivity.
  - intros y s6 Hy. rewrite (letter_not_colon _ Hy). reflexivity.
Qed.

Lemma lookahead_break (s : jsstring) (cap : option jsstring) (k : cont) :
  rmatch true
    (RLookahead
       (RAlt (seq [ RAtom (AChar LF); plus (AClass false [Range (ch "A") (ch "Z")]);
                    RAtom (AChar COLON) ])
             REnd))
    s cap k
  = if is_break s then k s cap else None.
Proof.
  cbn [rmatch]. rewrite label_alternative. unfold is_break.
  destruct (label_ahead s); [reflexivity|].
  destruct s; reflexivity.
Qed.

Lemma skipn_succ (A : Type) (n : nat) (s : list A) c r :
  skipn n s = c :: r -> skipn (n + 1) s = r.
Proof.
  revert s. induction n as [|n IH]; intros s H.
  - simpl in H. subst. reflexivity.
  - destruct s as [|x s]; [discriminate|]. simpl in *. apply IH, H.
Qed.

Lemma match_here_section (L s : jsstring) :
  match_here true (section_re L) s
  = if prefix_match true (L ++ [COLON]) s
    then match scan is_break (skipn (length L + 1) s) with
         | Some (_, rest) => Some (rest, None)
         | None => None
         end
    else None.
Proof.
  unfold match_here, section_re. cbn [seq rmatch].
  rewrite rmatch_lit, prefix_match_app.
  destruct (prefix_match true L s); [|reflexivity]. cbn [andb].
  destruct (skipn (length L) s) as [|c s2] eqn:Sk; [reflexivity|].
  destruct (atom_test true (AChar COLON) c); [|reflexivity].
  rewrite (skipn_succ _ _ Sk).
  unfold star_lazy. cbn [rmatch].
  rewrite (rep_ext _ _ _
             (fun s' => if is_break s' then Some ((fun r => (r, None)) s') else None)).
  2:{ intros s'. exact (lookahead_break s' None (fun s1 cap1 => Some (s1, cap1))). }
  apply rep_lazy_all. apply any_char_all.
Qed.

Lemma match_here_label (L s : jsstring) :
  match_here true (label_re L) s
  = if prefix_match true (L ++ [COLON]) s
    then Some (skipn (length L + 1) s, None)
    else None.
Proof.
  unfold match_here, label_re. cbn [rmatch].
  rewrite rmatch_lit, prefix_match_app.
  destruct (prefix_match true L s); [|reflexivity]. cbn [andb].
  destruct (skipn (length L) s) as [|c s2] eqn:Sk; [reflexivity|].
  destruct (atom_test true (AChar COLON) c); [|reflexivity].
  rewrite (skipn_succ _ _ Sk). reflexivity.
Qed.

Lemma scan_break_total (s : jsstring) :
  exists rest, scan is_break s = Some (until_break s, rest).
Proof.
  induction s as [|c s IH].
  - exists []. reflexivity.
  - cbn [scan until_break]. destruct (is_break (c :: s)); [eauto|].
    destruct IH as (rest & ->). eauto.
Qed.

End SectionLookup.

(** ** [getSection] as a function on text *)

Section GetSection.

Lemma prefix_match_firstn ic (P : jsstring) :
  forall t, prefix_match ic P t = true ->
            prefix_match ic P (firstn (length P) t) = true.
Proof.
  induction P as [|a P IH]; intros t H; [reflexivity|].
  destruct t as [|c t]; [discriminate|].
  cbn [prefix_match length firstn] in *.
  apply andb_true_iff in H. destruct H as [H1 H2].
  rewrite H1, (IH _ H2). reflexivity.
Qed.

Lemma prefix_match_extend ic (P : jsstring) :
  forall x y, prefix_match ic P x = true -> prefix_match ic P (x ++ y) = true.
Proof.
  induction P as [|a P IH]; intros x y H; [reflexivity|].
  destruct x as [|c x]; [discriminate|].
  cbn [prefix_match app] in *.
  apply andb_true_iff in H. destruct H as [H1 H2].
  rewrite H1, (IH _ _ H2). reflexivity.
Qed.

Lemma firstn_split_length (A : Type) (x y : list A) :
  firstn (length (x ++ y) - length y) (x ++ y) = x.
Proof.
  rewrite length_app, Nat.add_sub, firstn_app, Nat.sub_diag, firstn_all.
  simpl. apply app_nil_r.
Qed.

(** Where the section pattern matches and what it matches. *)
Lemma exec_section (L : jsstring) :
  forall t i,
    match after_label (L ++ [COLON]) t with
    | None => exec_from true (section_re L) i t = None
    | Some r =>
        exists i' lab rest,
          exec_from true (section_re L) i t
          = Some {| index := i'; m0 := lab ++ until_break r; m1 := None; after := rest |} /\
          prefix_match true (L ++ [COLON]) lab = true /\
          length lab = length L + 1
    end.
Proof.
  assert (Len : length (L ++ [COLON]) = length L + 1)
    by (rewrite length_app; reflexivity).
  assert (Hit : forall t i,
             prefix_match true (L ++ [COLON]) t = true ->
             exists i' lab rest,
               exec_from true (section_re L) i t
               = Some {| index := i';
                         m0 := lab ++ until_break (skipn (length (L ++ [COLON])) t);
                         m1 := None; after := rest |} /\
               prefix_match true (L ++ [COLON]) lab = true /\
               length lab = length L + 1).
  { intros t i PM.
    assert (E : exec_from true (section_re L) i t
                = match match_here true (section_re L) t with
                  | Some (s', cap) =>
                      Some {| index := i; m0 := firstn (length t - length s') t;
                              m1 := cap; after := s' |}
                  | None => None
                  end).
    { destruct t; cbn [exec_from];
        destruct (match_here true (section_re L) _) as [[s' cap]|] eqn:M;
        try reflexivity.
      rewrite match_here_section, PM in M.
      destruct (scan_break_total (skipn (length L + 1) (c :: t))) as (rest & Sc).
      rewrite Sc in M. discriminate M. }
    rewrite E, match_here_section, PM, Len.
    destruct (scan_break_total (skipn (length L + 1) t)) as (rest & Sc).
    rewrite Sc. exists i, (firstn (length L + 1) t), rest.
    split; [|split].
    - f_equal. f_equal.
      pose proof (scan_app _ _ Sc) as Sp.
      rewrite <- (firstn_skipn (length L + 1) t) at 1 2.
      rewrite Sp at 1 2. rewrite app_assoc. apply firstn_split_length.
    - rewrite <- Len. apply prefix_match_firstn, PM.
    - apply firstn_length_le. rewrite <- Len. eapply prefix_match_length, PM. }
  induction t as [|c t IH]; intros i.
  - cbn [after_label].
    destruct (prefix_match true (L ++ [COLON]) []) eqn:PM.
    + apply Hit, PM.
    + cbn [exec_from]. rewrite match_here_section, PM. reflexivity.
  - cbn [after_label].
    destruct (prefix_match true (L ++ [COLON]) (c :: t)) eqn:PM.
    + apply Hit, PM.
    + cbn [exec_from]. rewrite match_here_section, PM. apply IH.
Qed.

(** [getSection] returns the trimmed text between the first occurrence of
    the label with its colon, whatever the case of its letters, and the
    first following break: a line break followed by letters and a colon, or
    the end of the text. *)
Lemma getSection_spec (aiText L : jsstring) :
  getSection aiText L
  = match after_label (L ++ [COLON]) aiText with
    | Some r => trim (until_break r)
    | None => []
    end.
Proof.
  unfold getSection, exec.
  pose proof (exec_section L aiText 0) as H.
  destruct (after_label (L ++ [COLON]) aiText) as [r|].
  - destruct H as (i' & lab & rest & -> & PM & Len).
    cbn [m0]. f_equal. unfold replace, exec.
    assert (E : exec_from true (label_re L) 0 (lab ++ until_break r)
                = Some {| index := 0; m0 := firstn (length (lab ++ until_break r)
                                                     - length (until_break r))
                                              (lab ++ until_break r);
                          m1 := None; after := until_break r |}).
    { assert (M : match_here true (label_re L) (lab ++ until_break r)
                  = Some (until_break r, None)).
      { rewrite match_here_label, (prefix_match_extend _ _ _ _ PM), <- Len.
        rewrite skipn_app, skipn_all, Nat.sub_diag. reflexivity. }
      destruct (lab ++ until_break r) eqn:X; cbn [exec_from]; rewrite M; reflexivity. }
    rewrite E. reflexivity.
  - rewrite H. reflexivity.
Qed.

End GetSection.

(** ** Occurrences of a label *)

Section TextFacts.

Lemma prefix_match_sep (P : jsstring) (c : char) :
  sep_free P c = true ->
  forall x y, prefix_match true P (x ++ c :: y) = prefix_match true P x.
Proof.
  induction P as [|a P IH]; intros F x y; [reflexivity|].
  cbn [sep_free forallb] in F. apply andb_true_iff in F. destruct F as [Fa F].
  apply negb_true_iff in Fa.
  destruct x as [|b x]; cbn [app prefix_match].
  - rewrite Fa. reflexivity.
  - rewrite (IH F). reflexivity.
Qed.

Lemma occurs_nil_false (P : jsstring) : occurs P [] = false -> P <> [].
Proof. intros H ->. discriminate H. Qed.

Lemma after_label_sep (P : jsstring) (c : char) :
  sep_free P c = true ->
  forall x y, occurs P x = false -> after_label P (x ++ c :: y) = after_label P y.
Proof.
  intros F. induction x as [|b x IH]; intros y O.
  - cbn [app after_label].
    change (c :: y) with ([] ++ c :: y) at 1.
    rewrite (prefix_match_sep _ _ F). cbn [occurs] in O.
    apply orb_false_iff in O. destruct O as [-> _]. reflexivity.
  - cbn [occurs] in O. apply orb_false_iff in O. destruct O as [O1 O2].
    cbn [app after_label].
    change (b :: x ++ c :: y) with ((b :: x) ++ c :: y).
    rewrite (prefix_match_sep _ _ F), O1. apply IH, O2.
Qed.

Lemma occurs_sep (P : jsstring) (c : char) :
  sep_free P c = true ->
  forall x y, occurs P (x ++ c :: y) = occurs P x || occurs P y.
Proof.
  intros F. induction x as [|b x IH]; intros y.
  - cbn [app occurs].
    change (c :: y) with ([] ++ c :: y) at 1.
    rewrite (prefix_match_sep _ _ F). rewrite orb_false_r. reflexivity.
  - cbn [app occurs].
    change (b :: x ++ c :: y) with ((b :: x) ++ c :: y).
    rewrite (prefix_match_sep _ _ F), IH, orb_assoc. reflexivity.
Qed.

Lemma after_label_none (P s : jsstring) :
  occurs P s = false -> after_label P s = None.
Proof.
  induction s as [|c s IH]; cbn [occurs after_label]; intros O;
    apply orb_false_iff in O; destruct O as [-> O]; [reflexivity | apply IH, O].
Qed.

Lemma prefix_match_app_long (P : jsstring) :
  forall x y, length P <= length x ->
              prefix_match true P (x ++ y) = prefix_match true P x.
Proof.
  induction P as [|a P IH]; intros x y Hl; [reflexivity|].
  destruct x as [|b x]; [simpl in Hl; lia|].
  cbn [app prefix_match]. rewrite IH by (simpl in Hl; lia). reflexivity.
Qed.

Lemma after_label_length (P : jsstring) :
  forall x r, after_label P x = Some r -> length P <= length x.
Proof.
  induction x as [|b x IH]; intros r H; cbn [after_label] in H.
  - destruct (prefix_match true P []) eqn:E; [|discriminate].
    apply prefix_match_length in E. exact E.
  - destruct (prefix_match true P (b :: x)) eqn:E.
    + apply prefix_match_length in E. exact E.
    + apply IH in H. simpl. lia.
Qed.

(** An occurrence found in a text is found at the same place when the text
    goes on. *)
Lemma after_label_app (P : jsstring) :
  forall x r y, after_label P x = Some r -> after_label P (x ++ y) = Some (r ++ y).
Proof.
  induction x as [|b x IH]; intros r y H.
  - cbn [after_label] in H.
    destruct (prefix_match true P []) eqn:E; [|discriminate].
    destruct P; [|discriminate E].
    injection H as <-. cbn. destruct y; reflexivity.
  - pose proof (after_label_length _ _ H) as Hl.
    cbn [after_label app] in *.
    change (b :: x ++ y) with ((b :: x) ++ y).
    rewrite prefix_match_app_long by exact Hl.
    destruct (prefix_match true P (b :: x)) eqn:E.
    + injection H as <-. f_equal.
      rewrite skipn_app.
      replace (length P - length (b :: x)) with 0 by lia. reflexivity.
    + apply IH, H.
Qed.

End TextFacts.

(** ** Breaks and white space *)

Section BreakFacts.

Lemma colon_head_app (x r : jsstring) :
  match dropWhile isLetter (x ++ COLON :: r) with
  | y :: _ => N.eqb y COLON
  | [] => false
  end
  = match dropWhile isLetter (x ++ [COLON]) with
    | y :: _ => N.eqb y COLON
    | [] => false
    end.
Proof.
  induction x as [|b x IH]; [reflexivity|].
  cbn [app dropWhile]. destruct (isLetter b); [exact IH | reflexivity].
Qed.

(** Whether a labeled line starts a break is decided by its label. *)
Lemma label_ahead_label (L r : jsstring) :
  label_ahead (LF :: L ++ COLON :: r) = label_ahead (LF :: L ++ [COLON]).
Proof.
  destruct L as [|l L]; [reflexivity|].
  cbn [label_ahead app]. rewrite colon_head_app. reflexivity.
Qed.

Lemma lf_head_app (x r : jsstring) :
  match dropWhile isLetter (x ++ LF :: r) with
  | y :: _ => N.eqb y COLON
  | [] => false
  end
  = match dropWhile isLetter x with
    | y :: _ => N.eqb y COLON
    | [] => false
    end.
Proof.
  induction x as [|b x IH]; [reflexivity|].
  cbn [app dropWhile]. destruct (isLetter b); [exact IH | reflexivity].
Qed.

(** A line break after a value does not turn a position of the value
    into a break. *)
Lemma label_ahead_value (v r : jsstring) :
  v <> [] -> label_ahead (v ++ LF :: r) = label_ahead v.
Proof.
  destruct v as [|c [|l v]]; intros Hv.
  - congruence.
  - cbn. rewrite andb_false_r. reflexivity.
  - cbn [app label_ahead]. rewrite lf_head_app. reflexivity.
Qed.

Lemma until_break_value (v r : jsstring) :
  break_free v = true ->
  until_break (v ++ LF :: r) = v ++ until_break (LF :: r).
Proof.
  induction v as [|c v IH]; intros B; [reflexivity|].
  cbn [break_free] in B. apply andb_true_iff in B. destruct B as [B1 B2].
  apply negb_true_iff in B1.
  change ((c :: v) ++ LF :: r) with (c :: (v ++ LF :: r)).
  cbn [until_break]. unfold is_break.
  change (c :: (v ++ LF :: r)) with ((c :: v) ++ LF :: r) at 1.
  rewrite label_ahead_value by discriminate. rewrite B1.
  cbn [isEmpty orb app]. f_equal. apply IH, B2.
Qed.

(** Text without a line break holds no break. *)
Lemma until_break_plain (x r : jsstring) :
  forallb (fun c => negb (N.eqb c LF)) x = true ->
  until_break (x ++ r) = x ++ until_break r.
Proof.
  induction x as [|c x IH]; intros H; [reflexivity|].
  cbn [forallb] in H. apply andb_true_iff in H. destruct H as [H1 H2].
  apply negb_true_iff in H1.
  cbn [app until_break]. unfold is_break. cbn [label_ahead isEmpty].
  rewrite H1. cbn [andb orb]. f_equal. apply IH, H2.
Qed.

Lemma dropWhile_all_app (p : char -> bool) (a x : jsstring) :
  forallb p a = true -> dropWhile p (a ++ x) = dropWhile p x.
Proof.
  induction a as [|c a IH]; intros H; [reflexivity|].
  cbn [forallb] in H. apply andb_true_iff in H. destruct H as [H1 H2].
  cbn [app dropWhile]. rewrite H1. apply IH, H2.
Qed.

Lemma dropWhile_clean (v : jsstring) :
  starts_clean v = true -> dropWhile isWhiteSpace v = v.
Proof.
  destruct v as [|c v]; [reflexivity|]. cbn [starts_clean dropWhile].
  intros H. apply negb_true_iff in H. rewrite H. reflexivity.
Qed.

(** White space around a text that has none at its ends is what [trim]
    removes. *)
Lemma trim_padded (a x b : jsstring) :
  forallb isWhiteSpace a = true -> forallb isWhiteSpace b = true ->
  x <> [] -> starts_clean x = true -> ends_clean x = true ->
  trim (a ++ x ++ b) = x.
Proof.
  intros Ha Hb Hx Hs He. unfold trim, trimStart, trimEnd.
  rewrite dropWhile_all_app by exact Ha.
  assert (S1 : dropWhile isWhiteSpace (x ++ b) = x ++ b).
  { destruct x as [|c x]; [congruence|]. apply dropWhile_clean. exact Hs. }
  rewrite S1, rev_app_distr, dropWhile_all_app
    by (rewrite forallb_rev; exact Hb).
  rewrite dropWhile_clean by exact He. apply rev_involutive.
Qed.

Lemma dropWhile_length (p : char -> bool) (s : jsstring) :
  length (dropWhile p s) <= length s.
Proof.
  induction s as [|c s IH]; [simpl; lia|].
  cbn [dropWhile]. destruct (p c); simpl in *; lia.
Qed.

(** A text that [trim] leaves alone has no white space at its ends. *)
Lemma trim_fixed_clean (v : jsstring) :
  trim v = v -> starts_clean v = true /\ ends_clean v = true.
Proof.
  intros H.
  assert (L1 : length (trim v) <= length (dropWhile isWhiteSpace v)).
  { unfold trim, trimEnd, trimStart. rewrite length_rev.
    etransitivity; [apply dropWhile_length|]. rewrite length_rev. lia. }
  assert (S1 : starts_clean v = true).
  { destruct v as [|c v]; [reflexivity|]. cbn [starts_clean].
    destruct (isWhiteSpace c) eqn:E; [|reflexivity]. exfalso.
    rewrite H in L1. cbn [dropWhile] in L1. rewrite E in L1.
    pose proof (dropWhile_length isWhiteSpace v). simpl in L1. lia. }
  split; [exact S1|].
  unfold ends_clean.
  unfold trim, trimEnd, trimStart in H. rewrite (dropWhile_clean _ S1) in H.
  destruct (rev v) as [|c r] eqn:R; [reflexivity|]. cbn [starts_clean].
  destruct (isWhiteSpace c) eqn:E; [|reflexivity]. exfalso.
  assert (L2 : length (rev (dropWhile isWhiteSpace (c :: r))) = length v)
    by (rewrite H; reflexivity).
  rewrite length_rev in L2. cbn [dropWhile] in L2. rewrite E in L2.
  pose proof (dropWhile_length isWhiteSpace r).
  assert (length v = S (length r)) by (rewrite <- (length_rev v), R; reflexivity).
  lia.
Qed.

Lemma ends_clean_app (x y : jsstring) :
  y <> [] -> ends_clean y = true -> ends_clean (x ++ y) = true.
Proof.
  unfold ends_clean. intros Hy He. rewrite rev_app_distr.
  destruct (rev y) as [|c r] eqn:R.
  - exfalso. exact (Hy (proj1 (rev_nil_iff y) R)).
  - exact He.
Qed.

Lemma starts_clean_app (x y : jsstring) :
  x <> [] -> starts_clean x = true -> starts_clean (x ++ y) = true.
Proof.
  destruct x as [|c x]; [congruence|]. intros _ H. exact H.
Qed.

End BreakFacts.

(** ** Labeled lines *)

Section Lines.

Lemma line_app (L v rest : jsstring) :
  (L ++ js ": " ++ v ++ [LF]) ++ rest = line L v rest.
Proof.
  unfold line. change (js ": ") with [COLON; SPACE].
  rewrite <- !app_assoc. reflexivity.
Qed.

Lemma optional_line_app (L v rest : jsstring) :
  optional_line L v ++ rest = optline L v rest.
Proof.
  unfold optional_line, optline. destruct (isEmpty v); [reflexivity|].
  apply line_app.
Qed.

(** The formatted text as a chain of lines. *)
Lemma render_lines (f : ExtractedFields) :
  render f
  = line (js "NAME") (orDefault (name f) (js "Applicant"))
      (optline (js "CONTACT") (contact f)
         (line (js "PROFESSIONAL SUMMARY") (summary f)
            (optline (js "SKILLS") (skills f)
               (optline (js "WORK EXPERIENCE") (experience f)
                  (optline (js "EDUCATION") (education f)
                     (optline (js "LANGUAGES") (languages f) [])))))).
Proof.
  unfold render.
  change (js "NAME: ") with (js "NAME" ++ js ": ").
  change (js "PROFESSIONAL SUMMARY: ") with (js "PROFESSIONAL SUMMARY" ++ js ": ").
  rewrite <- (app_nil_r (optional_line (js "LANGUAGES") (languages f))).
  rewrite <- (app_assoc (js "PROFESSIONAL SUMMARY")), <- (app_assoc (js "NAME")).
  rewrite !optional_line_app, !line_app.
  reflexivity.
Qed.

Lemma optline_nonempty (L v rest : jsstring) :
  v <> [] -> optline L v rest = line L v rest.
Proof.
  unfold optline. destruct v; [congruence | reflexivity].
Qed.

Variable P : jsstring.
Hypothesis P_space : sep_free P SPACE = true.
Hypothesis P_lf : sep_free P LF = true.

(** A line that holds no occurrence is passed over. *)
Lemma after_label_line_skip (L v rest : jsstring) :
  occurs P (L ++ [COLON]) = false -> occurs P v = false ->
  after_label P (line L v rest) = after_label P rest.
Proof.
  intros OL Ov. unfold line.
  change (L ++ COLON :: SPACE :: v ++ LF :: rest)
    with (L ++ [COLON] ++ SPACE :: v ++ LF :: rest).
  rewrite app_assoc, (after_label_sep _ _ P_space) by exact OL.
  apply (after_label_sep _ _ P_lf), Ov.
Qed.

Lemma after_label_optline_skip (L v rest : jsstring) :
  occurs P (L ++ [COLON]) = false -> occurs P v = false ->
  after_label P (optline L v rest) = after_label P rest.
Proof.
  intros OL Ov. unfold optline. destruct (isEmpty v); [reflexivity|].
  apply after_label_line_skip; assumption.
Qed.

(** A line whose label ends with the pattern: the occurrence is there. *)
Lemma after_label_line_hit (L v rest : jsstring) :
  after_label P (L ++ [COLON]) = Some [] ->
  after_label P (line L v rest) = Some (SPACE :: v ++ LF :: rest).
Proof.
  intros H. unfold line.
  change (L ++ COLON :: SPACE :: v ++ LF :: rest)
    with (L ++ [COLON] ++ SPACE :: v ++ LF :: rest).
  rewrite app_assoc. apply (after_label_app _ _ (SPACE :: v ++ LF :: rest) H).
Qed.

End Lines.

(** ** Where a section ends *)

Section LineBreaks.

Lemma until_break_body (v rest : jsstring) :
  break_free v = true ->
  until_break (SPACE :: v ++ LF :: rest) = SPACE :: v ++ until_break (LF :: rest).
Proof.
  intros B. cbn [until_break]. unfold is_break at 1. cbn [label_ahead isEmpty orb andb].
  change (N.eqb SPACE LF) with false. cbn [andb orb].
  f_equal. apply until_break_value, B.
Qed.

(** A line whose label is one word stops the section before it. *)
Lemma until_break_label (L v rest : jsstring) :
  label_ahead (LF :: L ++ [COLON]) = true ->
  until_break (LF :: line L v rest) = [].
Proof.
  intros H. unfold line. cbn [until_break]. unfold is_break.
  rewrite label_ahead_label, H. reflexivity.
Qed.

(** A line whose label is not one word is taken into the section before
    it. *)
Lemma until_break_swallow (L v rest : jsstring) :
  label_ahead (LF :: L ++ [COLON]) = false ->
  forallb (fun c => negb (N.eqb c LF)) L = true ->
  break_free v = true ->
  until_break (LF :: line L v rest)
  = LF :: L ++ COLON :: SPACE :: v ++ until_break (LF :: rest).
Proof.
  intros H HL B. unfold line. cbn [until_break]. unfold is_break at 1.
  rewrite label_ahead_label, H. cbn [isEmpty orb]. f_equal.
  rewrite until_break_plain by exact HL. f_equal.
  change (COLON :: SPACE :: v ++ LF :: rest)
    with ([COLON] ++ SPACE :: v ++ LF :: rest).
  rewrite until_break_plain by reflexivity.
  cbn [app]. f_equal. apply until_break_body, B.
Qed.

Lemma until_break_end : until_break [LF] = [LF].
Proof. reflexivity. Qed.

End LineBreaks.

(** ** Substrings and well-formed values *)

Section RoundTrip.

Lemma includes_unfold (p s : jsstring) :
  includes p s
  = startsWith p s || match s with [] => false | _ :: s' => includes p s' end.
Proof. destruct s; reflexivity. Qed.

Lemma startsWith_app (p y : jsstring) : startsWith p (p ++ y) = true.
Proof.
  induction p as [|a p IH]; [reflexivity|].
  cbn [app startsWith]. unfold char_eqb. rewrite N.eqb_refl. exact IH.
Qed.

Lemma includes_here (p y : jsstring) : includes p (p ++ y) = true.
Proof. rewrite includes_unfold, startsWith_app. reflexivity. Qed.

Lemma includes_app_l (p x y : jsstring) :
  includes p y = true -> includes p (x ++ y) = true.
Proof.
  intros H. induction x as [|c x IH]; [exact H|].
  cbn [app includes]. rewrite IH. apply orb_true_r.
Qed.

Lemma startsWith_extend (p x y : jsstring) :
  startsWith p x = true -> startsWith p (x ++ y) = true.
Proof.
  revert x. induction p as [|a p IH]; intros x H; [reflexivity|].
  destruct x as [|c x]; [discriminate|].
  cbn [app startsWith] in *. apply andb_true_iff in H. destruct H as [-> H].
  apply IH, H.
Qed.

Lemma includes_app_r (p x y : jsstring) :
  includes p x = true -> includes p (x ++ y) = true.
Proof.
  induction x as [|c x IH]; intros H.
  - cbn [includes] in H. rewrite orb_false_r in H.
    destruct p; [|discriminate]. cbn [app]. rewrite includes_unfold. reflexivity.
  - cbn [app includes] in *. apply orb_true_iff in H. destruct H as [H|H].
    + change (c :: x ++ y) with ((c :: x) ++ y).
      rewrite (startsWith_extend _ _ _ H). reflexivity.
    + rewrite (IH H). apply orb_true_r.
Qed.

(** A value is a substring of the text in which it is embedded. *)
Lemma includes_embedded (p a b : jsstring) : includes p (a ++ p ++ b) = true.
Proof. apply includes_app_l, includes_here. Qed.

Lemma trim_lead (x : jsstring) :
  x <> [] -> starts_clean x = true -> ends_clean x = true ->
  trim (SPACE :: x) = x.
Proof.
  intros Hx Hs He.
  rewrite <- (app_nil_r x) at 1.
  exact (@trim_padded [SPACE] x [] eq_refl eq_refl Hx Hs He).
Qed.

Lemma trim_lead_lf (x : jsstring) :
  x <> [] -> starts_clean x = true -> ends_clean x = true ->
  trim (SPACE :: x ++ [LF]) = x.
Proof.
  intros Hx Hs He.
  exact (@trim_padded [SPACE] x [LF] eq_refl eq_refl Hx Hs He).
Qed.

Lemma wf_token (v T : jsstring) :
  well_formed v -> In T lookup_labels -> occurs (T ++ [COLON]) v = false.
Proof.
  intros (_ & _ & H) Hin. unfold no_lookup_token in H.
  rewrite forallb_forall in H. apply negb_true_iff. apply H, Hin.
Qed.

Lemma wf_break (v : jsstring) : well_formed v -> break_free v = true.
Proof. intros (_ & H & _). exact H. Qed.

Lemma wf_clean (v : jsstring) :
  well_formed v -> starts_clean v = true /\ ends_clean v = true.
Proof. intros (H & _ & _). apply trim_fixed_clean, H. Qed.

End RoundTrip.

(** ** Values in the document *)

Section Document.

Lemma includes_inside (p x b y : jsstring) :
  includes p b = true -> includes p (x ++ b ++ y) = true.
Proof. intros H. apply includes_app_l, includes_app_r, H. Qed.

(** A value that a block of the document holds occurs in the document. *)
Lemma roundtrip_contains_in_document (f : ExtractedFields) :
  roundtrip_contains f ->
  includes (name f) (renderHtmlFromAiText (render f)) = true /\
  includes (contact f) (renderHtmlFromAiText (render f)) = true /\
  includes (summary f) (renderHtmlFromAiText (render f)) = true /\
  includes (experience f) (renderHtmlFromAiText (render f)) = true /\
  includes (education f) (renderHtmlFromAiText (render f)) = true /\
  includes (skills f) (renderHtmlFromAiText (render f)) = true.
Proof.
  intros (n & c & s & e & d & k & -> & Hn & _ & Hc & Hs & He & Hd & Hk).
  repeat split.
  - apply includes_inside, Hn.
  - do 5 apply includes_app_l. apply includes_app_r, Hc.
  - do 7 apply includes_app_l. apply includes_app_r, Hs.
  - do 9 apply includes_app_l. apply includes_app_r, He.
  - do 11 apply includes_app_l. apply includes_app_r, Hd.
  - do 13 apply includes_app_l. apply includes_app_r, Hk.
Qed.

End Document.

(** ** The six lookups on a formatted text *)

Section Lookups.

Lemma stops_end : stops [].
Proof. right. reflexivity. Qed.

Lemma stops_line (L v rest : jsstring) :
  label_ahead (LF :: L ++ [COLON]) = true -> stops (line L v rest).
Proof. intros H. left. apply until_break_label, H. Qed.

Lemma stops_optline (L v rest : jsstring) :
  label_ahead (LF :: L ++ [COLON]) = true -> stops rest -> stops (optline L v rest).
Proof.
  intros H S. unfold optline. destruct (isEmpty v); [exact S|].
  apply stops_line, H.
Qed.

(** A value followed by a stop is found again as it is. *)
Lemma section_value (v rest : jsstring) :
  well_formed v -> v <> [] -> stops rest ->
  trim (until_break (SPACE :: v ++ LF :: rest)) = v.
Proof.
  intros W Hv S. destruct (wf_clean W) as [Hs He].
  rewrite until_break_body by (apply wf_break, W).
  destruct S as [-> | ->].
  - rewrite app_nil_r. apply trim_lead; assumption.
  - apply trim_lead_lf; assumption.
Qed.

(** A value followed by a line whose label is not one word, and then by a
    stop, is found with that line attached. *)
Lemma section_value_swallow (v L v2 rest : jsstring) :
  well_formed v -> v <> [] -> well_formed v2 -> v2 <> [] ->
  label_ahead (LF :: L ++ [COLON]) = false ->
  forallb (fun c => negb (N.eqb c LF)) L = true ->
  stops rest ->
  trim (until_break (SPACE :: v ++ LF :: line L v2 rest))
  = v ++ LF :: L ++ COLON :: SPACE :: v2.
Proof.
  intros W Hv W2 Hv2 HL HnoLF S.
  destruct (wf_clean W) as [Hs He]. destruct (wf_clean W2) as [Hs2 He2].
  rewrite until_break_body by (apply wf_break, W).
  rewrite until_break_swallow by (try assumption; apply wf_break, W2).
  assert (X : forall tl,
             v ++ LF :: L ++ COLON :: SPACE :: v2 ++ tl
             = (v ++ LF :: L ++ COLON :: SPACE :: v2) ++ tl).
  { intros tl. rewrite <- !app_assoc. cbn [app]. rewrite <- !app_assoc. reflexivity. }
  assert (Hne : v ++ LF :: L ++ COLON :: SPACE :: v2 <> [])
    by (destruct v; [congruence | discriminate]).
  assert (Hsc : starts_clean (v ++ LF :: L ++ COLON :: SPACE :: v2) = true)
    by (apply starts_clean_app; assumption).
  assert (Hec : ends_clean (v ++ LF :: L ++ COLON :: SPACE :: v2) = true).
  { replace (v ++ LF :: L ++ COLON :: SPACE :: v2)
      with ((v ++ LF :: L ++ [COLON; SPACE]) ++ v2)
      by (rewrite <- !app_assoc; cbn [app]; rewrite <- !app_assoc; reflexivity).
    apply ends_clean_app; assumption. }
  rewrite X.
  destruct S as [-> | ->].
  - rewrite app_nil_r. apply trim_lead; assumption.
  - apply trim_lead_lf; assumption.
Qed.

Lemma wf_applicant : well_formed (js "Applicant").
Proof. repeat split. Qed.

Lemma wf_orDefault (n : jsstring) :
  well_formed n -> well_formed (orDefault n (js "Applicant")).
Proof.
  intros W. unfold orDefault. destruct n; [apply wf_applicant | exact W].
Qed.

Ltac in_labels := cbn [In lookup_labels]; repeat ((left; reflexivity) || right).

Ltac pass P :=
  first [ rewrite (@after_label_line_skip P eq_refl eq_refl)
        | rewrite (@after_label_optline_skip P eq_refl eq_refl) ];
  [ | reflexivity | apply wf_token; [assumption | in_labels] ].

Variable f : ExtractedFields.

Let n' := orDefault (name f) (js "Applicant").

Lemma lookup_name :
  after_label (js "NAME" ++ [COLON]) (render f)
  = Some (SPACE :: n' ++ LF ::
            optline (js "CONTACT") (contact f)
              (line (js "PROFESSIONAL SUMMARY") (summary f)
                 (optline (js "SKILLS") (skills f)
                    (optline (js "WORK EXPERIENCE") (experience f)
                       (optline (js "EDUCATION") (education f)
                          (optline (js "LANGUAGES") (languages f) [])))))).
Proof.
  rewrite render_lines.
  apply (@after_label_line_hit (js "NAME" ++ [COLON])). reflexivity.
Qed.

Hypothesis Wn : well_formed n'.

Lemma lookup_contact :
  contact f <> [] ->
  after_label (js "CONTACT" ++ [COLON]) (render f)
  = Some (SPACE :: contact f ++ LF ::
            line (js "PROFESSIONAL SUMMARY") (summary f)
              (optline (js "SKILLS") (skills f)
                 (optline (js "WORK EXPERIENCE") (experience f)
                    (optline (js "EDUCATION") (education f)
                       (optline (js "LANGUAGES") (languages f) []))))).
Proof.
  intros Hc. rewrite render_lines. fold n'.
  pass (js "CONTACT" ++ [COLON]).
  rewrite optline_nonempty by exact Hc.
  apply (@after_label_line_hit (js "CONTACT" ++ [COLON])). reflexivity.
Qed.

Hypothesis Wc : well_formed (contact f).

Lemma lookup_summary :
  after_label (js "SUMMARY" ++ [COLON]) (render f)
  = Some (SPACE :: summary f ++ LF ::
            optline (js "SKILLS") (skills f)
              (optline (js "WORK EXPERIENCE") (experience f)
                 (optline (js "EDUCATION") (education f)
                    (optline (js "LANGUAGES") (languages f) [])))).
Proof.
  rewrite render_lines. fold n'.
  pass (js "SUMMARY" ++ [COLON]).
  pass (js "SUMMARY" ++ [COLON]).
  apply (@after_label_line_hit (js "SUMMARY" ++ [COLON])). reflexivity.
Qed.

Hypothesis Ws : well_formed (summary f).

Lemma lookup_skills :
  skills f <> [] ->
  after_label (js "SKILLS" ++ [COLON]) (render f)
  = Some (SPACE :: skills f ++ LF ::
            optline (js "WORK EXPERIENCE") (experience f)
              (optline (js "EDUCATION") (education f)
                 (optline (js "LANGUAGES") (languages f) []))).
Proof.
  intros Hk. rewrite render_lines. fold n'.
  do 3 pass (js "SKILLS" ++ [COLON]).
  rewrite optline_nonempty by exact Hk.
  apply (@after_label_line_hit (js "SKILLS" ++ [COLON])). reflexivity.
Qed.

Hypothesis Wk : well_formed (skills f).

Lemma lookup_experience :
  experience f <> [] ->
  after_label (js "EXPERIENCE" ++ [COLON]) (render f)
  = Some (SPACE :: experience f ++ LF ::
            optline (js "EDUCATION") (education f)
              (optline (js "LANGUAGES") (languages f) [])).
Proof.
  intros He. rewrite render_lines. fold n'.
  do 4 pass (js "EXPERIENCE" ++ [COLON]).
  rewrite optline_nonempty by exact He.
  apply (@after_label_line_hit (js "EXPERIENCE" ++ [COLON])). reflexivity.
Qed.

Hypothesis We : well_formed (experience f).

Lemma lookup_education :
  education f <> [] ->
  after_label (js "EDUCATION" ++ [COLON]) (render f)
  = Some (SPACE :: education f ++ LF ::
            optline (js "LANGUAGES") (languages f) []).
Proof.
  intros Hd. rewrite render_lines. fold n'.
  do 5 pass (js "EDUCATION" ++ [COLON]).
  rewrite optline_nonempty by exact Hd.
  apply (@after_label_line_hit (js "EDUCATION" ++ [COLON])). reflexivity.
Qed.

End Lookups.

(** ** Six values present *)

Section AllPresent.

Variable f : ExtractedFields.
Hypothesis present : all_present f.
Hypothesis wf : all_well_formed f.

Lemma name_default_unused : orDefault (name f) (js "Applicant") = name f.
Proof.
  destruct present as (Hn & _). unfold orDefault.
  destruct (name f); [congruence | reflexivity].
Qed.

Lemma languages_stop : stops (optline (js "LANGUAGES") (languages f) []).
Proof. apply stops_optline; [reflexivity | apply stops_end]. Qed.

(** What the six lookups return on the text of a record whose six values
    are present and well formed: the name, the summary, the experience and
    the education as they are; the contact with the PROFESSIONAL SUMMARY
    line attached, and the skills with the WORK EXPERIENCE line attached. *)
Lemma sections_all_present :
  getSection (render f) (js "NAME") = name f /\
  getSection (render f) (js "CONTACT")
  = contact f ++ LF :: js "PROFESSIONAL SUMMARY" ++ COLON :: SPACE :: summary f /\
  getSection (render f) (js "SUMMARY") = summary f /\
  getSection (render f) (js "EXPERIENCE") = experience f /\
  getSection (render f) (js "EDUCATION") = education f /\
  getSection (render f) (js "SKILLS")
  = skills f ++ LF :: js "WORK EXPERIENCE" ++ COLON :: SPACE :: experience f.
Proof.
  destruct present as (Hn & Hc & Hs & Hk & He & Hd).
  destruct wf as (Wn & Wc & Ws & Wk & We & Wd).
  assert (Wn' : well_formed (orDefault (name f) (js "Applicant")))
    by (apply wf_orDefault, Wn).
  rewrite !getSection_spec.
  rewrite lookup_name, lookup_contact, lookup_summary, lookup_skills,
    lookup_experience, lookup_education by assumption.
  rewrite name_default_unused.
  rewrite !optline_nonempty by assumption.
  repeat split.
  - apply section_value; try assumption. apply stops_line. reflexivity.
  - apply section_value_swallow; try assumption; try reflexivity.
    apply stops_line. reflexivity.
  - apply section_value; try assumption. apply stops_line. reflexivity.
  - apply section_value; try assumption. apply stops_line. reflexivity.
  - apply section_value; try assumption. apply languages_stop.
  - apply section_value_swallow; try assumption; try reflexivity.
    apply stops_line. reflexivity.
Qed.

End AllPresent.

Lemma fields_with_trailing_space_extracted :
  extract resume_with_trailing_space [] = Ok fields_with_trailing_space.
Proof. vm_compute. reflexivity. Qed.

(** ** The summary is never empty *)

Section Summary.










End Summary.

(** ** A last line that no lookup asks for *)

Section LanguagesLine.

Lemma dropWhile_app_keep (p : char -> bool) (x b : jsstring) :
  dropWhile p x <> [] -> dropWhile p (x ++ b) = dropWhile p x ++ b.
Proof.
  induction x as [|c x IH]; intros H; [exfalso; apply H; reflexivity|].
  cbn [app dropWhile] in *. destruct (p c); [apply IH, H | reflexivity].
Qed.

(** White space at the end of a text does not change what it trims to. *)
Lemma trim_trailing (x b : jsstring) :
  forallb isWhiteSpace b = true -> trim (x ++ b) = trim x.
Proof.
  intros Hb.
  destruct (dropWhile isWhiteSpace x) as [|c d] eqn:D.
  - assert (A : forallb isWhiteSpace x = true) by (apply dropWhile_nil_iff, D).
    assert (E1 : trim (x ++ b) = [])
      by (apply trim_nil_iff; rewrite forallb_app, A, Hb; reflexivity).
    assert (E2 : trim x = []) by (apply trim_nil_iff, A).
    rewrite E1, E2. reflexivity.
  - unfold trim, trimStart, trimEnd.
    rewrite dropWhile_app_keep by (rewrite D; discriminate).
    rewrite rev_app_distr, dropWhile_all_app by (rewrite forallb_rev; exact Hb).
    reflexivity.
Qed.

(** A last line with a one-word label changes the section before it by
    the final line break at most. *)
Lemma until_break_last_line (L v : jsstring) :
  label_ahead (LF :: L ++ [COLON]) = true ->
  forall r,
    until_break (r ++ LF :: line L v []) = until_break (r ++ [LF]) \/
    (until_break (r ++ [LF]) = until_break (r ++ LF :: line L v []) ++ [LF]).
Proof.
  intros H. induction r as [|c r IH].
  - right. cbn [app]. rewrite until_break_label by exact H. reflexivity.
  - change ((c :: r) ++ LF :: line L v []) with (c :: (r ++ LF :: line L v [])).
    change ((c :: r) ++ [LF]) with (c :: (r ++ [LF])).
    cbn [until_break]. unfold is_break.
    change (c :: (r ++ LF :: line L v [])) with ((c :: r) ++ LF :: line L v []).
    change (c :: (r ++ [LF])) with ((c :: r) ++ LF :: []).
    rewrite !label_ahead_value by discriminate.
    cbn [app isEmpty]. rewrite orb_false_r.
    destruct (label_ahead (c :: r)).
    + left. reflexivity.
    + destruct IH as [-> | ->]; [left | right]; reflexivity.
Qed.

Lemma occurs_after_label (P s : jsstring) :
  occurs P s = true -> exists r, after_label P s = Some r.
Proof.
  induction s as [|c s IH]; cbn [occurs after_label]; intros H.
  - rewrite orb_false_r in H. rewrite H. eauto.
  - destruct (prefix_match true P (c :: s)); [eauto|]. apply IH, H.
Qed.

(** One more line at the end of a text, with a one-word label that no
    lookup asks for, is not seen by the lookup. *)
Lemma getSection_extra_line (b L v T : jsstring) :
  sep_free (T ++ [COLON]) SPACE = true ->
  sep_free (T ++ [COLON]) LF = true ->
  occurs (T ++ [COLON]) (L ++ [COLON]) = false ->
  occurs (T ++ [COLON]) v = false ->
  label_ahead (LF :: L ++ [COLON]) = true ->
  getSection ((b ++ [LF]) ++ optional_line L v) T = getSection (b ++ [LF]) T.
Proof.
  intros Fs Fl OL Ov HL.
  unfold optional_line. destruct (isEmpty v); [rewrite app_nil_r; reflexivity|].
  rewrite <- (app_nil_r (L ++ js ": " ++ v ++ [LF])), line_app.
  rewrite <- app_assoc. cbn [app].
  rewrite !getSection_spec.
  destruct (occurs (T ++ [COLON]) b) eqn:Ob.
  - destruct (occurs_after_label _ _ Ob) as (r & Hr).
    rewrite (after_label_app _ _ (LF :: line L v []) Hr).
    rewrite (after_label_app _ _ [LF] Hr).
    destruct (@until_break_last_line L v HL r) as [-> | ->]; [reflexivity|].
    rewrite trim_trailing by reflexivity. reflexivity.
  - rewrite !(after_label_sep _ _ Fl) by exact Ob.
    rewrite (@after_label_line_skip (T ++ [COLON]) Fs Fl) by assumption.
    reflexivity.
Qed.

Lemma render_languages_last (f : ExtractedFields) :
  render f
  = render (without_languages f) ++ optional_line (js "LANGUAGES") (languages f).
Proof.
  unfold render, without_languages.
  cbn [name contact summary skills experience education languages optional_line isEmpty].
  rewrite !app_nil_r, <- !app_assoc. reflexivity.
Qed.

Lemma ends_lf_optional (x L v : jsstring) :
  (exists b, x = b ++ [LF]) -> exists b, x ++ optional_line L v = b ++ [LF].
Proof.
  intros (b & ->). unfold optional_line. destruct (isEmpty v).
  - exists b. apply app_nil_r.
  - exists ((b ++ [LF]) ++ L ++ js ": " ++ v). rewrite <- !app_assoc. reflexivity.
Qed.

Lemma render_ends_lf (f : ExtractedFields) :
  exists b, render (without_languages f) = b ++ [LF].
Proof.
  unfold render, without_languages.
  cbn [name contact summary skills experience education languages].
  change (optional_line (js "LANGUAGES") []) with (@nil char).
  rewrite app_nil_r, !app_assoc.
  do 3 apply ends_lf_optional.
  eexists. reflexivity.
Qed.

End LanguagesLine.

(** ** Labels and line breaks in the resume *)

Section Labels.

(** Where the matcher hands over, the input that is left is a rest of the
    input it was given. *)
Lemma rep_suffix (p : char -> bool) greedy (s : jsstring) :
  forall min max k res,
    rep p greedy min max s k = Some res ->
    exists pre s', s = pre ++ s' /\ k s' = Some res.
Proof.
  induction s as [|c s IH]; intros min max k res H.
  - destruct (rep_success _ _ _ _ _ _ H) as (s' & Hs').
    cbn in H.
    assert (E : match max with Some 0 => None | _ => @None mstate end = None)
      by (destruct max as [[|]|]; reflexivity).
    rewrite E in H. destruct min; [|discriminate].
    exists [], []. split; [reflexivity|].
    destruct greedy; [exact H|]. destruct (k []); [exact H | discriminate].
  - cbn [rep] in H.
    set (more := match max with
                 | Some 0 => None
                 | _ => if p c then rep p greedy (Nat.pred min) (option_map Nat.pred max) s k
                        else None
                 end) in H.
    assert (M : forall r, more = Some r ->
                          exists pre s', c :: s = pre ++ s' /\ k s' = Some r).
    { intros r Hr. unfold more in Hr.
      destruct max as [[|m]|]; try discriminate;
        (destruct (p c); [|discriminate];
         apply IH in Hr; destruct Hr as (pre & s' & -> & Hk);
         exists (c :: pre), s'; split; [reflexivity | exact Hk]). }
    destruct min.
    + destruct greedy.
      * destruct more as [r|] eqn:Em.
        -- injection H as <-. apply M. reflexivity.
        -- exists [], (c :: s). split; [reflexivity | exact H].
      * destruct (k (c :: s)) eqn:K.
        -- injection H as <-. exists [], (c :: s). split; [reflexivity | exact K].
        -- apply M, H.
    + apply M, H.
Qed.

Lemma rmatch_suffix ic (r : regex) :
  forall s cap k res,
    rmatch ic r s cap k = Some res ->
    exists pre s' cap', s = pre ++ s' /\ k s' cap' = Some res.
Proof.
  induction r as [|a|r1 IH1 r2 IH2|r1 IH1 r2 IH2|a min max g|r1 IH1|r1 IH1|r1 IH1|];
    intros s cap k res H; cbn [rmatch] in H.
  - exists [], s, cap. split; [reflexivity | exact H].
  - destruct s as [|c s]; [discriminate|].
    destruct (atom_test ic a c); [|discriminate].
    exists [c], s, cap. split; [reflexivity | exact H].
  - apply IH1 in H. destruct H as (p1 & s1 & cap1 & -> & H).
    apply IH2 in H. destruct H as (p2 & s2 & cap2 & -> & H).
    exists (p1 ++ p2), s2, cap2. split; [apply app_assoc | exact H].
  - destruct (rmatch ic r1 s cap k) eqn:E.
    + injection H as <-. exact (IH1 _ _ _ _ E).
    + exact (IH2 _ _ _ _ H).
  - apply rep_suffix in H. destruct H as (pre & s' & -> & H).
    exists pre, s', cap. split; [reflexivity | exact H].
  - apply IH1 in H. destruct H as (p1 & s1 & cap1 & -> & H).
    eexists p1, s1, _. split; [reflexivity | exact H].
  - exact (IH1 _ _ _ _ H).
  - destruct (rmatch ic r1 s cap (fun s1 cap1 => Some (s1, cap1))) as [[s1 cap1]|];
      [|discriminate].
    exists [], s, cap1. split; [reflexivity | exact H].
  - destruct s; [|discriminate].
    exists [], [], cap. split; [reflexivity | exact H].
Qed.

(** A section pattern ends with the lookahead [(?=\n ...)]: it matches only
    in front of a line break. *)
Lemma section_pattern_line_break ic (A B G C : regex) (s : jsstring) res :
  match_here ic
    (RSeq A (RSeq B (RSeq G (RLookahead (RSeq (RAtom (AChar LF)) C))))) s = Some res ->
  In LF s.
Proof.
  unfold match_here. cbn [rmatch]. intros H.
  apply rmatch_suffix in H. destruct H as (p1 & s1 & cap1 & -> & H).
  apply rmatch_suffix in H. destruct H as (p2 & s2 & cap2 & -> & H).
  apply rmatch_suffix in H. destruct H as (p3 & s3 & cap3 & -> & H).
  destruct s3 as [|c s3]; [discriminate H|].
  destruct (atom_test ic (AChar LF) c) eqn:T; [|discriminate H].
  assert (c = LF).
  { destruct ic; cbn [atom_test] in T.
    - rewrite canon_eqb_nonletter in T by reflexivity.
      apply N.eqb_eq in T. symmetry. exact T.
    - apply N.eqb_eq in T. symmetry. exact T. }
  subst c. rewrite !in_app_iff. right. right. right. left. reflexivity.
Qed.

Lemma exec_section_pattern_line_break ic (A B G C : regex) :
  forall s i m,
    exec_from ic
      (RSeq A (RSeq B (RSeq G (RLookahead (RSeq (RAtom (AChar LF)) C))))) i s = Some m ->
    In LF s.
Proof.
  induction s as [|c s IH]; intros i m H; cbn [exec_from] in H.
  - destruct (match_here ic _ []) as [[s' cap]|] eqn:E; [|discriminate].
    apply section_pattern_line_break in E. exact E.
  - destruct (match_here ic _ (c :: s)) as [[s' cap]|] eqn:E.
    + apply section_pattern_line_break in E. exact E.
    + right. eapply IH, H.
Qed.

(** In a text without a line break no section is found. *)
Lemma no_line_break_no_section (resumeText : jsstring) :
  ~ In LF resumeText ->
  exec true skills_re resumeText = None /\
  exec true education_re resumeText = None /\
  exec true experience_re resumeText = None /\
  exec true languages_re resumeText = None.
Proof.
  intros N. unfold exec.
  repeat split.
  - destruct (exec_from true skills_re 0 resumeText) eqn:E; [|reflexivity].
    exfalso. apply N. exact (exec_section_pattern_line_break _ _ _ _ _ _ _ E).
  - destruct (exec_from true education_re 0 resumeText) eqn:E; [|reflexivity].
    exfalso. apply N. exact (exec_section_pattern_line_break _ _ _ _ _ _ _ E).
  - destruct (exec_from true experience_re 0 resumeText) eqn:E; [|reflexivity].
    exfalso. apply N. exact (exec_section_pattern_line_break _ _ _ _ _ _ _ E).
  - destruct (exec_from true languages_re 0 resumeText) eqn:E; [|reflexivity].
    exfalso. apply N. exact (exec_section_pattern_line_break _ _ _ _ _ _ _ E).
Qed.

Lemma prefix_match_exact (P s : jsstring) :
  prefix_match false P s = startsWith P s.
Proof.
  revert s. induction P as [|a P IH]; intros s; [reflexivity|].
  destruct s as [|c s]; [reflexivity|].
  cbn [prefix_match startsWith atom_test]. rewrite IH. reflexivity.
Qed.

(** The name pattern matches only where the text reads [Name] or [name]. *)
Lemma name_pattern_label (s : jsstring) res :
  match_here false name_re s = Some res ->
  startsWith (js "Name") s = true \/ startsWith (js "name") s = true.
Proof.
  unfold match_here, name_re. cbn [seq alt]. cbn [rmatch]. intros H.
  rewrite !rmatch_lit, !prefix_match_exact in H.
  destruct (startsWith (js "Name") s); [left; reflexivity|].
  destruct (startsWith (js "name") s); [right; reflexivity | discriminate H].
Qed.

Lemma includes_false_startsWith (p s : jsstring) :
  includes p s = false -> startsWith p s = false.
Proof.
  rewrite includes_unfold. intros H. apply orb_false_iff in H. apply H.
Qed.

(** In a text that reads neither [Name] nor [name] anywhere, the name is
    the default. *)
Lemma no_name_label_default (resumeText : jsstring) :
  includes (js "Name") resumeText = false ->
  includes (js "name") resumeText = false ->
  exec false name_re resumeText = None /\ extract_name resumeText = js "Applicant".
Proof.
  intros H1 H2.
  assert (E : exec false name_re resumeText = None).
  { unfold exec. generalize 0.
    induction resumeText as [|c s IH]; intros i; cbn [exec_from].
    - destruct (match_here false name_re []) as [[s' cap]|] eqn:M; [|reflexivity].
      apply name_pattern_label in M.
      rewrite (includes_false_startsWith _ _ H1), (includes_false_startsWith _ _ H2) in M.
      destruct M; discriminate.
    - destruct (match_here false name_re (c :: s)) as [[s' cap]|] eqn:M.
      + apply name_pattern_label in M.
        rewrite (includes_false_startsWith _ _ H1), (includes_false_startsWith _ _ H2) in M.
        destruct M; discriminate.
      + cbn [includes] in H1, H2.
        apply orb_false_iff in H1. apply orb_false_iff in H2.
        apply IH; [apply H1 | apply H2]. }
  split; [exact E|]. unfold extract_name. rewrite E. reflexivity.
Qed.

(** Under the [i] flag a capital and a small [s] match the same
    characters. *)
Lemma capital_s_ic (c : char) :
  atom_test true (AChar (ch "S")) c = atom_test true (AChar (ch "s")) c.
Proof.
  cbn [atom_test]. change (ch "S") with 83%N. change (ch "s") with 115%N.
  unfold canon_eqb, char_eqb, toUpperAscii, toLowerAscii, isUpper, isLower.
  destruct ((97 <=? c) && (c <=? 122))%N eqn:L;
    destruct ((65 <=? c) && (c <=? 90))%N eqn:U;
    repeat match goal with
           | |- context [N.eqb ?x ?y] => destruct (N.eqb_spec x y)
           end; try reflexivity; exfalso;
    rewrite ?andb_true_iff, ?andb_false_iff, ?N.leb_le, ?N.leb_gt in *; lia.
Qed.

(** The skills pattern matches only where the text reads [skills],
    whatever the case. *)
Lemma skills_pattern_label (s : jsstring) res :
  match_here true skills_re s = Some res ->
  prefix_match true (js "skills") s = true.
Proof.
  unfold match_here, skills_re. cbn [seq alt]. cbn [rmatch]. intros H.
  rewrite !rmatch_lit in H.
  assert (E : prefix_match true (js "Skills") s = prefix_match true (js "skills") s).
  { destruct s as [|c s]; [reflexivity|].
    change (js "Skills") with (ch "S" :: js "kills").
    change (js "skills") with (ch "s" :: js "kills").
    cbn [prefix_match]. rewrite capital_s_ic. reflexivity. }
  rewrite E in H.
  destruct (prefix_match true (js "skills") s); [reflexivity | discriminate H].
Qed.

(** A skills section on the last line of a text, after lines that do not
    read [skills], is lost when the text does not end with a line break. *)
Lemma last_line_skills_lost (before v : jsstring) :
  occurs (js "skills") before = false ->
  ~ In LF v ->
  exec true skills_re (before ++ LF :: js "Skills: " ++ v) = None /\
  extract_skills (before ++ LF :: js "Skills: " ++ v) = Ok [].
Proof.
  intros O N.
  assert (T : forall i, exec_from true skills_re i (js "Skills: " ++ v) = None).
  { intros i. destruct (exec_from true skills_re i (js "Skills: " ++ v)) eqn:E;
      [|reflexivity].
    apply exec_section_pattern_line_break in E. exfalso.
    apply in_app_or in E. destruct E as [E|E]; [|exact (N E)].
    vm_compute in E. repeat (destruct E as [E|E]; [discriminate E|]). exact E. }
  assert (E : exec true skills_re (before ++ LF :: js "Skills: " ++ v) = None).
  { unfold exec. generalize 0.
    induction before as [|c b IH]; intros i.
    - change ([] ++ LF :: js "Skills: " ++ v) with (LF :: (js "Skills: " ++ v)).
      cbn [exec_from].
      destruct (match_here true skills_re (LF :: js "Skills: " ++ v)) as [[s' cap]|] eqn:M.
      + apply skills_pattern_label in M. discriminate M.
      + apply T.
    - cbn [occurs] in O. apply orb_false_iff in O. destruct O as [O1 O2].
      change ((c :: b) ++ LF :: js "Skills: " ++ v)
        with (c :: (b ++ LF :: js "Skills: " ++ v)).
      cbn [exec_from].
      destruct (match_here true skills_re (c :: b ++ LF :: js "Skills: " ++ v))
        as [[s' cap]|] eqn:M.
      + apply skills_pattern_label in M.
        change (c :: b ++ LF :: js "Skills: " ++ v)
          with ((c :: b) ++ LF :: js "Skills: " ++ v) in M.
        rewrite (@prefix_match_sep (js "skills") LF eq_refl) in M. congruence.
      + apply IH, O2. }
  split; [exact E|].
  unfold extract_skills, section_raw. rewrite E. reflexivity.
Qed.

End Labels.

(** ** The conditions are needed *)

Section Conditions.

(** The other two conditions on a well-formed value cannot be dropped
    either: a value with an inner line that reads like a label is cut
    there, and a lookup label inside an earlier value is found first; in
    both cases the value occurs nowhere in the document. *)
Lemma well_formed_conditions_needed :
  (all_present fields_with_inner_label /\
   includes (experience fields_with_inner_label)
     (renderHtmlFromAiText (render fields_with_inner_label)) = false /\
   ~ roundtrip_contains fields_with_inner_label) /\
  (all_present fields_with_lookup_label /\
   includes (skills fields_with_lookup_label)
     (renderHtmlFromAiText (render fields_with_lookup_label)) = false /\
   ~ roundtrip_contains fields_with_lookup_label).
Proof.
  assert (A : includes (experience fields_with_inner_label)
                (renderHtmlFromAiText (render fields_with_inner_label)) = false)
    by (vm_compute; reflexivity).
  assert (B : includes (skills fields_with_lookup_label)
                (renderHtmlFromAiText (render fields_with_lookup_label)) = false)
    by (vm_compute; reflexivity).
  split; (split; [repeat split; discriminate|]); (split; [assumption|]); intros H;
    apply roundtrip_contains_in_document in H.
  - destruct H as (_ & _ & _ & E & _). rewrite A in E. discriminate E.
  - destruct H as (_ & _ & _ & _ & _ & E). rewrite B in E. discriminate E.
Qed.

(** Languages that hold a lookup label can reach the page. *)
Lemma languages_condition_needed :
  no_lookup_token (languages fields_with_languages_label) = false /\
  s_skills (sections (render fields_with_languages_label)) = js "none" /\
  renderHtmlFromAiText (render fields_with_languages_label)
  <> renderHtmlFromAiText (render (without_languages fields_with_languages_label)).
Proof.
  repeat split; try (vm_compute; reflexivity).
  vm_compute. discriminate.
Qed.

End Conditions.

(** ** Splitting into pieces *)

Section Pieces.

Lemma match_here_list_sep (s : jsstring) :
  match_here false list_sep_re s
  = match s with
    | c :: s' => if is_list_sep c then Some (s', None) else None
    | [] => None
    end.
Proof.
  destruct s as [|c s]; [reflexivity|].
  unfold match_here, list_sep_re, is_list_sep. cbn [rmatch atom_test existsb xorb item_mem].
  unfold char_eqb.
  rewrite (N.eqb_sym c (ch ",")), (N.eqb_sym c (ch ";")), (N.eqb_sym c LF).
  destruct (N.eqb (ch ",") c); [reflexivity|].
  destruct (N.eqb (ch ";") c); [reflexivity|].
  cbn [orb]. destruct (N.eqb LF c); reflexivity.
Qed.

Lemma split_loop_list_sep :
  forall s acc, split_loop false list_sep_re acc 0 s = pieces is_list_sep acc s.
Proof.
  induction s as [|c s IH]; intros acc; [reflexivity|].
  cbn [split_loop pieces]. rewrite match_here_list_sep.
  destruct (is_list_sep c).
  - replace (length (c :: s) - length s) with 1 by (cbn [length]; lia).
    rewrite IH. reflexivity.
  - apply IH.
Qed.

(** [str.split(/[,;]|\n/)] *)
Lemma split_list_sep (s : jsstring) :
  split false list_sep_re s = pieces is_list_sep [] s.
Proof.
  destruct s as [|c s]; [reflexivity|].
  unfold split. apply split_loop_list_sep.
Qed.

Lemma split_str_loop_char (x : char) :
  forall s acc, split_str_loop [x] acc 0 s = pieces (fun c => N.eqb c x) acc s.
Proof.
  induction s as [|c s IH]; intros acc; [reflexivity|].
  cbn [split_str_loop pieces startsWith length Nat.sub]. unfold char_eqb.
  rewrite andb_true_r, (N.eqb_sym x c).
  destruct (N.eqb c x); rewrite IH; reflexivity.
Qed.

(** [str.split(x)] for a separator of one character. *)
Lemma split_str_char (x : char) (s : jsstring) :
  split_str [x] s = pieces (fun c => N.eqb c x) [] s.
Proof. apply split_str_loop_char. Qed.

Lemma pieces_sep_free (sep : char -> bool) :
  forall s acc,
    forallb (fun c => negb (sep c)) acc = true ->
    Forall (fun p => forallb (fun c => negb (sep c)) p = true) (pieces sep acc s).
Proof.
  induction s as [|c s IH]; intros acc Hacc; cbn [pieces].
  - constructor; [|constructor]. rewrite forallb_rev. exact Hacc.
  - destruct (sep c) eqn:E.
    + constructor; [rewrite forallb_rev; exact Hacc|]. apply IH. reflexivity.
    + apply IH. cbn [forallb]. rewrite E, Hacc. reflexivity.
Qed.

Lemma pieces_nonempty (sep : char -> bool) :
  forall s acc, pieces sep acc s <> [].
Proof.
  induction s as [|c s IH]; intros acc; cbn [pieces]; [discriminate|].
  destruct (sep c); [discriminate | apply IH].
Qed.

(** The first piece of a text that begins with a character that is no
    separator begins with it. *)
Lemma pieces_head (sep : char -> bool) :
  forall s acc, exists p rest, pieces sep acc s = (rev acc ++ p) :: rest.
Proof.
  induction s as [|c s IH]; intros acc; cbn [pieces].
  - exists [], []. rewrite app_nil_r. reflexivity.
  - destruct (sep c).
    + exists [], (pieces sep [] s). rewrite app_nil_r. reflexivity.
    + destruct (IH (c :: acc)) as (p & rest & ->).
      exists (c :: p), rest. cbn [rev]. rewrite <- app_assoc. reflexivity.
Qed.

End Pieces.

(** ** More on trimming *)

Section Trimming.

Lemma forallb_dropWhile (P p : char -> bool) (s : jsstring) :
  forallb P s = true -> forallb P (dropWhile p s) = true.
Proof.
  induction s as [|c s IH]; [trivial|].
  cbn [forallb dropWhile]. intros H. apply andb_true_iff in H. destruct H as [Hc Hs].
  destruct (p c); [apply IH, Hs|]. cbn [forallb]. rewrite Hc, Hs. reflexivity.
Qed.

Lemma forallb_trim (P : char -> bool) (s : jsstring) :
  forallb P s = true -> forallb P (trim s) = true.
Proof.
  intros H. unfold trim, trimEnd, trimStart.
  rewrite forallb_rev. apply forallb_dropWhile. rewrite forallb_rev.
  apply forallb_dropWhile, H.
Qed.

Lemma dropWhile_fixed (p : char -> bool) (s : jsstring) :
  match s with c :: _ => p c = false | [] => True end -> dropWhile p s = s.
Proof.
  destruct s as [|c s]; [reflexivity|]. cbn [dropWhile]. intros ->. reflexivity.
Qed.

Lemma dropWhile_head_false (p : char -> bool) (s : jsstring) :
  match dropWhile p s with c :: _ => p c = false | [] => True end.
Proof.
  induction s as [|c s IH]; [exact I|].
  cbn [dropWhile]. destruct (p c) eqn:E; [exact IH | exact E].
Qed.

Lemma dropWhile_idem (p : char -> bool) (s : jsstring) :
  dropWhile p (dropWhile p s) = dropWhile p s.
Proof. apply dropWhile_fixed, dropWhile_head_false. Qed.

(** What [trim] returns has no white space at its ends. *)
Lemma trim_clean (s : jsstring) :
  starts_clean (trim s) = true /\ ends_clean (trim s) = true.
Proof.
  unfold trim, trimEnd, trimStart, ends_clean.
  rewrite rev_involutive.
  set (y := dropWhile isWhiteSpace s).
  assert (Hy : starts_clean y = true).
  { pose proof (dropWhile_head_false isWhiteSpace s) as H. fold y in H.
    destruct y as [|c y']; [reflexivity|]. cbn [starts_clean]. rewrite H. reflexivity. }
  assert (Hz : starts_clean (dropWhile isWhiteSpace (rev y)) = true).
  { pose proof (dropWhile_head_false isWhiteSpace (rev y)) as H.
    destruct (dropWhile isWhiteSpace (rev y)) as [|c z]; [reflexivity|].
    cbn [starts_clean]. rewrite H. reflexivity. }
  split; [|exact Hz].
  destruct (dropWhile isWhiteSpace (rev y)) as [|c z] eqn:E; [reflexivity|].
  (* the trimmed text is not empty: it starts as [y] does *)
  destruct y as [|a y']; [discriminate E|].
  assert (P : exists w, rev (c :: z) = a :: w).
  { assert (Q : exists pre, rev (a :: y') = pre ++ c :: z).
    { clear Hy Hz. revert E. generalize (rev (a :: y')). intros l.
      induction l as [|x l IH]; cbn [dropWhile]; [discriminate|].
      destruct (isWhiteSpace x).
      - intros E. destruct (IH E) as (pre & ->). exists (x :: pre). reflexivity.
      - intros E. exists []. exact E. }
    destruct Q as (pre & Q).
    apply (f_equal (@rev char)) in Q. rewrite rev_involutive, rev_app_distr in Q.
    destruct (rev (c :: z)) as [|b w] eqn:R.
    - apply (f_equal (@length char)) in R. rewrite length_rev in R. discriminate R.
    - cbn [app] in Q. injection Q as <- _. exists w. reflexivity. }
  destruct P as (w & ->). exact Hy.
Qed.

Lemma clean_trim_fixed (v : jsstring) :
  starts_clean v = true -> ends_clean v = true -> trim v = v.
Proof.
  intros Hs He. unfold trim, trimEnd, trimStart.
  rewrite (dropWhile_clean v Hs).
  unfold ends_clean in He. rewrite (dropWhile_clean (rev v) He).
  apply rev_involutive.
Qed.

(** [s.trim().trim()] is [s.trim()]. *)
Lemma trim_idem (s : jsstring) : trim (trim s) = trim s.
Proof.
  destruct (trim_clean s) as [Hs He]. apply clean_trim_fixed; assumption.
Qed.

End Trimming.

(** ** Lists of entries *)

Section Entries.

Variable A : Type.

Lemma Forall_firstn (P : A -> Prop) (n : nat) :
  forall l, Forall P l -> Forall P (firstn n l).
Proof.
  induction n as [|n IH]; intros l H; [constructor|].
  destruct H as [|x l Hx Hl]; cbn [firstn]; constructor; [exact Hx | apply IH, Hl].
Qed.

Lemma Forall_filter_keep (P : A -> Prop) (f : A -> bool) :
  forall l, Forall P l -> Forall (fun x => P x /\ f x = true) (filter f l).
Proof.
  induction l as [|x l IH]; intros H; [constructor|].
  inversion H as [|? ? Hx Hl]; subst. cbn [filter].
  destruct (f x) eqn:E; [constructor; [split; assumption|]|]; apply IH, Hl.
Qed.

Lemma firstn_length_bound (n : nat) (l : list A) : length (firstn n l) <= n.
Proof. rewrite length_firstn. lia. Qed.

End Entries.

(** The entries of a list field: split at the separators, trimmed, the
    empty ones dropped. *)
Lemma list_entries_shape (raw : jsstring) :
  Forall (fun e => e <> [] /\ trim e = e /\
                   forallb (fun c => negb (is_list_sep c)) e = true)
         (filter nonEmpty (map trim (split false list_sep_re raw))).
Proof.
  rewrite split_list_sep.
  assert (H : Forall (fun e => trim e = e /\
                               forallb (fun c => negb (is_list_sep c)) e = true)
                     (map trim (pieces is_list_sep [] raw))).
  { apply Forall_map.
    eapply Forall_impl; [|apply (pieces_sep_free is_list_sep raw []); reflexivity].
    intros p Hp. split; [apply trim_idem | apply forallb_trim, Hp]. }
  eapply Forall_impl; [|apply (Forall_filter_keep nonEmpty H)].
  intros e [[Ht Hs] Hn]. split; [|split; assumption].
  intros ->. discriminate Hn.
Qed.

(** ** The section patterns of [improveResume] *)

Section SectionPattern.

Lemma letter_not_space (x : char) :
  (65 <= x)%N -> (x <= 122)%N -> isWhiteSpace x = false.
Proof.
  intros Lo Hi. unfold isWhiteSpace.
  replace (x <=? 13)%N with false by (symmetry; apply N.leb_gt; lia).
  replace (8192 <=? x)%N with false by (symmetry; apply N.leb_gt; lia).
  repeat match goal with
         | |- context [N.eqb x ?k] =>
             replace (N.eqb x k) with false by (symmetry; apply N.eqb_neq; lia)
         end.
  rewrite andb_false_r. reflexivity.
Qed.

Lemma ws_colon_test (c : char) : atom_test true ws_colon c = is_ws_colon c.
Proof.
  unfold ws_colon, is_ws_colon. cbn [atom_test existsb xorb]. rewrite orb_false_r.
  change (item_mem_ic (One (ch ":")) c) with (canon_eqb (ch ":") c).
  rewrite canon_eqb_nonletter by reflexivity. rewrite (N.eqb_sym (ch ":") c).
  change (ch ":") with COLON.
  unfold item_mem_ic. cbn [item_mem].
  destruct (isWhiteSpace c) eqn:W; [reflexivity|]. cbn [orb].
  assert (U : isWhiteSpace (toUpperAscii c) = false).
  { unfold toUpperAscii, isLower.
    destruct ((97 <=? c) && (c <=? 122))%N eqn:L; [|exact W].
    rewrite andb_true_iff, !N.leb_le in L. apply letter_not_space; lia. }
  assert (Lw : isWhiteSpace (toLowerAscii c) = false).
  { unfold toLowerAscii, isUpper.
    destruct ((65 <=? c) && (c <=? 90))%N eqn:L; [|exact W].
    rewrite andb_true_iff, !N.leb_le in L. apply letter_not_space; lia. }
  rewrite U, Lw. reflexivity.
Qed.

Lemma dropWhile_ext (p q : char -> bool) :
  (forall c, p c = q c) -> forall s, dropWhile p s = dropWhile q s.
Proof.
  intros H. induction s as [|c s IH]; [reflexivity|].
  cbn [dropWhile]. rewrite H, IH. reflexivity.
Qed.

Lemma scan_none_tail stop (c : char) (s : jsstring) :
  scan stop (c :: s) = None -> scan stop s = None.
Proof.
  cbn [scan]. destruct (stop (c :: s)); [discriminate|].
  destruct (scan stop s) as [[pre rest]|]; [discriminate | reflexivity].
Qed.

Lemma scan_none_suffix stop :
  forall x y, scan stop (x ++ y) = None -> scan stop y = None.
Proof.
  induction x as [|c x IH]; intros y H; [exact H|].
  apply IH. apply (scan_none_tail _ _ _ H).
Qed.

Lemma dropWhile_suffix (p : char -> bool) :
  forall s, exists x, s = x ++ dropWhile p s.
Proof.
  induction s as [|c s IH]; [exists []; reflexivity|].
  cbn [dropWhile]. destruct (p c).
  - destruct IH as (x & IH). exists (c :: x). cbn [app]. rewrite <- IH. reflexivity.
  - exists []. reflexivity.
Qed.

Variable labels : list jsstring.

Lemma alt_labels_end :
  forall (s : jsstring) (cap : option jsstring),
    match rmatch true (alt (map lit labels ++ [REnd])) s cap
            (fun s1 cap1 => Some (s1, cap1)) with
    | Some (_, cap') =>
        existsb (fun L => prefix_match true L s) labels || isEmpty s = true /\ cap' = cap
    | None => existsb (fun L => prefix_match true L s) labels || isEmpty s = false
    end.
Proof.
  induction labels as [|L ls IH]; intros s cap.
  - cbn [map app alt rmatch existsb orb]. destruct s; [split|]; reflexivity.
  - cbn [map app existsb].
    destruct (map lit ls ++ [REnd]) as [|y l'] eqn:E.
    { exfalso. destruct (map lit ls); discriminate E. }
    cbn [alt]. cbn [rmatch]. rewrite rmatch_lit.
    destruct (prefix_match true L s); [split; reflexivity|].
    cbn [orb]. change (match l' with [] => y | _ :: _ => RAlt y (alt l') end)
      with (alt (y :: l')).
    apply IH.
Qed.

Lemma lookahead_stop (s : jsstring) (cap : option jsstring) (k : cont) :
  rmatch true
    (RLookahead (RSeq (RAtom (AChar LF)) (RNonCap (alt (map lit labels ++ [REnd])))))
    s cap k
  = if section_stop labels s then k s cap else None.
Proof.
  cbn [rmatch]. destruct s as [|c s]; [reflexivity|].
  rewrite lf_test. cbn [section_stop].
  destruct (N.eqb c LF); [|reflexivity]. cbn [andb].
  pose proof (alt_labels_end s cap) as A.
  destruct (rmatch true (alt (map lit labels ++ [REnd])) s cap
              (fun s1 cap1 => Some (s1, cap1))) as [[s1 cap1]|].
  - destruct A as [-> ->]. reflexivity.
  - rewrite A. reflexivity.
Qed.

(** The greedy [[\s:]*] in front of it: the group starts after the white
    space and colons when a stop follows them; otherwise it is empty, or the
    pattern does not match here because no stop follows at all. *)
Lemma greedy_then_scan (p : char -> bool) (stop : jsstring -> bool) :
  forall s,
    match rep p true 0 None s
            (fun s2 => match scan stop s2 with
                       | Some (pre, rest) => Some (rest, Some pre)
                       | None => None
                       end) with
    | Some (rest, g) =>
        match scan stop (dropWhile p s) with
        | Some (pre, rest') => g = Some pre /\ rest = rest'
        | None => g = Some []
        end
    | None => scan stop s = None
    end.
Proof.
  induction s as [|c s IH].
  - cbn [rep dropWhile]. destruct (scan stop []) as [[pre rest]|]; [split|]; reflexivity.
  - cbn [rep Nat.pred option_map dropWhile].
    destruct (p c) eqn:E.
    + destruct (rep p true 0 None s _) as [[rest g]|] eqn:R.
      * exact IH.
      * (* no stop in [s]: a stop can only be at [c] itself *)
        destruct (scan stop (c :: s)) as [[pre rest]|] eqn:Sc.
        -- assert (D : scan stop (dropWhile p s) = None).
           { destruct (dropWhile_suffix p s) as (x & Hx).
             apply (scan_none_suffix stop x). rewrite <- Hx. exact IH. }
           rewrite D. cbn [scan] in Sc.
           destruct (stop (c :: s)).
           ++ injection Sc as <- _. reflexivity.
           ++ rewrite IH in Sc. discriminate Sc.
        -- reflexivity.
    + destruct (scan stop (c :: s)) as [[pre rest]|]; [split|]; reflexivity.
Qed.

End SectionPattern.

(** ** Labeled patterns: a label, [[\s:]*], a lazy group and a lookahead *)

Section LabeledPattern.

Variable A : regex.                          (* the label *)
Variable lab : jsstring -> option jsstring.  (* where it is read *)
Variable LA : regex.                         (* the lookahead *)
Variable stop : jsstring -> bool.            (* where it holds *)

Hypothesis label_read :
  forall s cap (k : cont),
    rmatch true A s cap k = match lab s with Some r => k r cap | None => None end.
Hypothesis label_rest : forall s r, lab s = Some r -> exists x, s = x ++ r.
Hypothesis label_no_stop :
  forall s r, lab s = Some r -> scan stop r = None -> scan stop s = None.
Hypothesis lookahead_read :
  forall s cap (k : cont),
    rmatch true LA s cap k = if stop s then k s cap else None.

(** The end of the pattern: the group is the text up to the first stop. *)
Lemma labeled_tail (s2 : jsstring) (cap1 : option jsstring) :
  rmatch true (RSeq (RGroup (star_lazy any)) LA) s2 cap1 (fun s c => Some (s, c))
  = match scan stop s2 with
    | Some (pre, rest) => Some (rest, Some pre)
    | None => None
    end.
Proof.
  cbn [rmatch star_lazy].
  rewrite (rep_ext _ _ _
             (fun s3 => if stop s3
                        then Some ((fun r => (r, Some (firstn (length s2 - length r) s2))) s3)
                        else None)).
  2:{ intros s3. rewrite lookahead_read. reflexivity. }
  rewrite rep_lazy_all by (apply any_all).
  destruct (scan stop s2) as [[pre rest]|] eqn:Sc; [|reflexivity].
  rewrite (scan_app _ _ Sc), firstn_split_length. reflexivity.
Qed.

Lemma match_here_labeled (s : jsstring) :
  match_here true (seq [A; star ws_colon; RGroup (star_lazy any); LA]) s
  = match lab s with
    | Some r =>
        rep (atom_test true ws_colon) true 0 None r
          (fun s2 => match scan stop s2 with
                     | Some (pre, rest) => Some (rest, Some pre)
                     | None => None
                     end)
    | None => None
    end.
Proof.
  unfold match_here. cbn [seq].
  remember (RSeq (RGroup (star_lazy any)) LA) as T eqn:ET.
  cbn [rmatch star]. rewrite label_read.
  destruct (lab s) as [r|]; [|reflexivity].
  apply rep_ext. intros s2. rewrite ET. apply labeled_tail.
Qed.

Lemma no_stop_no_match :
  forall s i, scan stop s = None ->
              exec_from true (seq [A; star ws_colon; RGroup (star_lazy any); LA]) i s = None.
Proof.
  assert (M : forall s, scan stop s = None ->
                match_here true (seq [A; star ws_colon; RGroup (star_lazy any); LA]) s = None).
  { intros s H. rewrite match_here_labeled.
    destruct (lab s) as [r|] eqn:L; [|reflexivity].
    destruct (rep _ _ _ _ _ _) as [[rest g]|] eqn:R; [|reflexivity].
    exfalso. apply rep_suffix in R. destruct R as (pre & s' & E & K).
    destruct (label_rest L) as (x & Hx).
    assert (S' : scan stop s' = None).
    { apply (scan_none_suffix _ pre). rewrite <- E.
      apply (scan_none_suffix _ x). rewrite <- Hx. exact H. }
    rewrite S' in K. discriminate K. }
  induction s as [|c s IH]; intros i H; cbn [exec_from]; rewrite (M _ H);
    [reflexivity|].
  apply IH. apply (scan_none_tail _ _ _ H).
Qed.

(** The group of the first match is the raw text. *)
Lemma exec_raw_labeled :
  forall t i,
    match exec_from true (seq [A; star ws_colon; RGroup (star_lazy any); LA]) i t with
    | Some m => m1 m = Some (raw_labeled lab stop t)
    | None => raw_labeled lab stop t = []
    end.
Proof.
  assert (Hit : forall t i r,
             lab t = Some r ->
             match exec_from true (seq [A; star ws_colon; RGroup (star_lazy any); LA]) i t with
             | Some m => m1 m = Some (raw_labeled lab stop t)
             | None => raw_labeled lab stop t = []
             end).
  { intros t i r P.
    assert (R0 : raw_labeled lab stop t
                 = match scan stop (dropWhile is_ws_colon r) with
                   | Some (pre, _) => pre
                   | None => []
                   end).
    { unfold raw_labeled. destruct t; cbn [first_label]; rewrite P; reflexivity. }
    pose proof (greedy_then_scan (atom_test true ws_colon) stop r) as G.
    rewrite (dropWhile_ext _ _ ws_colon_test) in G.
    assert (M : match_here true (seq [A; star ws_colon; RGroup (star_lazy any); LA]) t
                = rep (atom_test true ws_colon) true 0 None r
                    (fun s2 => match scan stop s2 with
                               | Some (pre, rest) => Some (rest, Some pre)
                               | None => None
                               end)).
    { rewrite match_here_labeled, P. reflexivity. }
    destruct (rep _ _ _ _ _ _) as [[rest g]|] eqn:R.
    - assert (E : exec_from true (seq [A; star ws_colon; RGroup (star_lazy any); LA]) i t
                  = Some {| index := i; m0 := firstn (length t - length rest) t;
                            m1 := g; after := rest |}).
      { destruct t; cbn [exec_from]; rewrite M; reflexivity. }
      rewrite E. cbn [m1]. rewrite R0.
      destruct (scan stop (dropWhile is_ws_colon r))
        as [[pre rest']|]; [destruct G as [-> _]; reflexivity | exact G].
    - assert (S0 : scan stop t = None) by (apply (label_no_stop P G)).
      rewrite (no_stop_no_match t i S0). rewrite R0.
      destruct (dropWhile_suffix is_ws_colon r) as (x & Hx).
      rewrite Hx in G. rewrite (scan_none_suffix _ _ _ G). reflexivity. }
  induction t as [|c t IH]; intros i.
  - destruct (lab []) as [r|] eqn:P; [apply (Hit _ _ _ P)|].
    cbn [exec_from]. rewrite match_here_labeled, P.
    unfold raw_labeled. cbn [first_label]. rewrite P. reflexivity.
  - destruct (lab (c :: t)) as [r|] eqn:P; [apply (Hit _ _ _ P)|].
    cbn [exec_from]. rewrite match_here_labeled, P.
    unfold raw_labeled. cbn [first_label]. rewrite P.
    apply IH.
Qed.

End LabeledPattern.

(** ** Labels that are words *)

Section Words.

(** No line break is read inside a word. *)
Lemma scan_past_word (stop : jsstring -> bool) :
  (forall s, stop s = true -> head_lf s = true) ->
  forall (P s : jsstring),
    sep_free P LF = true -> prefix_match true P s = true ->
    scan stop (skipn (length P) s) = None ->
    scan stop s = None.
Proof.
  intros Hstop.
  induction P as [|a P IH]; intros s F M H; [exact H|].
  destruct s as [|c s]; [discriminate M|].
  cbn [prefix_match] in M. apply andb_true_iff in M. destruct M as [Mc Ms].
  cbn [sep_free forallb] in F. apply andb_true_iff in F. destruct F as [Fa FP].
  cbn [length skipn] in H.
  cbn [scan].
  assert (N : stop (c :: s) = false).
  { destruct (stop (c :: s)) eqn:St; [|reflexivity].
    apply Hstop in St. cbn [head_lf] in St. apply N.eqb_eq in St. subst c.
    rewrite Mc in Fa. discriminate Fa. }
  rewrite N.
  rewrite (IH s FP Ms H). reflexivity.
Qed.

Lemma word_here_rest (word s r : jsstring) :
  word_here word s = Some r -> exists x, s = x ++ r.
Proof.
  unfold word_here. destruct (prefix_match true word s); [|discriminate].
  intros H. injection H as <-. exists (firstn (length word) s).
  symmetry. apply firstn_skipn.
Qed.

Lemma word_here_no_stop (stop : jsstring -> bool) (word s r : jsstring) :
  (forall s, stop s = true -> head_lf s = true) ->
  sep_free word LF = true ->
  word_here word s = Some r -> scan stop r = None -> scan stop s = None.
Proof.
  intros Hstop F. unfold word_here.
  destruct (prefix_match true word s) eqn:P; [|discriminate].
  intros H. injection H as <-. apply (scan_past_word stop Hstop word s F P).
Qed.

Lemma section_stop_lf (labels : list jsstring) (s : jsstring) :
  section_stop labels s = true -> head_lf s = true.
Proof.
  destruct s as [|c s]; [discriminate|]. cbn [section_stop head_lf].
  destruct (N.eqb c LF); [reflexivity | discriminate].
Qed.

Lemma first_label_word (word : jsstring) :
  forall t, first_label (word_here word) t = after_label word t.
Proof.
  induction t as [|c t IH]; cbn [first_label after_label]; unfold word_here;
    destruct (prefix_match true word _); try reflexivity.
  exact IH.
Qed.

Variable labels : list jsstring.
Variable Cap word : jsstring.
Hypothesis same_label : forall s, prefix_match true Cap s = prefix_match true word s.
Hypothesis same_length : length Cap = length word.
Hypothesis word_no_lf : sep_free word LF = true.

Lemma capital_or_small (s : jsstring) (cap : option jsstring) (k : cont) :
  rmatch true (RNonCap (alt [lit Cap; lit word])) s cap k
  = match word_here word s with Some r => k r cap | None => None end.
Proof.
  cbn [rmatch alt]. rewrite !rmatch_lit, same_label, same_length. unfold word_here.
  destruct (prefix_match true word s); [|reflexivity].
  destruct (k _ cap); reflexivity.
Qed.

(** [m ? m[1] : ''] for a section pattern. *)
Lemma section_raw_text (t : jsstring) :
  section_raw (section_pattern Cap word labels) t
  = Ok (raw_section word labels t).
Proof.
  unfold section_raw, exec, raw_section, section_pattern.
  pose proof (@exec_raw_labeled
                (RNonCap (alt [lit Cap; lit word])) (word_here word)
                (RLookahead (RSeq (RAtom (AChar LF)) (RNonCap (alt (map lit labels ++ [REnd])))))
                (section_stop labels)
                capital_or_small
                (@word_here_rest word)
                (fun s r => @word_here_no_stop (section_stop labels) word s r
                              (section_stop_lf labels) word_no_lf)
                (lookahead_stop labels)
                t 0) as H.
  destruct (exec_from true _ 0 t) as [m|].
  - unfold group1. rewrite H. reflexivity.
  - rewrite H. reflexivity.
Qed.

End Words.

(** ** The four sections *)

Section FourSections.

(** Under the [i] flag a capital letter and its small form match the same
    characters. *)
Lemma capital_ic (a c : char) :
  isUpper a = true ->
  atom_test true (AChar a) c = atom_test true (AChar (toLowerAscii a)) c.
Proof.
  cbn [atom_test].
  unfold canon_eqb, char_eqb, toUpperAscii, toLowerAscii, isUpper, isLower.
  intros A. rewrite A. rewrite andb_true_iff, !N.leb_le in A.
  destruct ((97 <=? c) && (c <=? 122))%N eqn:L;
    destruct ((65 <=? c) && (c <=? 90))%N eqn:U;
    repeat match goal with
           | |- context [N.eqb ?x ?y] => destruct (N.eqb_spec x y)
           end; try reflexivity; exfalso;
    rewrite ?andb_true_iff, ?andb_false_iff, ?N.leb_le, ?N.leb_gt in *; lia.
Qed.

Lemma capital_word (a : char) (w s : jsstring) :
  isUpper a = true ->
  prefix_match true (a :: w) s = prefix_match true (toLowerAscii a :: w) s.
Proof.
  intros A. destruct s as [|c s]; [reflexivity|].
  cbn [prefix_match]. rewrite (@capital_ic a c A). reflexivity.
Qed.

Lemma skills_raw (t : jsstring) :
  section_raw skills_re t = Ok (raw_section (js "skills") skills_stops t).
Proof.
  apply (@section_raw_text skills_stops (js "Skills") (js "skills")).
  - intros s. apply (@capital_word (ch "S") (js "kills")). reflexivity.
  - reflexivity.
  - reflexivity.
Qed.

Lemma education_raw (t : jsstring) :
  section_raw education_re t
  = Ok (raw_section (js "education") education_stops t).
Proof.
  apply (@section_raw_text education_stops (js "Education") (js "education")).
  - intros s. apply (@capital_word (ch "E") (js "ducation")). reflexivity.
  - reflexivity.
  - reflexivity.
Qed.

Lemma experience_raw (t : jsstring) :
  section_raw experience_re t
  = Ok (raw_section (js "experience") experience_stops t).
Proof.
  apply (@section_raw_text experience_stops (js "Experience") (js "experience")).
  - intros s. apply (@capital_word (ch "E") (js "xperience")). reflexivity.
  - reflexivity.
  - reflexivity.
Qed.

Lemma languages_raw (t : jsstring) :
  section_raw languages_re t
  = Ok (raw_section (js "languages") languages_stops t).
Proof.
  apply (@section_raw_text languages_stops (js "Languages") (js "languages")).
  - intros s. apply (@capital_word (ch "L") (js "anguages")). reflexivity.
  - reflexivity.
  - reflexivity.
Qed.

End FourSections.

(** ** The objective pattern *)

Section ObjectivePattern.

Lemma initial_o_s (c : char) :
  atom_test true (AChar (ch "o")) c = true -> atom_test true (AChar (ch "s")) c = false.
Proof.
  cbn [atom_test]. change (ch "o") with 111%N. change (ch "s") with 115%N.
  unfold canon_eqb, char_eqb, toUpperAscii, toLowerAscii, isUpper, isLower.
  destruct ((97 <=? c) && (c <=? 122))%N eqn:L;
    destruct ((65 <=? c) && (c <=? 90))%N eqn:U;
    repeat match goal with
           | |- context [N.eqb ?x ?y] => destruct (N.eqb_spec x y)
           end; try reflexivity; try discriminate; intros _; exfalso;
    rewrite ?andb_true_iff, ?andb_false_iff, ?N.leb_le, ?N.leb_gt in *; lia.
Qed.

Lemma objective_label (s : jsstring) (cap : option jsstring) (k : cont) :
  rmatch true
    (RNonCap (alt [lit (js "Objective"); lit (js "objective");
                   lit (js "Summary"); lit (js "summary")])) s cap k
  = match objective_here s with Some r => k r cap | None => None end.
Proof.
  cbn [rmatch alt]. rewrite !rmatch_lit.
  assert (EO : prefix_match true (js "Objective") s = prefix_match true (js "objective") s)
    by (apply (@capital_word (ch "O") (js "bjective") s eq_refl)).
  assert (ES : prefix_match true (js "Summary") s = prefix_match true (js "summary") s)
    by (apply (@capital_word (ch "S") (js "ummary") s eq_refl)).
  rewrite EO, ES.
  change (length (js "Objective")) with (length (js "objective")).
  change (length (js "Summary")) with (length (js "summary")).
  unfold objective_here, word_here.
  destruct (prefix_match true (js "objective") s) eqn:O.
  - assert (S : prefix_match true (js "summary") s = false).
    { destruct s as [|c s]; [discriminate O|].
      change (js "objective") with (ch "o" :: js "bjective") in O.
      change (js "summary") with (ch "s" :: js "ummary").
      cbn [prefix_match] in O |- *. apply andb_true_iff in O. destruct O as [O _].
      rewrite (initial_o_s c O). reflexivity. }
    rewrite S. destruct (k _ cap); reflexivity.
  - destruct (prefix_match true (js "summary") s); [|reflexivity].
    destruct (k _ cap); reflexivity.
Qed.

Lemma objective_here_rest (s r : jsstring) :
  objective_here s = Some r -> exists x, s = x ++ r.
Proof.
  unfold objective_here.
  destruct (word_here (js "objective") s) as [r1|] eqn:O.
  - intros H. injection H as <-. apply (word_here_rest _ _ O).
  - apply word_here_rest.
Qed.

Lemma objective_here_no_stop (s r : jsstring) :
  objective_here s = Some r -> scan head_lf r = None -> scan head_lf s = None.
Proof.
  unfold objective_here.
  destruct (word_here (js "objective") s) as [r1|] eqn:O.
  - intros H. injection H as <-.
    apply (@word_here_no_stop head_lf (js "objective") s r1 (fun _ H => H) eq_refl O).
  - apply (@word_here_no_stop head_lf (js "summary") s r (fun _ H => H) eq_refl).
Qed.

Lemma lookahead_lf (s : jsstring) (cap : option jsstring) (k : cont) :
  rmatch true (RLookahead (RAtom (AChar LF))) s cap k
  = if head_lf s then k s cap else None.
Proof.
  cbn [rmatch]. destruct s as [|c s]; [reflexivity|].
  rewrite lf_test. cbn [head_lf]. destruct (N.eqb c LF); reflexivity.
Qed.

(** The group of the first match of the objective pattern. *)
Lemma objective_raw (t : jsstring) :
  match exec true objective_re t with
  | Some m => m1 m = Some (objective_text t)
  | None => objective_text t = []
  end.
Proof.
  apply (@exec_raw_labeled _ objective_here _ head_lf
           objective_label objective_here_rest objective_here_no_stop lookahead_lf t 0).
Qed.

(** Lines 130-141 on the text. *)
Lemma extract_summary_text (t targetRole : jsstring) :
  extract_summary t targetRole
  = Ok (with_career_goal targetRole
          (if 5 <? length (objective_text t) then trim (objective_text t)
           else default_summary targetRole)).
Proof.
  unfold extract_summary, with_career_goal.
  pose proof (objective_raw t) as H.
  destruct (exec true objective_re t) as [m|].
  - unfold group1. rewrite H. reflexivity.
  - rewrite H. reflexivity.
Qed.

End ObjectivePattern.

(** ** The blocks of the experience section *)

Section EntryBlocks.

Lemma match_here_entry_start (s : jsstring) :
  match_here false entry_start_re s
  = match s with
    | c :: s' =>
        if N.eqb c LF && match s' with d :: _ => isUpper d | [] => false end
        then Some (s', None) else None
    | [] => None
    end.
Proof.
  destruct s as [|c s]; [reflexivity|].
  unfold match_here, entry_start_re. cbn [rmatch atom_test]. unfold char_eqb.
  rewrite (N.eqb_sym LF c). destruct (N.eqb c LF); [|reflexivity].
  destruct s as [|d s]; [reflexivity|].
  cbn [existsb xorb item_mem andb]. rewrite orb_false_r.
  change (ch "A") with 65%N. change (ch "Z") with 90%N. unfold isUpper.
  destruct ((65 <=? d) && (d <=? 90))%N; reflexivity.
Qed.

Lemma split_loop_entry_start :
  forall s acc, split_loop false entry_start_re acc 0 s = entry_blocks acc s.
Proof.
  induction s as [|c s IH]; intros acc; [reflexivity|].
  cbn [split_loop entry_blocks]. rewrite match_here_entry_start.
  destruct (N.eqb c LF && match s with d :: _ => isUpper d | [] => false end).
  - replace (length (c :: s) - length s) with 1 by (cbn [length]; lia).
    rewrite IH. reflexivity.
  - apply IH.
Qed.

(** [str.split(/\n(?=[A-Z])/g)] *)
Lemma split_entry_start (s : jsstring) :
  split false entry_start_re s = entry_blocks [] s.
Proof.
  destruct s as [|c s]; [reflexivity|].
  unfold split. apply split_loop_entry_start.
Qed.

End EntryBlocks.

(** ** Joining lists of lines *)

Section Joining.

Lemma join_cons (sep x : jsstring) (l : list jsstring) :
  l <> [] -> join sep (x :: l) = x ++ sep ++ join sep l.
Proof. destruct l; [congruence | reflexivity]. Qed.

Lemma join_app (sep : jsstring) :
  forall a b : list jsstring,
    a <> [] -> b <> [] -> join sep (a ++ b) = join sep a ++ sep ++ join sep b.
Proof.
  induction a as [|x a IH]; intros b Ha Hb; [congruence|].
  destruct a as [|y a].
  - cbn [app]. rewrite join_cons by exact Hb. reflexivity.
  - change ((x :: y :: a) ++ b) with (x :: ((y :: a) ++ b)).
    rewrite join_cons by discriminate.
    rewrite IH by (discriminate || exact Hb).
    rewrite (join_cons sep x (l := y :: a)) by discriminate.
    rewrite <- !app_assoc. reflexivity.
Qed.

(** Joining joined groups is joining all their members, when no group is
    empty. *)
Lemma join_groups (sep : jsstring) :
  forall groups : list (list jsstring),
    Forall (fun g => g <> []) groups ->
    join sep (map (join sep) groups) = join sep (concat groups).
Proof.
  induction groups as [|g gs IH]; intros H; [reflexivity|].
  inversion H as [|? ? Hg Hgs]; subst.
  destruct gs as [|g2 gs].
  - cbn [map join concat]. rewrite app_nil_r. reflexivity.
  - change (map (join sep) (g :: g2 :: gs))
      with (join sep g :: map (join sep) (g2 :: gs)).
    rewrite join_cons by discriminate.
    rewrite IH by exact Hgs.
    change (concat (g :: g2 :: gs)) with (g ++ concat (g2 :: gs)).
    rewrite join_app; [reflexivity | exact Hg |].
    inversion Hgs as [|? ? Hg2 _]; subst.
    cbn [concat]. destruct g2; [congruence | discriminate].
Qed.

Lemma startsWith_join (p sep x : jsstring) (l : list jsstring) :
  startsWith p x = true -> startsWith p (join sep (x :: l)) = true.
Proof.
  intros H. destruct l as [|y l]; [exact H|].
  rewrite join_cons by discriminate. apply startsWith_extend, H.
Qed.

End Joining.

(** ** The lines of an experience entry *)

Section EntryLines.

Lemma format_entry_lines (exp : jsstring) :
  format_entry exp = join [LF] (mapi entry_line_of (split_str [LF] (trim exp))).
Proof. reflexivity. Qed.

Lemma entry_line_of_shape (line : jsstring) (idx : nat) :
  forallb (fun c => negb (N.eqb c LF)) line = true ->
  entry_line (entry_line_of line idx).
Proof.
  intros H. unfold entry_line_of, entry_line.
  destruct (Nat.eqb idx 0 && nonEmpty line).
  - split; [left; reflexivity|].
    unfold bullet_prefix. cbn [app forallb]. rewrite H. reflexivity.
  - destruct (startsWith [BULLET] line) eqn:B.
    + split; [left; exact B | exact H].
    + split; [right; reflexivity|].
      change (js "  - " ++ line) with (SPACE :: SPACE :: ch "-" :: SPACE :: line).
      cbn [forallb]. rewrite H. reflexivity.
Qed.

Lemma mapi_from_shape (P : jsstring -> Prop) (Q : jsstring -> Prop)
    (f : jsstring -> nat -> jsstring) :
  (forall x i, P x -> Q (f x i)) ->
  forall l i, Forall P l -> Forall Q (mapi_from i f l).
Proof.
  intros H. induction l as [|x l IH]; intros i Hl; [constructor|].
  inversion Hl; subst. cbn [mapi_from]. constructor; [apply H; assumption | apply IH; assumption].
Qed.

Lemma mapi_from_nonempty (f : jsstring -> nat -> jsstring) (l : list jsstring) i :
  l <> [] -> mapi_from i f l <> [].
Proof. destruct l; [congruence | discriminate]. Qed.

(** Every line of a formatted entry starts with a bullet or with the
    indent. *)
Lemma format_entry_shape (exp : jsstring) :
  mapi entry_line_of (split_str [LF] (trim exp)) <> [] /\
  Forall entry_line (mapi entry_line_of (split_str [LF] (trim exp))).
Proof.
  rewrite split_str_char. split.
  - apply mapi_from_nonempty, pieces_nonempty.
  - apply (@mapi_from_shape (fun l => forallb (fun c => negb (N.eqb c LF)) l = true)).
    + intros x i Hx. apply entry_line_of_shape, Hx.
    + apply (pieces_sep_free (fun c => N.eqb c LF)). reflexivity.
Qed.

(** A formatted entry that is not blank starts with a bullet and a space. *)
Lemma format_entry_bullet (exp : jsstring) :
  nonBlank exp = true -> startsWith bullet_prefix (format_entry exp) = true.
Proof.
  intros NB. rewrite format_entry_lines, split_str_char.
  destruct (trim exp) as [|c r] eqn:T.
  { unfold nonBlank in NB. rewrite T in NB. discriminate NB. }
  assert (W : isWhiteSpace c = false).
  { destruct (trim_clean exp) as [S _]. rewrite T in S. cbn [starts_clean] in S.
    destruct (isWhiteSpace c); [discriminate S | reflexivity]. }
  assert (NL : N.eqb c LF = false).
  { destruct (N.eqb_spec c LF) as [->|]; [discriminate W | reflexivity]. }
  cbn [pieces]. rewrite NL.
  destruct (pieces_head (fun c0 => N.eqb c0 LF) r [c]) as (p & rest & ->).
  cbn [rev app]. unfold mapi. cbn [mapi_from].
  apply startsWith_join. unfold entry_line_of. cbn [Nat.eqb nonEmpty isEmpty negb andb].
  apply startsWith_app.
Qed.

End EntryLines.

(** ** A label at the start of a line *)

Section LabeledLine.

Lemma Some_inj (A : Type) (a b : A) : Some a = Some b -> a = b.
Proof. congruence. Qed.

Lemma line_start_cases (before : jsstring) :
  line_start before = true -> before = [] \/ exists b, before = b ++ [LF].
Proof.
  unfold line_start. destruct (rev before) as [|c r] eqn:E.
  - intros _. left. apply rev_nil_iff, E.
  - intros H. apply N.eqb_eq in H. subst c. right. exists (rev r).
    rewrite <- (rev_involutive before), E. reflexivity.
Qed.

Lemma occurs_false_prefix (P s : jsstring) :
  occurs P s = false -> prefix_match true P s = false.
Proof.
  destruct s; cbn [occurs]; intros H; apply orb_false_iff in H; apply H.
Qed.

(** Nothing before the label reads the word. *)
Lemma after_label_line_start (P before y : jsstring) :
  sep_free P LF = true -> line_start before = true -> occurs P before = false ->
  after_label P (before ++ y) = after_label P y.
Proof.
  intros F L O. destruct (line_start_cases _ L) as [->|(b & ->)]; [reflexivity|].
  rewrite <- app_assoc. cbn [app].
  rewrite (@occurs_sep P LF F) in O. apply orb_false_iff in O.
  apply (@after_label_sep P LF F). apply O.
Qed.

Lemma after_label_here (P Label y : jsstring) :
  prefix_match true P Label = true -> length Label = length P ->
  after_label P (Label ++ y) = Some y.
Proof.
  intros M L.
  assert (E : prefix_match true P (Label ++ y) = true)
    by (apply (@prefix_match_extend true P Label y M)).
  destruct (Label ++ y) eqn:D; cbn [after_label]; rewrite E; rewrite <- D, <- L;
    rewrite skipn_app, skipn_all, Nat.sub_diag; reflexivity.
Qed.

Lemma stop_free_scan (labels : list jsstring) :
  Forall (fun L => sep_free L LF = true) labels ->
  forall v rest,
    stop_free labels v = true ->
    section_stop labels (LF :: rest) = true ->
    scan (section_stop labels) (v ++ LF :: rest) = Some (v, LF :: rest).
Proof.
  intros HL. induction v as [|c v IH]; intros rest Hv Hs.
  - cbn [app scan]. rewrite Hs. reflexivity.
  - cbn [stop_free] in Hv. apply andb_true_iff in Hv. destruct Hv as [Hc Hv].
    change ((c :: v) ++ LF :: rest) with (c :: (v ++ LF :: rest)).
    cbn [scan].
    assert (N : section_stop labels (c :: v ++ LF :: rest) = false).
    { cbn [section_stop].
      destruct (N.eqb c LF); [|reflexivity]. cbn [andb] in Hc |- *.
      apply negb_true_iff in Hc.
      assert (E : existsb (fun L => prefix_match true L (v ++ LF :: rest)) labels
                  = existsb (fun L => prefix_match true L v) labels).
      { clear - HL. induction HL as [|L ls HLf _ IHl]; [reflexivity|].
        cbn [existsb]. rewrite IHl, (@prefix_match_sep L LF HLf). reflexivity. }
      rewrite E, Hc. destruct v; reflexivity. }
    rewrite N, (IH rest Hv Hs). reflexivity.
Qed.

Lemma dropWhile_separators (sp v y : jsstring) :
  forallb is_ws_colon sp = true -> starts_plain v = true ->
  dropWhile is_ws_colon (sp ++ v ++ y) = v ++ y.
Proof.
  intros Hsp Hv. rewrite (dropWhile_all_app _ _ _ Hsp).
  destruct v as [|c v]; [discriminate Hv|].
  cbn [starts_plain] in Hv. apply negb_true_iff in Hv.
  cbn [app dropWhile]. rewrite Hv. reflexivity.
Qed.

(** The raw section of a text with a labeled section at the start of a
    line. *)
Lemma raw_section_found (word : jsstring) (labels : list jsstring)
    (before Label sp v rest : jsstring) :
  sep_free word LF = true ->
  Forall (fun L => sep_free L LF = true) labels ->
  prefix_match true word Label = true -> length Label = length word ->
  line_start before = true -> occurs word before = false ->
  forallb is_ws_colon sp = true -> starts_plain v = true ->
  stop_free labels v = true -> section_stop labels (LF :: rest) = true ->
  raw_section word labels (before ++ Label ++ sp ++ v ++ LF :: rest) = v.
Proof.
  intros F HL M Len LS O Hsp Hv Sf St.
  unfold raw_section, raw_labeled. rewrite first_label_word.
  rewrite after_label_line_start by assumption.
  rewrite after_label_here by assumption.
  rewrite dropWhile_separators by assumption.
  rewrite (@stop_free_scan labels HL v rest Sf St). reflexivity.
Qed.

Lemma first_objective_skip (before y : jsstring) :
  line_start before = true ->
  occurs (js "objective") before = false -> occurs (js "summary") before = false ->
  first_label objective_here (before ++ y) = first_label objective_here y.
Proof.
  intros L O S. destruct (line_start_cases _ L) as [->|(b & ->)]; [reflexivity|].
  rewrite <- app_assoc. cbn [app].
  rewrite (@occurs_sep (js "objective") LF eq_refl) in O.
  rewrite (@occurs_sep (js "summary") LF eq_refl) in S.
  apply orb_false_iff in O. destruct O as [O _].
  apply orb_false_iff in S. destruct S as [S _].
  clear L.
  induction b as [|a b IH].
  - destruct y; reflexivity.
  - cbn [occurs] in O, S.
    apply orb_false_iff in O. destruct O as [O1 O2].
    apply orb_false_iff in S. destruct S as [S1 S2].
    change ((a :: b) ++ LF :: y) with (a :: (b ++ LF :: y)).
    cbn [first_label]. unfold objective_here at 1, word_here.
    change (a :: b ++ LF :: y) with ((a :: b) ++ LF :: y).
    rewrite (@prefix_match_sep (js "objective") LF eq_refl),
            (@prefix_match_sep (js "summary") LF eq_refl), O1, S1.
    apply (IH S2 O2).
Qed.

Lemma scan_first_line (v rest : jsstring) :
  forallb (fun c => negb (N.eqb c LF)) v = true ->
  scan head_lf (v ++ LF :: rest) = Some (v, LF :: rest).
Proof.
  induction v as [|c v IH]; intros H.
  - cbn [app scan head_lf]. rewrite N.eqb_refl. reflexivity.
  - cbn [forallb] in H. apply andb_true_iff in H. destruct H as [Hc Hv].
    apply negb_true_iff in Hc.
    change ((c :: v) ++ LF :: rest) with (c :: (v ++ LF :: rest)).
    cbn [scan head_lf]. rewrite Hc, (IH Hv). reflexivity.
Qed.

(** The objective text of a text with an objective or summary line. *)
Lemma objective_text_found (before Label sp v rest : jsstring) :
  objective_here Label = Some [] ->
  line_start before = true ->
  occurs (js "objective") before = false -> occurs (js "summary") before = false ->
  forallb is_ws_colon sp = true -> starts_plain v = true ->
  forallb (fun c => negb (N.eqb c LF)) v = true ->
  objective_text (before ++ Label ++ sp ++ v ++ LF :: rest) = v.
Proof.
  intros HL LS O S Hsp Hv Nl.
  unfold objective_text, raw_labeled.
  rewrite first_objective_skip by assumption.
  assert (E : objective_here (Label ++ sp ++ v ++ LF :: rest)
              = Some (sp ++ v ++ LF :: rest)).
  { revert HL. unfold objective_here, word_here.
    destruct (prefix_match true (js "objective") Label) eqn:P1.
    - intros H. apply Some_inj in H.
      rewrite (@prefix_match_extend true (js "objective") Label _ P1).
      assert (Len : length Label = length (js "objective")).
      { pose proof (@prefix_match_length true (js "objective") Label P1) as Le.
        apply (f_equal (@length char)) in H. rewrite length_skipn in H.
        cbn [length] in H. lia. }
      rewrite <- Len, skipn_app, skipn_all, Nat.sub_diag. reflexivity.
    - destruct (prefix_match true (js "summary") Label) eqn:P2; [|discriminate].
      intros H. apply Some_inj in H.
      assert (Len : length Label = length (js "summary")).
      { pose proof (@prefix_match_length true (js "summary") Label P2) as Le.
        apply (f_equal (@length char)) in H. rewrite length_skipn in H.
        cbn [length] in H. lia. }
      assert (P1' : prefix_match true (js "objective") (Label ++ sp ++ v ++ LF :: rest) = false).
      { destruct Label as [|c l]; [discriminate P2|].
        change (js "objective") with (ch "o" :: js "bjective").
        change (js "summary") with (ch "s" :: js "ummary") in P2.
        cbn [app prefix_match] in P2 |- *.
        destruct (atom_test true (AChar (ch "o")) c) eqn:Oc; [|reflexivity].
        rewrite (initial_o_s c Oc) in P2. discriminate P2. }
      rewrite P1', (@prefix_match_extend true (js "summary") Label _ P2).
      rewrite <- Len, skipn_app, skipn_all, Nat.sub_diag. reflexivity. }
  assert (F : first_label objective_here (Label ++ sp ++ v ++ LF :: rest)
              = Some (sp ++ v ++ LF :: rest)).
  { destruct (Label ++ sp ++ v ++ LF :: rest); cbn [first_label]; rewrite E; reflexivity. }
  rewrite F, dropWhile_separators by assumption.
  rewrite scan_first_line by assumption. reflexivity.
Qed.

End LabeledLine.

(** ** What a match consumes and captures *)

Section Consumed.

Variable ic : bool.
Variable P : char -> bool.

Lemma rep_consumes (p : char -> bool) greedy :
  (forall c, p c = true -> P c = true) ->
  forall s min max k res,
    rep p greedy min max s k = Some res ->
    exists pre s',
      s = pre ++ s' /\ forallb P pre = true /\ min <= length pre /\ k s' = Some res.
Proof.
  intros Hp. induction s as [|c s IH]; intros min max k res H.
  - cbn in H.
    assert (E : match max with Some 0 => None | _ => @None mstate end = None)
      by (destruct max as [[|]|]; reflexivity).
    rewrite E in H. destruct min; [|discriminate].
    exists [], []. repeat split; [apply Nat.le_refl|].
    destruct greedy; [exact H|]. destruct (k []); [exact H | discriminate].
  - cbn [rep] in H.
    set (more := match max with
                 | Some 0 => None
                 | _ => if p c then rep p greedy (Nat.pred min) (option_map Nat.pred max) s k
                        else None
                 end) in H.
    assert (M : forall r, more = Some r ->
                          exists pre s', c :: s = pre ++ s' /\ forallb P pre = true /\
                                         min <= length pre /\ k s' = Some r).
    { intros r Hr. unfold more in Hr.
      destruct max as [[|m]|]; try discriminate;
        (destruct (p c) eqn:Pc; [|discriminate];
         apply IH in Hr; destruct Hr as (pre & s' & -> & Hpre & Hmin & Hk);
         exists (c :: pre), s'; split; [reflexivity|]; split;
         [cbn [forallb]; rewrite (Hp _ Pc), Hpre; reflexivity|];
         split; [cbn [length]; lia | exact Hk]). }
    destruct min.
    + destruct greedy.
      * destruct more as [r|] eqn:Em.
        -- injection H as <-. apply M. reflexivity.
        -- exists [], (c :: s). repeat split; [apply Nat.le_refl | exact H].
      * destruct (k (c :: s)) eqn:K.
        -- injection H as <-. exists [], (c :: s).
           repeat split; [apply Nat.le_refl | exact K].
        -- apply M, H.
    + apply M, H.
Qed.

Lemma rmatch_consumes (r : regex) :
  consumes_only ic P r ->
  forall s cap k res,
    rmatch ic r s cap k = Some res ->
    exists pre s' cap',
      s = pre ++ s' /\ forallb P pre = true /\ min_length r <= length pre /\
      k s' cap' = Some res.
Proof.
  induction r as [|a|r1 IH1 r2 IH2|r1 IH1 r2 IH2|a min max g|r1 IH1|r1 IH1|r1 IH1|];
    intros C s cap k res H; cbn [rmatch] in H; cbn [consumes_only min_length] in *.
  - exists [], s, cap. repeat split; [apply Nat.le_refl | exact H].
  - destruct s as [|c s]; [discriminate|].
    destruct (atom_test ic a c) eqn:T; [|discriminate].
    exists [c], s, cap. repeat split; [|apply Nat.le_refl | exact H].
    cbn [forallb]. rewrite (C _ T). reflexivity.
  - destruct C as [C1 C2].
    apply (IH1 C1) in H. destruct H as (p1 & s1 & cap1 & -> & F1 & L1 & H).
    apply (IH2 C2) in H. destruct H as (p2 & s2 & cap2 & -> & F2 & L2 & H).
    exists (p1 ++ p2), s2, cap2. repeat split.
    + apply app_assoc.
    + rewrite forallb_app, F1, F2. reflexivity.
    + rewrite length_app. lia.
    + exact H.
  - destruct C as [C1 C2].
    destruct (rmatch ic r1 s cap k) eqn:E.
    + injection H as <-.
      destruct (IH1 C1 _ _ _ _ E) as (p1 & s1 & cap1 & -> & F1 & L1 & H).
      exists p1, s1, cap1. repeat split; [exact F1 | lia | exact H].
    + destruct (IH2 C2 _ _ _ _ H) as (p2 & s2 & cap2 & -> & F2 & L2 & H').
      exists p2, s2, cap2. repeat split; [exact F2 | lia | exact H'].
  - apply (rep_consumes _ _ C) in H. destruct H as (pre & s' & -> & F & L & H).
    exists pre, s', cap. repeat split; assumption.
  - apply (IH1 C) in H. destruct H as (p1 & s1 & cap1 & -> & F1 & L1 & H).
    eexists p1, s1, _. repeat split; [exact F1 | exact L1 | exact H].
  - exact (IH1 C _ _ _ _ H).
  - destruct (rmatch ic r1 s cap (fun s1 cap1 => Some (s1, cap1))) as [[s1 cap1]|];
      [|discriminate].
    exists [], s, cap1. repeat split; [apply Nat.le_0_l | exact H].
  - destruct s; [|discriminate].
    exists [], [], cap. repeat split; [apply Nat.le_refl | exact H].
Qed.

(** The capture of a match is the one it started with, or a text of
    characters that satisfy [P]. *)
Lemma rmatch_captures (r : regex) :
  captures_only ic P r ->
  forall s cap k res,
    rmatch ic r s cap k = Some res ->
    exists s' cap',
      k s' cap' = Some res /\
      (cap' = cap \/ exists g, cap' = Some g /\ forallb P g = true).
Proof.
  induction r as [|a|r1 IH1 r2 IH2|r1 IH1 r2 IH2|a min max g|r1 IH1|r1 IH1|r1 IH1|];
    intros C s cap k res H; cbn [rmatch] in H; cbn [captures_only] in C.
  - exists s, cap. split; [exact H | left; reflexivity].
  - destruct s as [|c s]; [discriminate|].
    destruct (atom_test ic a c); [|discriminate].
    exists s, cap. split; [exact H | left; reflexivity].
  - destruct C as [C1 C2].
    apply (IH1 C1) in H. destruct H as (s1 & cap1 & H & K1).
    apply (IH2 C2) in H. destruct H as (s2 & cap2 & H & K2).
    exists s2, cap2. split; [exact H|].
    destruct K2 as [->|K2]; [exact K1 | right; exact K2].
  - destruct C as [C1 C2].
    destruct (rmatch ic r1 s cap k) eqn:E.
    + injection H as <-. exact (IH1 C1 _ _ _ _ E).
    + exact (IH2 C2 _ _ _ _ H).
  - apply rep_success in H. destruct H as (s' & H).
    exists s', cap. split; [exact H | left; reflexivity].
  - apply (rmatch_consumes _ C) in H.
    destruct H as (pre & s1 & cap1 & -> & F & _ & H).
    rewrite firstn_split_length in H.
    exists s1, (Some pre). split; [exact H|]. right. exists pre. split; [reflexivity | exact F].
  - exact (IH1 C _ _ _ _ H).
  - destruct (rmatch ic r1 s cap (fun s1 cap1 => Some (s1, cap1))) as [[s1 cap1]|] eqn:E;
      [|discriminate].
    destruct (IH1 C _ _ _ _ E) as (s2 & cap2 & E2 & K2).
    injection E2 as _ <-.
    exists s, cap2. split; [exact H | exact K2].
  - destruct s; [|discriminate].
    exists [], cap. split; [exact H | left; reflexivity].
Qed.

(** A pattern that is one group: the capture is the text that was
    matched. *)
Lemma group_match (r1 : regex) (s s' : jsstring) (cap : option jsstring) :
  consumes_only ic P r1 ->
  match_here ic (RGroup r1) s = Some (s', cap) ->
  exists g, cap = Some g /\ s = g ++ s' /\ forallb P g = true /\
            min_length r1 <= length g.
Proof.
  intros C H. unfold match_here in H. cbn [rmatch] in H.
  apply (rmatch_consumes _ C) in H.
  destruct H as (pre & s1 & cap1 & -> & F & L & H).
  rewrite firstn_split_length in H. injection H as <- <-.
  exists pre. repeat split; assumption.
Qed.

End Consumed.

(** ** Where the first match is *)

Section FirstMatch.

Variable ic : bool.
Variable r : regex.

Lemma exec_from_m1 :
  forall s i m,
    exec_from ic r i s = Some m ->
    exists x y, s = x ++ y /\ match_here ic r y = Some (after m, m1 m).
Proof.
  induction s as [|c s IH]; intros i m H; cbn [exec_from] in H.
  - destruct (match_here ic r []) as [[s' cap]|] eqn:E; [|discriminate].
    injection H as <-. exists [], []. split; [reflexivity | exact E].
  - destruct (match_here ic r (c :: s)) as [[s' cap]|] eqn:E.
    + injection H as <-. exists [], (c :: s). split; [reflexivity | exact E].
    + destruct (IH _ _ H) as (x & y & -> & M).
      exists (c :: x), y. split; [reflexivity | exact M].
Qed.

(** A match somewhere makes the search succeed. *)
Lemma exec_from_found :
  forall x y i, match_here ic r y <> None -> exec_from ic r i (x ++ y) <> None.
Proof.
  induction x as [|c x IH]; intros y i M.
  - cbn [app]. destruct y; cbn [exec_from];
      destruct (match_here ic r _) as [[s' cap]|]; congruence.
  - change ((c :: x) ++ y) with (c :: (x ++ y)). cbn [exec_from].
    destruct (match_here ic r (c :: x ++ y)) as [[s' cap]|]; [discriminate|].
    apply IH, M.
Qed.

(** The search passes a text in which no match starts. *)
Lemma exec_from_skip :
  forall x y i,
    (forall x1 x2, x = x1 ++ x2 -> x2 <> [] -> match_here ic r (x2 ++ y) = None) ->
    exists j, exec_from ic r i (x ++ y) = exec_from ic r j y.
Proof.
  induction x as [|c x IH]; intros y i H.
  - exists i. reflexivity.
  - change ((c :: x) ++ y) with (c :: (x ++ y)). cbn [exec_from].
    assert (E : match_here ic r (c :: x ++ y) = None)
      by (apply (H [] (c :: x)); [reflexivity | discriminate]).
    rewrite E. apply IH. intros x1 x2 -> Hx2.
    apply (H (c :: x1) x2); [reflexivity | exact Hx2].
Qed.

Lemma exec_from_here_m1 (y : jsstring) (i : nat) rest g :
  match_here ic r y = Some (rest, g) ->
  exists m, exec_from ic r i y = Some m /\ m1 m = g.
Proof.
  intros M. destruct y; cbn [exec_from]; rewrite M; eexists; split; reflexivity.
Qed.

End FirstMatch.

(** ** Quantifiers on a run of characters *)

Section Runs.

Variable p : char -> bool.

(** A quantifier can take [n] characters when they are there and the rest
    of the pattern matches behind them. *)
Lemma rep_complete greedy :
  forall (pre s' : jsstring) min max k,
    forallb p pre = true ->
    min <= length pre ->
    match max with Some m => length pre <= m | None => True end ->
    k s' <> None ->
    rep p greedy min max (pre ++ s') k <> None.
Proof.
  induction pre as [|c pre IH]; intros s' min max k F Lmin Lmax K.
  - cbn [length] in Lmin. assert (min = 0) by lia. subst min.
    cbn [app]. destruct s' as [|d s']; cbn [rep].
    + destruct greedy.
      * destruct (match max with Some 0 => None | _ => None end); [discriminate | exact K].
      * destruct (k []); [discriminate | congruence].
    + destruct greedy.
      * destruct (match max with
                  | Some 0 => None
                  | _ => if p d then rep p true (Nat.pred 0) (option_map Nat.pred max) s' k
                         else None
                  end); [discriminate | exact K].
      * destruct (k (d :: s')); [discriminate | congruence].
  - cbn [forallb] in F. apply andb_true_iff in F. destruct F as [Pc F].
    change ((c :: pre) ++ s') with (c :: (pre ++ s')). cbn [rep]. rewrite Pc.
    assert (M : match max with
                | Some 0 => None
                | _ => rep p greedy (Nat.pred min) (option_map Nat.pred max) (pre ++ s') k
                end <> None).
    { destruct max as [[|m]|]; cbn [length] in Lmax.
      - lia.
      - apply IH; [exact F | cbn [length] in Lmin; lia | cbn [option_map Nat.pred]; lia | exact K].
      - apply IH; [exact F | cbn [length] in Lmin; lia | exact I | exact K]. }
    destruct min.
    + destruct greedy.
      * destruct (match max with Some 0 => None | _ => _ end); [discriminate | congruence].
      * destruct (k (c :: pre ++ s')); [discriminate | exact M].
    + exact M.
Qed.

(** A greedy star takes the whole run when the rest of the pattern matches
    behind it. *)
Lemma rep_greedy_prefix (k : jsstring -> option mstate) :
  forall (w s' : jsstring) res,
    forallb p w = true ->
    match s' with c :: _ => p c = false | [] => True end ->
    k s' = Some res ->
    rep p true 0 None (w ++ s') k = Some res.
Proof.
  induction w as [|c w IH]; intros s' res F Hd K.
  - cbn [app]. destruct s' as [|d s']; cbn [rep]; [exact K|].
    rewrite Hd. exact K.
  - cbn [forallb] in F. apply andb_true_iff in F. destruct F as [Pc F].
    change ((c :: w) ++ s') with (c :: (w ++ s')). cbn [rep Nat.pred option_map].
    rewrite Pc, (IH _ _ F Hd K). reflexivity.
Qed.

(** A lazy quantifier goes on as long as the rest of the pattern fails. *)
Lemma rep_lazy_until (k : jsstring -> option mstate) :
  forall (v t : jsstring) res,
    forallb p v = true ->
    (forall c s, In c v -> k (c :: s) = None) ->
    k t = Some res ->
    rep p false 0 None (v ++ t) k = Some res.
Proof.
  induction v as [|c v IH]; intros t res F N K.
  - cbn [app]. destruct t; cbn [rep]; rewrite K; reflexivity.
  - cbn [forallb] in F. apply andb_true_iff in F. destruct F as [Pc F].
    change ((c :: v) ++ t) with (c :: (v ++ t)). cbn [rep Nat.pred option_map].
    rewrite (N c (v ++ t) (or_introl eq_refl)), Pc.
    apply IH; [exact F | | exact K].
    intros d s Hd. apply N. right. exact Hd.
Qed.

End Runs.

(** ** Name, e-mail address and phone number *)

Section NameAndContact.



Lemma name_group_chars :
  captures_only false name_char name_re.
Proof.
  unfold name_re. cbn [seq alt captures_only consumes_only plus_lazy star lit].
  repeat split; try exact I.
  intros c H. cbn [atom_test existsb xorb item_mem] in H.
  unfold name_char, isLetter, isUpper, isLower.
  change (ch "A") with 65%N in *; change (ch "Z") with 90%N in *;
  change (ch "a") with 97%N in *; change (ch "z") with 122%N in *.
  rewrite orb_false_r in H.
  destruct ((65 <=? c) && (c <=? 90))%N; [reflexivity|].
  destruct ((97 <=? c) && (c <=? 122))%N; [reflexivity|].
  exact H.
Qed.


Lemma phone_chars :
  consumes_only false phone_char
    (seq
       [ opt (AChar (ch "+"));
         range digit 1 3; opt phone_sep;
         range digit 1 4; opt phone_sep;
         range digit 1 4; opt phone_sep;
         range digit 1 9 ]).
Proof.
  cbn [seq consumes_only opt range]. unfold digit, phone_sep.
  repeat split; intros c H; cbn [atom_test existsb xorb item_mem] in H;
    unfold phone_char, char_eqb in *; cbn [existsb].
  all: rewrite ?orb_false_r in H.
  all: try (rewrite H; reflexivity).
  - rewrite (N.eqb_sym c (ch "+")), H, !orb_true_r. reflexivity.
  - rewrite (N.eqb_sym c (ch "-")), (N.eqb_sym c (ch ".")).
    destruct (N.eqb (ch "-") c); [rewrite !orb_true_r; reflexivity|].
    destruct (N.eqb (ch ".") c); [rewrite !orb_true_r; reflexivity|].
    cbn [orb] in H. rewrite H, orb_true_r. reflexivity.
  - rewrite (N.eqb_sym c (ch "-")), (N.eqb_sym c (ch ".")).
    destruct (N.eqb (ch "-") c); [rewrite !orb_true_r; reflexivity|].
    destruct (N.eqb (ch ".") c); [rewrite !orb_true_r; reflexivity|].
    cbn [orb] in H. rewrite H, orb_true_r. reflexivity.
  - rewrite (N.eqb_sym c (ch "-")), (N.eqb_sym c (ch ".")).
    destruct (N.eqb (ch "-") c); [rewrite !orb_true_r; reflexivity|].
    destruct (N.eqb (ch ".") c); [rewrite !orb_true_r; reflexivity|].
    cbn [orb] in H. rewrite H, orb_true_r. reflexivity.
Qed.


(** The group of a match of the phone pattern. *)
Lemma phone_group (s : jsstring) (i : nat) m :
  exec_from false phone_re i s = Some m ->
  exists p, m1 m = Some p /\ forallb phone_char p = true /\ 4 <= length p.
Proof.
  intros H. destruct (@exec_from_m1 _ _ _ _ _ H) as (x & y & _ & M).
  unfold phone_re in M.
  destruct (@group_match false phone_char _ _ _ _ phone_chars M) as (g & Eg & _ & F & L).
  exists g. repeat split; assumption.
Qed.

(** The group of a match of the name pattern. *)
Lemma name_group (s : jsstring) (i : nat) m :
  exec_from false name_re i s = Some m ->
  exists g, m1 m = Some g /\ forallb name_char g = true.
Proof.
  intros H. destruct (@exec_from_m1 _ _ _ _ _ H) as (x & y & _ & M).
  unfold match_here in M.
  apply (@rmatch_captures false name_char name_re name_group_chars) in M.
  destruct M as (s' & cap' & M & [->|(g & -> & F)]).
  - exfalso. injection M as _ M.
    destruct (@exec_group_defined false name_re s eq_refl i m H) as (g & Hg).
    congruence.
  - injection M as _ M. exists g. split; [symmetry; exact M | exact F].
Qed.

End NameAndContact.

(** ** A name line *)

Section NameLine.

Lemma forallb_same (p q : char -> bool) (l : jsstring) :
  (forall c, p c = q c) -> forallb p l = forallb q l.
Proof.
  intros H. induction l as [|c l IH]; [reflexivity|].
  cbn [forallb]. rewrite H, IH. reflexivity.
Qed.

Lemma ws_colon_exact (c : char) : atom_test false ws_colon c = is_ws_colon c.
Proof.
  unfold ws_colon, is_ws_colon. cbn [atom_test existsb xorb item_mem]. unfold char_eqb.
  rewrite orb_false_r, (N.eqb_sym (ch ":") c). reflexivity.
Qed.

Lemma name_class_exact (c : char) :
  atom_test false
    (AClass false [Range (ch "A") (ch "Z"); Range (ch "a") (ch "z"); Space]) c
  = name_char c.
Proof.
  cbn [atom_test existsb xorb item_mem]. rewrite orb_false_r, orb_assoc. reflexivity.
Qed.

Lemma name_letter_char (c : char) : name_letter c = true -> name_char c = true.
Proof.
  unfold name_letter, name_char. intros H. apply orb_true_iff in H.
  destruct H as [->|H]; [reflexivity|].
  apply N.eqb_eq in H. subst c. reflexivity.
Qed.

(** [(?:\n|,|$)] *)
Lemma name_terminator (s : jsstring) (cap : option jsstring) :
  rmatch false (RNonCap (alt [RAtom (AChar LF); RAtom (AChar (ch ",")); REnd])) s cap
    (fun s' c => Some (s', c))
  = match s with
    | [] => Some ([], cap)
    | c :: s' => if N.eqb c LF || N.eqb c (ch ",") then Some (s', cap) else None
    end.
Proof.
  destruct s as [|c s]; [reflexivity|].
  cbn [rmatch alt atom_test]. unfold char_eqb.
  rewrite (N.eqb_sym LF c), (N.eqb_sym (ch ",") c).
  destruct (N.eqb c LF); [reflexivity|].
  destruct (N.eqb c (ch ",")); reflexivity.
Qed.

Lemma name_letter_goes_on (c : char) (s : jsstring) (cap : option jsstring) :
  name_letter c = true ->
  rmatch false (RNonCap (alt [RAtom (AChar LF); RAtom (AChar (ch ",")); REnd]))
    (c :: s) cap (fun s' c => Some (s', c)) = None.
Proof.
  intros H. rewrite name_terminator.
  assert (E : N.eqb c LF || N.eqb c (ch ",") = false).
  { unfold name_letter, isLetter, isUpper, isLower in H.
    change LF with 10%N. change (ch ",") with 44%N. change SPACE with 32%N in H.
    destruct (N.eqb_spec c 10) as [->|]; [discriminate H|].
    destruct (N.eqb_spec c 44) as [->|]; [discriminate H | reflexivity]. }
  rewrite E. reflexivity.
Qed.

(** The group and the end of the name pattern on a name that is followed
    by a line break, a comma or nothing. *)
Lemma name_tail (v t : jsstring) :
  v <> [] -> forallb name_letter v = true -> name_end t = true ->
  exists rest,
    rmatch false
      (RSeq (RGroup (plus_lazy (AClass false [Range (ch "A") (ch "Z");
                                               Range (ch "a") (ch "z"); Space])))
            (RNonCap (alt [RAtom (AChar LF); RAtom (AChar (ch ",")); REnd])))
      (v ++ t) None (fun s' c => Some (s', c))
    = Some (rest, Some v).
Proof.
  intros Hv F E.
  remember (RNonCap (alt [RAtom (AChar LF); RAtom (AChar (ch ",")); REnd])) as T eqn:ET.
  cbn [rmatch plus_lazy].
  destruct v as [|c v]; [congruence|].
  cbn [forallb] in F. apply andb_true_iff in F. destruct F as [Fc F].
  change ((c :: v) ++ t) with (c :: (v ++ t)).
  cbn [rep Nat.pred option_map]. rewrite name_class_exact, (name_letter_char _ Fc).
  assert (K : exists rest,
             rmatch false T t
               (Some (firstn (length (c :: v ++ t) - length t) (c :: v ++ t)))
               (fun s' c0 => Some (s', c0))
             = Some (rest, Some (c :: v))).
  { change (c :: v ++ t) with ((c :: v) ++ t). rewrite firstn_split_length.
    rewrite ET, name_terminator.
    destruct t as [|d t]; [eexists; reflexivity|].
    cbn [name_end] in E. rewrite E. eexists; reflexivity. }
  destruct K as (rest & K). exists rest.
  apply rep_lazy_until.
  - clear - F. induction v as [|d v IH]; [reflexivity|].
    cbn [forallb] in F |- *. apply andb_true_iff in F. destruct F as [Fd F].
    rewrite name_class_exact, (name_letter_char _ Fd). apply IH, F.
  - intros d s Hd. rewrite ET. apply name_letter_goes_on.
    rewrite forallb_forall in F. apply F, Hd.
  - exact K.
Qed.

Lemma starts_clean_plain (v : jsstring) :
  v <> [] -> forallb name_letter v = true -> starts_clean v = true ->
  match v ++ [] with c :: _ => is_ws_colon c = false | [] => True end.
Proof.
  destruct v as [|c v]; [congruence|]. intros _ F S.
  cbn [app]. cbn [forallb] in F. apply andb_true_iff in F. destruct F as [Fc _].
  cbn [starts_clean] in S. apply negb_true_iff in S.
  unfold is_ws_colon. rewrite S. cbn [orb].
  unfold name_letter, isLetter, isUpper, isLower in Fc.
  change COLON with 58%N. change SPACE with 32%N in Fc.
  destruct (N.eqb_spec c 58) as [->|]; [discriminate Fc | reflexivity].
Qed.

(** The name pattern on a name line. *)
Lemma name_line_match (Label sp v t : jsstring) :
  Label = js "Name" \/ Label = js "name" ->
  forallb is_ws_colon sp = true ->
  v <> [] -> trim v = v -> forallb name_letter v = true -> name_end t = true ->
  exists rest, match_here false name_re (Label ++ sp ++ v ++ t) = Some (rest, Some v).
Proof.
  intros HL Hsp Hv Tv F E.
  destruct (name_tail t Hv F E) as (rest & K). exists rest.
  unfold match_here, name_re. cbn [seq].
  remember (RSeq (RGroup (plus_lazy (AClass false [Range (ch "A") (ch "Z");
                                                    Range (ch "a") (ch "z"); Space])))
              (RNonCap (alt [RAtom (AChar LF); RAtom (AChar (ch ",")); REnd]))) as T eqn:ET.
  assert (G : rep (atom_test false ws_colon) true 0 None (sp ++ v ++ t)
                (fun s' => rmatch false T s' None (fun s'0 cap => Some (s'0, cap)))
              = Some (rest, Some v)).
  { apply rep_greedy_prefix.
    - rewrite <- Hsp. apply forallb_same. intros c. apply ws_colon_exact.
    - destruct (@trim_fixed_clean v Tv) as [S _].
      pose proof (starts_clean_plain Hv F S) as P. rewrite app_nil_r in P.
      destruct v as [|c v]; [congruence|]. cbn [app].
      rewrite ws_colon_exact. exact P.
    - exact K. }
  cbn [rmatch alt star]. rewrite !rmatch_lit.
  destruct HL as [->| ->].
  - change (prefix_match false (js "Name") (js "Name" ++ sp ++ v ++ t))
      with (prefix_match false [] (sp ++ v ++ t)).
    cbn [prefix_match].
    change (skipn (length (js "Name")) (js "Name" ++ sp ++ v ++ t)) with (sp ++ v ++ t).
    rewrite G. reflexivity.
  - change (prefix_match false (js "Name") (js "name" ++ sp ++ v ++ t)) with false.
    change (prefix_match false (js "name") (js "name" ++ sp ++ v ++ t))
      with (prefix_match false [] (sp ++ v ++ t)).
    cbn [prefix_match].
    change (skipn (length (js "name")) (js "name" ++ sp ++ v ++ t)) with (sp ++ v ++ t).
    exact G.
Qed.

Lemma startsWith_sep (P : jsstring) (c : char) :
  forallb (fun a => negb (N.eqb a c)) P = true ->
  forall x y, startsWith P (x ++ c :: y) = startsWith P x.
Proof.
  induction P as [|a P IH]; intros F x y; [destruct x; reflexivity|].
  cbn [forallb] in F. apply andb_true_iff in F. destruct F as [Fa F].
  apply negb_true_iff in Fa.
  destruct x as [|b x].
  - cbn [app startsWith]. unfold char_eqb. rewrite Fa. reflexivity.
  - cbn [app startsWith]. rewrite (IH F). reflexivity.
Qed.

Lemma includes_suffix_false (p x y : jsstring) :
  includes p (x ++ y) = false -> includes p y = false.
Proof.
  intros H. destruct (includes p y) eqn:E; [|reflexivity].
  rewrite (includes_app_l p x y E) in H. discriminate H.
Qed.

(** No match of the name pattern starts before a name label that starts a
    line, when the text before it reads neither [Name] nor [name]. *)
Lemma name_skip (before y : jsstring) :
  line_start before = true ->
  includes (js "Name") before = false -> includes (js "name") before = false ->
  forall x1 x2, before = x1 ++ x2 -> x2 <> [] ->
                match_here false name_re (x2 ++ y) = None.
Proof.
  intros L N1 N2 x1 x2 E Hx2.
  destruct (line_start_cases _ L) as [->|(b & ->)].
  { destruct x1; [|discriminate E]. cbn [app] in E. congruence. }
  destruct (exists_last Hx2) as (x2' & a & ->).
  rewrite app_assoc in E. apply app_inj_tail in E. destruct E as [-> <-].
  destruct (match_here false name_re ((x2' ++ [LF]) ++ y)) as [res|] eqn:M;
    [|reflexivity].
  exfalso. apply name_pattern_label in M.
  rewrite <- app_assoc in M. cbn [app] in M.
  rewrite !(startsWith_sep _ LF) in M by reflexivity.
  rewrite <- app_assoc in N1, N2.
  apply includes_suffix_false in N1. apply includes_suffix_false in N2.
  apply includes_false_startsWith in N1. apply includes_false_startsWith in N2.
  rewrite (startsWith_sep _ LF) in N1 by reflexivity.
  rewrite (startsWith_sep _ LF) in N2 by reflexivity.
  destruct M as [M|M]; congruence.
Qed.

End NameLine.

(** ** Four digits in a row *)

Section Digits.

Lemma digit_exact (c : char) : atom_test false digit c = isDigit c.
Proof. unfold digit. cbn [atom_test existsb xorb item_mem]. apply orb_false_r. Qed.

(** The phone pattern matches at four digits in a row. *)
Lemma phone_at_digits (d1 d2 d3 d4 : char) (rest : jsstring) :
  isDigit d1 = true -> isDigit d2 = true -> isDigit d3 = true -> isDigit d4 = true ->
  match_here false phone_re (d1 :: d2 :: d3 :: d4 :: rest) <> None.
Proof.
  intros D1 D2 D3 D4.
  unfold match_here, phone_re. cbn [seq rmatch opt range].
  apply (@rep_complete _ true [] (d1 :: d2 :: d3 :: d4 :: rest) 0 (Some 1));
    [reflexivity | apply Nat.le_refl | apply Nat.le_0_l |].
  apply (@rep_complete _ true [d1] (d2 :: d3 :: d4 :: rest) 1 (Some 3));
    [cbn [forallb]; rewrite digit_exact, D1; reflexivity
    | apply Nat.le_refl | cbn [length]; lia |].
  apply (@rep_complete _ true [] (d2 :: d3 :: d4 :: rest) 0 (Some 1));
    [reflexivity | apply Nat.le_refl | apply Nat.le_0_l |].
  apply (@rep_complete _ true [d2] (d3 :: d4 :: rest) 1 (Some 4));
    [cbn [forallb]; rewrite digit_exact, D2; reflexivity
    | apply Nat.le_refl | cbn [length]; lia |].
  apply (@rep_complete _ true [] (d3 :: d4 :: rest) 0 (Some 1));
    [reflexivity | apply Nat.le_refl | apply Nat.le_0_l |].
  apply (@rep_complete _ true [d3] (d4 :: rest) 1 (Some 4));
    [cbn [forallb]; rewrite digit_exact, D3; reflexivity
    | apply Nat.le_refl | cbn [length]; lia |].
  apply (@rep_complete _ true [] (d4 :: rest) 0 (Some 1));
    [reflexivity | apply Nat.le_refl | apply Nat.le_0_l |].
  apply (@rep_complete _ true [d4] rest 1 (Some 9));
    [cbn [forallb]; rewrite digit_exact, D4; reflexivity
    | apply Nat.le_refl | cbn [length]; lia |].
  discriminate.
Qed.

End Digits.

(** ** Paths *)

Section Paths.

Lemma str_eqb_refl (s : jsstring) : str_eqb s s = true.
Proof.
  induction s as [|c s IH]; [reflexivity|].
  cbn [str_eqb]. unfold char_eqb. rewrite N.eqb_refl, IH. reflexivity.
Qed.

Lemma str_eqb_eq (a b : jsstring) : str_eqb a b = true -> a = b.
Proof.
  revert b. induction a as [|x a IH]; intros [|y b] H; try discriminate H; [reflexivity|].
  cbn [str_eqb] in H. apply andb_true_iff in H. destruct H as [H1 H2].
  apply N.eqb_eq in H1. subst y. rewrite (IH _ H2). reflexivity.
Qed.

Lemma pieces_plain (sep : char -> bool) :
  forall s acc,
    forallb (fun c => negb (sep c)) s = true -> pieces sep acc s = [rev acc ++ s].
Proof.
  induction s as [|c s IH]; intros acc H; cbn [pieces].
  - rewrite app_nil_r. reflexivity.
  - cbn [forallb] in H. apply andb_true_iff in H. destruct H as [Hc Hs].
    apply negb_true_iff in Hc. rewrite Hc, (IH _ Hs). cbn [rev].
    rewrite <- app_assoc. reflexivity.
Qed.

Lemma pieces_first (sep : char -> bool) (c : char) :
  sep c = true ->
  forall x acc y,
    forallb (fun a => negb (sep a)) x = true ->
    pieces sep acc (x ++ c :: y) = (rev acc ++ x) :: pieces sep [] y.
Proof.
  intros Hc. induction x as [|a x IH]; intros acc y H.
  - cbn [app pieces]. rewrite Hc, app_nil_r. reflexivity.
  - cbn [forallb] in H. apply andb_true_iff in H. destruct H as [Ha Hx].
    apply negb_true_iff in Ha.
    change ((a :: x) ++ c :: y) with (a :: (x ++ c :: y)).
    cbn [pieces]. rewrite Ha, (IH _ _ Hx). cbn [rev].
    rewrite <- app_assoc. reflexivity.
Qed.

(** The segments of [resumes/] followed by a path. *)
Lemma segments_resumes (file : jsstring) :
  segments (js "resumes" ++ SLASH :: file) = js "resumes" :: segments file.
Proof.
  unfold segments. rewrite !split_str_char.
  apply (@pieces_first (fun c => N.eqb c SLASH) SLASH eq_refl (js "resumes") [] file).
  reflexivity.
Qed.

Lemma last_not_slash (x n : jsstring) :
  n <> [] -> forallb (fun c => negb (N.eqb c SLASH)) n = true ->
  match rev (x ++ n) with l :: _ => N.eqb l SLASH | [] => false end = false.
Proof.
  intros Hn F. rewrite rev_app_distr.
  rewrite <- forallb_rev in F.
  destruct (rev n) as [|l r] eqn:E.
  - exfalso. apply Hn. apply rev_nil_iff, E.
  - cbn [app]. cbn [forallb] in F. apply andb_true_iff in F. destruct F as [Fl _].
    apply negb_true_iff in Fl. exact Fl.
Qed.

Lemma plain_name_facts (n : jsstring) :
  plain_name n = true ->
  n <> [] /\ forallb (fun c => negb (N.eqb c SLASH)) n = true /\
  (isEmpty n || str_eqb n [DOT]) = false /\ str_eqb n [DOT; DOT] = false.
Proof.
  unfold plain_name, nonEmpty. intros H.
  apply andb_true_iff in H. destruct H as [H H4].
  apply andb_true_iff in H. destruct H as [H H3].
  apply andb_true_iff in H. destruct H as [H1 H2].
  apply negb_true_iff in H1, H3, H4.
  repeat split; [|exact H2 | rewrite H1, H3; reflexivity | exact H4].
  intros ->. discriminate H1.
Qed.

Lemma segments_parent (n : jsstring) :
  segments (js "../" ++ n) = [DOT; DOT] :: segments n.
Proof.
  unfold segments. rewrite !split_str_char.
  apply (@pieces_first (fun c => N.eqb c SLASH) SLASH eq_refl [DOT; DOT] [] n).
  reflexivity.
Qed.

Lemma segments_plain (n : jsstring) :
  forallb (fun c => negb (N.eqb c SLASH)) n = true -> segments n = [n].
Proof.
  intros F. unfold segments. rewrite split_str_char.
  apply (@pieces_plain (fun c => N.eqb c SLASH) n [] F).
Qed.

(** [path.join('resumes', file)] for a parameter that is not empty: the
    segments of [file] are normalized behind [resumes]; a slash at the end
    is kept. *)
Lemma path_join_resumes (file : jsstring) :
  file <> [] ->
  path_join (js "resumes") file
  = match join [SLASH] (normalize_segments true [js "resumes"] (segments file)) with
    | [] => if match rev (js "resumes" ++ SLASH :: file) with
               | l :: _ => N.eqb l SLASH
               | [] => false
               end
            then [DOT; SLASH] else [DOT]
    | c :: p =>
        if match rev (js "resumes" ++ SLASH :: file) with
           | l :: _ => N.eqb l SLASH
           | [] => false
           end
        then (c :: p) ++ [SLASH] else c :: p
    end.
Proof.
  intros H. destruct file as [|c file]; [congruence|].
  change (path_join (js "resumes") (c :: file))
    with (normalize (js "resumes" ++ SLASH :: c :: file)).
  unfold normalize.
  change (js "resumes" ++ SLASH :: c :: file)
    with (ch "r" :: js "esumes" ++ SLASH :: c :: file) at 1.
  cbv iota.
  change (ch "r" :: js "esumes" ++ SLASH :: c :: file)
    with (js "resumes" ++ SLASH :: c :: file).
  rewrite segments_resumes.
  change (N.eqb (ch "r") SLASH) with false. cbn [negb].
  change (normalize_segments true [] (js "resumes" :: segments (c :: file)))
    with (normalize_segments true [js "resumes"] (segments (c :: file))).
  destruct (join [SLASH] (normalize_segments true [js "resumes"] (segments (c :: file))));
    reflexivity.
Qed.

(** [path.join('resumes', n)] for a plain name. *)
Lemma path_join_plain (n : jsstring) :
  plain_name n = true -> path_join (js "resumes") n = js "resumes/" ++ n.
Proof.
  intros P. destruct (plain_name_facts _ P) as (Hn & F & E1 & E2).
  rewrite (path_join_resumes Hn), (segments_plain _ F).
  cbn [normalize_segments]. rewrite E1, E2. cbn [rev app join].
  change (js "resumes" ++ SLASH :: n) with ((js "resumes" ++ [SLASH]) ++ n).
  rewrite (last_not_slash _ Hn F). reflexivity.
Qed.

(** [path.join('resumes', '../' + n)] for a plain name. *)
Lemma path_join_parent (n : jsstring) :
  plain_name n = true -> path_join (js "resumes") (js "../" ++ n) = n.
Proof.
  intros P. destruct (plain_name_facts _ P) as (Hn & F & E1 & E2).
  rewrite path_join_resumes by discriminate.
  rewrite segments_parent, (segments_plain _ F).
  cbn [normalize_segments].
  change (isEmpty [DOT; DOT] || str_eqb [DOT; DOT] [DOT]) with false.
  change (str_eqb [DOT; DOT] [DOT; DOT]) with true.
  change (str_eqb (js "resumes") [DOT; DOT]) with false.
  cbv iota. rewrite E1, E2. cbn [rev app join].
  change (js "resumes" ++ SLASH :: js "../" ++ n)
    with ((js "resumes" ++ SLASH :: js "../") ++ n).
  rewrite (last_not_slash _ Hn F).
  destruct n; [congruence | reflexivity].
Qed.

(** Without a [..] nothing is removed from what has been kept. *)
Lemma normalize_segments_keep (a : bool) :
  forall segs res,
    forallb (fun seg => negb (str_eqb seg [DOT; DOT])) segs = true ->
    exists kept, normalize_segments a res segs = rev res ++ kept.
Proof.
  induction segs as [|seg segs IH]; intros res H; cbn [normalize_segments].
  - exists []. rewrite app_nil_r. reflexivity.
  - cbn [forallb] in H. apply andb_true_iff in H. destruct H as [Hs H].
    apply negb_true_iff in Hs. rewrite Hs.
    destruct (isEmpty seg || str_eqb seg [DOT]).
    + apply IH, H.
    + destruct (IH (seg :: res) H) as (kept & ->).
      exists (seg :: kept). cbn [rev]. rewrite <- app_assoc. reflexivity.
Qed.

Lemma in_resumes_join (kept : list jsstring) (tail : jsstring) :
  tail = [] \/ tail = [SLASH] ->
  in_resumes (join [SLASH] (js "resumes" :: kept) ++ tail) = true.
Proof.
  intros T. unfold in_resumes.
  destruct kept as [|k kept].
  - destruct T as [->| ->]; reflexivity.
  - rewrite join_cons by discriminate.
    apply orb_true_iff. right. rewrite <- !app_assoc.
    change (js "resumes" ++ [SLASH] ++ join [SLASH] (k :: kept) ++ tail)
      with (js "resumes/" ++ join [SLASH] (k :: kept) ++ tail).
    apply startsWith_app.
Qed.

(** [path.join('resumes', file)] for a path without a [..] segment. *)
Lemma path_join_inside (file : jsstring) :
  no_parent_segment file = true -> in_resumes (path_join (js "resumes") file) = true.
Proof.
  intros H. destruct file as [|c file]; [reflexivity|].
  rewrite path_join_resumes by discriminate.
  destruct (normalize_segments_keep true (segments (c :: file)) [js "resumes"] H)
    as (kept & ->).
  cbn [rev app].
  assert (NE : join [SLASH] (js "resumes" :: kept) <> []).
  { destruct kept; [discriminate|]. rewrite join_cons by discriminate. discriminate. }
  remember (join [SLASH] (js "resumes" :: kept)) as p eqn:J.
  destruct p as [|j0 j]; [congruence|].
  destruct (match rev (js "resumes" ++ SLASH :: c :: file) with
            | l :: _ => N.eqb l SLASH
            | [] => false
            end).
  - change (in_resumes ((j0 :: j) ++ [SLASH]) = true).
    rewrite J. apply in_resumes_join. right. reflexivity.
  - rewrite J, <- (app_nil_r (join [SLASH] (js "resumes" :: kept))).
    apply in_resumes_join. left. reflexivity.
Qed.

(** A generated file name is a plain name. *)
Lemma artifact_name_plain (now uuid : jsstring) :
  forallb isDigit now = true -> forallb uuid_char uuid = true ->
  plain_name (artifact_name now uuid) = true.
Proof.
  intros Hn Hu. unfold plain_name, artifact_name.
  assert (F : forallb (fun c => negb (N.eqb c SLASH)) (now ++ js "_" ++ uuid ++ js ".pdf")
              = true).
  { rewrite !forallb_app. apply andb_true_iff. split; [|apply andb_true_iff; split;
      [reflexivity | apply andb_true_iff; split; [|reflexivity]]].
    - rewrite forallb_forall in Hn |- *. intros c Hc. pose proof (Hn c Hc) as D.
      unfold isDigit in D. change SLASH with 47%N.
      destruct (N.eqb_spec c 47) as [->|]; [discriminate D | reflexivity].
    - rewrite forallb_forall in Hu |- *. intros c Hc. pose proof (Hu c Hc) as D.
      unfold uuid_char, isDigit in D. change SLASH with 47%N.
      destruct (N.eqb_spec c 47) as [->|]; [discriminate D | reflexivity]. }
  rewrite F.
  assert (L : 5 <= length (now ++ js "_" ++ uuid ++ js ".pdf")).
  { rewrite !length_app. cbn [length js map list_ascii_of_string]. lia. }
  destruct (now ++ js "_" ++ uuid ++ js ".pdf") as [|a [|b [|c l]]];
    cbn [length] in L; try lia.
  cbn [str_eqb nonEmpty isEmpty negb andb]. rewrite !andb_false_r. reflexivity.
Qed.

End Paths.

(** ** Sections of the page *)

Section PageSections.

Lemma label_ahead_extend (x y : jsstring) :
  label_ahead x = true -> label_ahead (x ++ y) = true.
Proof.
  destruct x as [|c x]; [discriminate|].
  destruct x as [|l x]; [cbn [label_ahead]; rewrite andb_false_r; discriminate|].
  cbn [app label_ahead]. intros H.
  apply andb_true_iff in H. destruct H as [Hc H].
  apply andb_true_iff in H. destruct H as [Hl H].
  rewrite Hc, Hl. cbn [andb].
  revert H. induction x as [|a x IH]; cbn [dropWhile app]; [discriminate|].
  destruct (isLetter a); [exact IH|]. trivial.
Qed.

Lemma break_free_prefix :
  forall x y, break_free (x ++ y) = true -> break_free x = true.
Proof.
  induction x as [|c x IH]; intros y H; [reflexivity|].
  change ((c :: x) ++ y) with (c :: (x ++ y)) in H.
  cbn [break_free] in H |- *. apply andb_true_iff in H. destruct H as [Hl H].
  apply negb_true_iff in Hl.
  apply andb_true_iff. split; [|apply (IH y H)].
  apply negb_true_iff.
  destruct (label_ahead (c :: x)) eqn:E; [|reflexivity].
  apply (label_ahead_extend _ y) in E. cbn [app] in E. congruence.
Qed.

Lemma break_free_suffix :
  forall x y, break_free (x ++ y) = true -> break_free y = true.
Proof.
  induction x as [|c x IH]; intros y H; [exact H|].
  change ((c :: x) ++ y) with (c :: (x ++ y)) in H.
  cbn [break_free] in H. apply andb_true_iff in H. apply IH, H.
Qed.

Lemma until_break_prefix : forall s, exists rest, s = until_break s ++ rest.
Proof.
  induction s as [|c s IH]; [exists []; reflexivity|].
  cbn [until_break]. destruct (is_break (c :: s)).
  - exists (c :: s). reflexivity.
  - destruct IH as (rest & IH). exists rest. cbn [app]. rewrite <- IH. reflexivity.
Qed.

(** The text before the first break holds no break. *)
Lemma until_break_free : forall s, break_free (until_break s) = true.
Proof.
  induction s as [|c s IH]; [reflexivity|].
  cbn [until_break]. destruct (is_break (c :: s)) eqn:B; [reflexivity|].
  cbn [break_free]. rewrite IH, andb_true_r. apply negb_true_iff.
  destruct (label_ahead (c :: until_break s)) eqn:E; [|reflexivity].
  destruct (until_break_prefix s) as (rest & Hr).
  apply (label_ahead_extend _ rest) in E. cbn [app] in E. rewrite <- Hr in E.
  unfold is_break in B. rewrite E in B. discriminate B.
Qed.

Lemma break_free_trim (s : jsstring) : break_free s = true -> break_free (trim s) = true.
Proof.
  intros H. unfold trim, trimEnd, trimStart.
  destruct (dropWhile_suffix isWhiteSpace s) as (x & Hx).
  rewrite Hx in H. apply break_free_suffix in H.
  set (y := dropWhile isWhiteSpace s) in *.
  destruct (dropWhile_suffix isWhiteSpace (rev y)) as (z & Hz).
  apply (f_equal (@rev char)) in Hz. rewrite rev_involutive, rev_app_distr in Hz.
  rewrite Hz in H. apply (break_free_prefix _ _ H).
Qed.

(** What [getSection] returns for a label is trimmed and holds no break. *)
Lemma getSection_clean (aiText L : jsstring) :
  trim (getSection aiText L) = getSection aiText L /\
  break_free (getSection aiText L) = true.
Proof.
  rewrite getSection_spec.
  destruct (after_label (L ++ [COLON]) aiText) as [r|]; [|split; reflexivity].
  split; [apply trim_idem | apply break_free_trim, until_break_free].
Qed.

Lemma getSection_absent (aiText L : jsstring) :
  occurs (L ++ [COLON]) aiText = false -> getSection aiText L = [].
Proof.
  intros H. rewrite getSection_spec, (after_label_none _ _ H). reflexivity.
Qed.

End PageSections.

(** ** The host of the download reference *)

Section Host.

Lemma match_here_trailing_slash (s : jsstring) :
  match_here false trailing_slash_re s
  = match s with
    | [c] => if N.eqb c SLASH then Some ([], None) else None
    | _ => None
    end.
Proof.
  destruct s as [|c s]; [reflexivity|].
  unfold match_here, trailing_slash_re. cbn [rmatch atom_test]. unfold char_eqb.
  change (ch "/") with SLASH. rewrite (N.eqb_sym SLASH c).
  destruct (N.eqb c SLASH); destruct s; reflexivity.
Qed.

Lemma exec_trailing_slash :
  forall h i,
    exec_from false trailing_slash_re i (h ++ [SLASH])
    = Some {| index := i + length h; m0 := [SLASH]; m1 := None; after := [] |}.
Proof.
  induction h as [|c h IH]; intros i.
  - cbn [app exec_from]. rewrite match_here_trailing_slash, N.eqb_refl.
    cbn [length]. rewrite Nat.add_0_r. reflexivity.
  - change ((c :: h) ++ [SLASH]) with (c :: (h ++ [SLASH])). cbn [exec_from].
    rewrite match_here_trailing_slash.
    pose proof (IH (S i)) as IH'.
    destruct (h ++ [SLASH]) as [|d t] eqn:E; [destruct h; discriminate E|].
    rewrite IH'. cbn [length]. rewrite Nat.add_succ_r. reflexivity.
Qed.

Lemma exec_no_trailing_slash :
  forall s i,
    match rev s with c :: _ => N.eqb c SLASH = false | [] => True end ->
    exec_from false trailing_slash_re i s = None.
Proof.
  induction s as [|c s IH]; intros i H; cbn [exec_from];
    rewrite match_here_trailing_slash; [reflexivity|].
  destruct s as [|d s].
  - cbn [rev app] in H. rewrite H. cbn [exec_from].
    rewrite match_here_trailing_slash. reflexivity.
  - apply IH. cbn [rev] in H |- *.
    destruct (rev s ++ [d]) as [|x r] eqn:E; [destruct (rev s); discriminate E|].
    cbn [app] in H. exact H.
Qed.

(** [HOST_URL.replace(/\/$/, '')] *)
Lemma replace_trailing_slash (host : jsstring) :
  replace false trailing_slash_re [] host = strip_final_slash host.
Proof.
  unfold replace, strip_final_slash, exec.
  destruct (rev host) as [|c r] eqn:E.
  - rewrite (proj1 (rev_nil_iff host) E). reflexivity.
  - assert (H : host = rev r ++ [c]).
    { rewrite <- (rev_involutive host), E. reflexivity. }
    destruct (N.eqb c SLASH) eqn:S.
    + apply N.eqb_eq in S. subst c. rewrite H, exec_trailing_slash.
      cbn [index after Nat.add app]. rewrite firstn_app, firstn_all, Nat.sub_diag.
      cbn [firstn]. rewrite !app_nil_r. reflexivity.
    + rewrite exec_no_trailing_slash; [reflexivity|].
      assert (X : forall l : jsstring,
                 l = c :: r ->
                 match l with x :: _ => N.eqb x SLASH = false | [] => True end)
        by (intros l ->; exact S).
      apply X, E.
Qed.

End Host.

(** ** The generate handler, step by step *)

Section Generate.

Variable w : World.
Variable req : Request.
Variable st : State.

Lemma generated_text_nonblank :
  nonBlank (value (resume_text req)) = true ->
  exists f, generated_text req = Ok (render f).
Proof.
  intros NB. unfold generated_text. rewrite improveResume_nonblank by exact NB.
  destruct (extract_defined (value (resume_text req))
              (match target_role req with Some r => r | None => [] end)) as (f & ->).
  exists f. reflexivity.
Qed.

Lemma generated_text_blank :
  nonBlank (value (resume_text req)) = false ->
  generated_text req = Throw empty_text_error.
Proof. intros NB. apply improveResume_blank, NB. Qed.

(** The handler once the inputs are there and the payment is confirmed. *)
Lemma generate_confirmed :
  missing (payment_id req) || missing (resume_text req) = false ->
  confirms (gateway w (value (payment_id req))) = true ->
  generate w req st
  = deliver w req (value (resume_text req))
      (record (VerifyPayment (value (payment_id req))) st).
Proof. intros M C. unfold generate. rewrite M, C. reflexivity. Qed.

(** What a success answer tells. *)
Lemma generate_success_inv (url : jsstring) :
  fst (generate w req st) = Success url ->
  missing (payment_id req) || missing (resume_text req) = false /\
  confirms (gateway w (value (payment_id req))) = true /\
  exists aiText pdf host,
    generated_text req = Ok aiText /\
    htmlToPdfBuffer w (renderHtmlFromAiText aiText) = Ok pdf /\
    HOST_URL w = Some host /\
    url = strip_final_slash host ++ js "/download/" ++ fileName w /\
    resumes (snd (generate w req st)) = (js "resumes/" ++ fileName w, pdf) :: resumes st.
Proof.
  unfold generate.
  destruct (missing (payment_id req) || missing (resume_text req)) eqn:M;
    [discriminate|].
  destruct (confirms (gateway w (value (payment_id req)))) eqn:C; [|discriminate].
  cbn [negb]. unfold deliver. fold (generated_text req).
  destruct (generated_text req) as [aiText|e]; [|discriminate].
  destruct (htmlToPdfBuffer w (renderHtmlFromAiText aiText)) as [pdf|e] eqn:P;
    [|discriminate].
  destruct (HOST_URL w) as [host|] eqn:H; [|discriminate].
  cbn [fst snd]. intros E. injection E as <-.
  split; [reflexivity|]. split; [reflexivity|].
  exists aiText, pdf, host.
  split; [reflexivity|]. split; [exact P|]. split; [first [reflexivity | exact H]|].
  split; [rewrite <- replace_trailing_slash; reflexivity|].
  destruct (email req) as [to|]; [destruct (smtp_configured w && nonEmpty to)|];
    reflexivity.
Qed.

(** When a success answer is given. *)
Lemma generate_success_when (aiText pdf host : jsstring) :
  missing (payment_id req) || missing (resume_text req) = false ->
  confirms (gateway w (value (payment_id req))) = true ->
  generated_text req = Ok aiText ->
  htmlToPdfBuffer w (renderHtmlFromAiText aiText) = Ok pdf ->
  HOST_URL w = Some host ->
  fst (generate w req st)
  = Success (strip_final_slash host ++ js "/download/" ++ fileName w).
Proof.
  intros M C G P H. rewrite (generate_confirmed M C).
  unfold deliver. fold (generated_text req). rewrite G, P, H.
  cbn [fst]. rewrite replace_trailing_slash. reflexivity.
Qed.

End Generate.

(** ** The four sections, by kind *)

Section Kinds.

Lemma extract_section_raw (k : SectionKind) (resumeText : jsstring) :
  extract_section k resumeText
  = Ok (section_field k (raw_section (section_word k) (section_stops k) resumeText)).
Proof.
  destruct k; cbn [extract_section section_field section_word section_stops];
    unfold extract_skills, extract_education, extract_experience, extract_languages;
    rewrite ?skills_raw, ?education_raw, ?experience_raw, ?languages_raw; cbn [bind];
    unfold list_entries, filled_lines;
    rewrite ?split_list_sep, ?split_str_char, ?split_entry_start; reflexivity.
Qed.

Lemma section_labels_no_lf (k : SectionKind) :
  sep_free (section_word k) LF = true /\
  Forall (fun L => sep_free L LF = true) (section_stops k).
Proof.
  destruct k; (split; [reflexivity|]); repeat constructor.
Qed.

End Kinds.

(** ** Patterns that start with a line break *)

Section LineStarts.






End LineStarts.

(** ** The lines of the formatted text *)

Section OptionalLines.











End OptionalLines.

(** A value that holds a line which reads like an optional line makes the
    label start a line although its own value is empty. *)
Lemma label_free_needed :
  skills fields_with_skills_in_summary = [] /\
  label_free (js "SKILLS") fields_with_skills_in_summary = false /\
  label_starts_line (js "SKILLS") (render fields_with_skills_in_summary) = true.
Proof. repeat split; vm_compute; reflexivity. Qed.

(** ** The summary as one line *)

Section SummaryLine.

Lemma lf_free_In (p : jsstring) : lf_free p = true <-> ~ In LF p.
Proof.
  unfold lf_free. induction p as [|c p IH]; cbn [forallb In].
  - split; [intros _ [] | reflexivity].
  - rewrite andb_true_iff, IH, negb_true_iff, N.eqb_neq. split.
    + intros [H1 H2] [E|E]; [apply H1, E | apply H2, E].
    + intros H. split; [intros E; apply H; left; exact E | intros E; apply H; right; exact E].
Qed.

Lemma lf_free_app (x y : jsstring) :
  lf_free x = true -> lf_free y = true -> lf_free (x ++ y) = true.
Proof.
  unfold lf_free. intros Hx Hy. rewrite forallb_app.
  apply andb_true_intro. split; assumption.
Qed.

(** What is read up to the next line break holds none. *)
Lemma scan_head_lf_free :
  forall s pre rest, scan head_lf s = Some (pre, rest) -> lf_free pre = true.
Proof.
  induction s as [|c s IH]; intros pre rest H; cbn [scan head_lf] in H.
  - discriminate H.
  - destruct (N.eqb c LF) eqn:E.
    + injection H as <- _. reflexivity.
    + change (match s with
              | [] => if head_lf [] then Some ([], []) else None
              | _ => scan head_lf s
              end) with (scan head_lf s) in H.
      destruct (scan head_lf s) as [[p r]|] eqn:Sc; [|discriminate H].
      injection H as <- _. cbn [lf_free forallb]. rewrite E. cbn [negb andb].
      apply (IH p r eq_refl).
Qed.

Lemma objective_text_lf_free (t : jsstring) : lf_free (objective_text t) = true.
Proof.
  unfold objective_text, raw_labeled.
  destruct (first_label objective_here t) as [r|]; [|reflexivity].
  destruct (scan head_lf (dropWhile is_ws_colon r)) as [[pre rest]|] eqn:Sc; [|reflexivity].
  apply (scan_head_lf_free _ Sc).
Qed.

(** The summary of a target role without a line break holds none. *)
Lemma extract_summary_lf_free (t targetRole su : jsstring) :
  extract_summary t targetRole = Ok su -> ~ In LF targetRole -> ~ In LF su.
Proof.
  rewrite extract_summary_text. intros H R. apply Ok_inj in H. subst su.
  apply lf_free_In. apply lf_free_In in R.
  assert (S1 : lf_free (if 5 <? length (objective_text t) then trim (objective_text t)
                        else default_summary targetRole) = true).
  { destruct (5 <? length (objective_text t)).
    - apply forallb_trim, objective_text_lf_free.
    - unfold default_summary. apply lf_free_app; [reflexivity|].
      apply lf_free_app; [|reflexivity].
      unfold orDefault. destruct (isEmpty targetRole); [reflexivity | exact R]. }
  unfold with_career_goal.
  destruct (negb _ && _); [|exact S1].
  apply lf_free_app; [exact S1|]. apply lf_free_app; [reflexivity|].
  apply lf_free_app; [exact R | reflexivity].
Qed.

Lemma pieces_app_sep (sep : char -> bool) (c : char) (y : jsstring) :
  sep c = true ->
  forall x acc, pieces sep acc (x ++ c :: y) = pieces sep acc x ++ pieces sep [] y.
Proof.
  intros Hc. induction x as [|a x IH]; intros acc; cbn [app pieces].
  - rewrite Hc. reflexivity.
  - destruct (sep a); [rewrite IH; reflexivity | apply IH].
Qed.

(** The lines of a text with one line set apart. *)
Lemma lines_around (before l after : jsstring) :
  ~ In LF l ->
  lines_of (before ++ LF :: l ++ LF :: after) = lines_of before ++ l :: lines_of after.
Proof.
  intros Hl. apply lf_free_In in Hl. unfold lines_of. rewrite !split_str_char.
  rewrite (@pieces_app_sep (fun c => N.eqb c LF) LF (l ++ LF :: after) eq_refl before []).
  rewrite (@pieces_first (fun c => N.eqb c LF) LF eq_refl l [] after Hl).
  reflexivity.
Qed.

Lemma other_lines_around (before s after : jsstring) :
  ~ In LF s ->
  other_lines (before ++ LF :: js "PROFESSIONAL SUMMARY: " ++ s ++ LF :: after)
  = other_lines before ++ other_lines after.
Proof.
  intros Hs. unfold other_lines.
  rewrite app_assoc. rewrite lines_around.
  - rewrite filter_app. cbn [filter]. rewrite startsWith_app. reflexivity.
  - apply lf_free_In. apply lf_free_app; [reflexivity | apply lf_free_In, Hs].
Qed.

End SummaryLine.

(* ================================================================== *)
(** * The properties of the specification *)
(* ================================================================== *)

(** C1.  The lookup does not give back what the renderer wrote: its
    lookahead takes only a one-word label for the start of the next line, so
    a section that is followed by the PROFESSIONAL SUMMARY or the WORK
    EXPERIENCE line is returned with that line attached.  For the resume
    ["hello"] the NAME lookup returns the name and the whole summary line;
    for a record with six plain values the CONTACT and SKILLS lookups return
    the contact with the summary line and the skills with the experience
    line. *)
Theorem roundtrip_attaches_next_line :
  improveResume (js "hello") (js "Modern Professional") [] = Ok hello_text /\
  getSection hello_text (js "NAME")
  = js "Applicant
PROFESSIONAL SUMMARY: Dedicated professional with strong expertise in multiple areas." /\
  getSection hello_text (js "NAME") <> js "Applicant" /\
  getSection (render well_formed_fields) (js "CONTACT")
  = js "jane@x.com
PROFESSIONAL SUMMARY: Backend engineer" /\
  getSection (render well_formed_fields) (js "CONTACT") <> contact well_formed_fields /\
  getSection (render well_formed_fields) (js "SKILLS")
  = skills well_formed_fields ++ js "
WORK EXPERIENCE: " ++ experience well_formed_fields /\
  getSection (render well_formed_fields) (js "SKILLS") <> skills well_formed_fields.
Proof.
  repeat split; try (vm_compute; reflexivity); vm_compute; discriminate.
Qed.

(** C2, as stated, fails: the six values of this record are non-empty, but
    its education ends with a space, the lookup trims it, and the value
    occurs nowhere in the document, so no block of the page holds it. *)
Lemma roundtrip_contains_fails :
  ~ (all_present fields_with_trailing_space ->
     roundtrip_contains fields_with_trailing_space).
Proof.
  intros H.
  assert (P : all_present fields_with_trailing_space)
    by (repeat split; discriminate).
  destruct (roundtrip_contains_in_document (H P)) as (_ & _ & _ & _ & E & _).
  vm_compute in E. discriminate E.
Qed.

(** C2, amended.  For every record whose six values are non-empty and well
    formed (no white space at the ends, no line break directly followed by
    letters and a colon, no lookup label followed by a colon), the page made
    from its formatted text is the template with its seven blocks, and each
    value is a substring of the block it belongs to: title and heading for
    the name, the contact block, and the summary, experience, education and
    skills blocks. *)
Theorem roundtrip_contains_well_formed :
  forall f : ExtractedFields,
    all_present f -> all_well_formed f ->
    roundtrip_contains f.
Proof.
  intros f HP HW.
  destruct (sections_all_present HP HW) as (En & Ec & Es & Ee & Ed & Ek).
  destruct HP as (Hn & Hc & Hs & Hk & He & Hd).
  assert (D : forall v d, v <> [] -> orDefault v d = v)
    by (intros v d Hv; unfold orDefault; destruct v; [congruence | reflexivity]).
  exists (name f),
         (contact f ++ LF :: js "PROFESSIONAL SUMMARY" ++ COLON :: SPACE :: summary f),
         (summary f), (experience f), (education f),
         (skills f ++ LF :: js "WORK EXPERIENCE" ++ COLON :: SPACE :: experience f).
  split.
  { unfold renderHtmlFromAiText, page, sections.
    cbn [s_name s_contact s_summary s_experience s_education s_skills].
    rewrite En, Ec, Es, Ee, Ed, Ek.
    rewrite !D by (try assumption; destruct (contact f), (skills f); try congruence; discriminate).
    reflexivity. }
  unfold title_block, heading_block, contact_block, section_block.
  repeat split.
  - apply includes_embedded.
  - apply includes_embedded.
  - do 5 apply includes_app_l. rewrite <- app_assoc. apply includes_here.
  - do 7 apply includes_app_l. apply includes_here.
  - do 7 apply includes_app_l. apply includes_here.
  - do 7 apply includes_app_l. apply includes_here.
  - do 7 apply includes_app_l. rewrite <- app_assoc. apply includes_here.
Qed.

(** The theorem at a record of six plain values. *)
Lemma roundtrip_contains_well_formed_witness :
  roundtrip_contains well_formed_fields.
Proof.
  apply (@roundtrip_contains_well_formed well_formed_fields).
  - repeat split; discriminate.
  - repeat split; vm_compute; reflexivity.
Defined.

(** C3.  For every text that is not blank, [improveResume] returns: the
    extraction yields a record of strings without throwing, the result is
    the formatted text of that record, the value written after [NAME: ] is
    never the empty string, and every field whose pattern finds nothing in
    the text has its empty or placeholder value. *)
Theorem improveResume_total :
  forall resumeText resumeType targetRole,
    nonBlank resumeText = true ->
    exists f,
      extract resumeText targetRole = Ok f /\
      improveResume resumeText resumeType targetRole = Ok (render f) /\
      (exists rest,
          render f = js "NAME: " ++ orDefault (name f) (js "Applicant") ++ LF :: rest) /\
      orDefault (name f) (js "Applicant") <> [] /\
      field_defaults resumeText targetRole f.
Proof.
  intros resumeText resumeType targetRole NB.
  destruct (extract_defined resumeText targetRole) as (f & E).
  exists f. split; [exact E|]. split.
  { rewrite improveResume_nonblank by exact NB. rewrite E. reflexivity. }
  split.
  { unfold render. eexists.
    rewrite <- !app_assoc. reflexivity. }
  split.
  { apply orDefault_nonempty. discriminate. }
  apply extract_field_defaults, E.
Qed.

(** The theorem at the resume ["hello"]. *)
Lemma improveResume_total_witness :
  exists f,
    extract (js "hello") [] = Ok f /\
    improveResume (js "hello") (js "Modern Professional") [] = Ok (render f) /\
    (exists rest,
        render f = js "NAME: " ++ orDefault (name f) (js "Applicant") ++ LF :: rest) /\
    orDefault (name f) (js "Applicant") <> [] /\
    field_defaults (js "hello") [] f.
Proof.
  apply (improveResume_total (js "hello") (js "Modern Professional") []).
  vm_compute. reflexivity.
Defined.

(** C4.  [improveResume] throws its empty-text error exactly when the text
    is empty or made of white space only; [""] and ["   "] are rejected. *)
Theorem improveResume_rejects_exactly_blank :
  (forall resumeText resumeType targetRole,
      improveResume resumeText resumeType targetRole = Throw empty_text_error
      <-> forallb isWhiteSpace resumeText = true) /\
  (forall resumeType targetRole,
      improveResume [] resumeType targetRole = Throw empty_text_error) /\
  (forall resumeType targetRole,
      improveResume (js "   ") resumeType targetRole = Throw empty_text_error).
Proof.
  split; [|split].
  - intros resumeText resumeType targetRole.
    rewrite <- nonBlank_false_iff.
    destruct (nonBlank resumeText) eqn:NB.
    + rewrite improveResume_nonblank by exact NB.
      destruct (extract_defined resumeText targetRole) as (f & ->).
      simpl. split; discriminate.
    + rewrite improveResume_blank by exact NB. tauto.
  - reflexivity.
  - reflexivity.
Qed.

(** C5.  The name pattern has no [i] flag: [Name:] and [name:] are found,
    [NAME:] is not, and the name is then the default [Applicant], as for
    every text that reads neither [Name] nor [name]; a text without a name
    label, an e-mail address or a phone number yields the name [Applicant]
    and an empty contact. *)
Theorem name_label_case :
  extract_name (js "Name: Jane Doe") = js "Jane Doe" /\
  extract_name (js "name: Jane Doe") = js "Jane Doe" /\
  extract_name (js "NAME: Jane Doe") = js "Applicant" /\
  (forall resumeText,
      includes (js "Name") resumeText = false ->
      includes (js "name") resumeText = false ->
      extract_name resumeText = js "Applicant") /\
  (forall resumeText,
      exec false email_re resumeText = None ->
      exec false phone_re resumeText = None ->
      extract_contact resumeText = []) /\
  extract_name (js "Curriculum vitae") = js "Applicant" /\
  extract_contact (js "Curriculum vitae") = [].
Proof.
  split; [vm_compute; reflexivity|].
  split; [vm_compute; reflexivity|].
  split; [vm_compute; reflexivity|].
  split; [intros t H1 H2; apply (no_name_label_default t H1 H2)|].
  split; [intros t N1 N2; unfold extract_contact; rewrite N1, N2; reflexivity|].
  split; vm_compute; reflexivity.
Qed.

(** C6.  A skills section that ends the text without a final line break is
    not found at all: of three, or of twenty, comma-separated skills nothing
    is kept; no text without a line break has skills, and neither has a
    text whose last line is the skills line, without a line break after it.
    With the line break the first twelve entries are kept, joined by a line
    break, a bullet and a space. *)
Theorem skills_need_final_newline :
  extract_skills (js "Skills: Python, Go, SQL") = Ok [] /\
  extract_skills twenty_skills = Ok [] /\
  (forall resumeText, ~ In LF resumeText -> extract_skills resumeText = Ok []) /\
  (forall before v,
      occurs (js "skills") before = false -> ~ In LF v ->
      extract_skills (before ++ LF :: js "Skills: " ++ v) = Ok []) /\
  extract_skills (js "Skills: Python, Go, SQL" ++ [LF])
  = Ok (js "Python" ++ bullet_join ++ js "Go" ++ bullet_join ++ js "SQL") /\
  (exists v, extract_skills (twenty_skills ++ [LF]) = Ok v /\
             length (skill_entries v) = 12).
Proof.
  split; [vm_compute; reflexivity|].
  split; [vm_compute; reflexivity|].
  split.
  { intros t N. destruct (no_line_break_no_section t N) as (E & _).
    unfold extract_skills, section_raw. rewrite E. reflexivity. }
  split; [intros b v O N; apply (last_line_skills_lost b v O N)|].
  split; [vm_compute; reflexivity|].
  eexists. split; vm_compute; reflexivity.
Qed.




(** C8, as stated, fails: with an empty [resume_text] the handler answers
    with the missing-input failure before it looks at the payment. *)
Lemma payment_gate_as_stated_fails :
  ~ payment_gate_as_stated refusing_world request_without_text empty_state.
Proof.
  unfold payment_gate_as_stated. intros H.
  destruct (H eq_refl) as [R _]. vm_compute in R. discriminate R.
Qed.

(** C8, amended.  When the gateway does not confirm the payment, no file is
    written and no step of the document pipeline runs; the answer is the
    payment failure whenever [payment_id] and [resume_text] are both
    present, whatever else the text is, and the missing-input failure
    otherwise.  In every run, the steps of the pipeline (extraction,
    rendering, the file write, the mail) are logged only above a
    verification that confirmed the payment. *)
Theorem payment_gate :
  forall (w : World) (req : Request) (st : State),
    (unconfirmed w req ->
     resumes (snd (generate w req st)) = resumes st /\
     filter is_pipeline (log (snd (generate w req st))) = filter is_pipeline (log st) /\
     (missing (payment_id req) || missing (resume_text req) = false ->
      fst (generate w req st) = payment_unverified) /\
     (missing (payment_id req) || missing (resume_text req) = true ->
      fst (generate w req st) = missing_input)) /\
    (log (snd (generate w req st)) = log st \/
     exists evs,
       log (snd (generate w req st))
       = evs ++ VerifyPayment (value (payment_id req)) :: log st /\
       (evs <> [] -> confirms (gateway w (value (payment_id req))) = true)) /\
    (resumes (snd (generate w req st)) <> resumes st ->
     confirms (gateway w (value (payment_id req))) = true).
Proof.
  intros w req st.
  destruct (missing (payment_id req) || missing (resume_text req)) eqn:M.
  - rewrite (generate_missing w req st M). cbn [fst snd].
    split; [|split].
    + intros _. repeat split; try reflexivity. discriminate.
    + left. reflexivity.
    + intros D. exfalso. apply D. reflexivity.
  - destruct (confirms (gateway w (value (payment_id req)))) eqn:C.
    + split; [|split].
      * intros U. unfold unconfirmed in U. congruence.
      * right. unfold generate. rewrite M, C. cbn [negb].
        destruct (deliver_log w req (value (resume_text req))
                    (record (VerifyPayment (value (payment_id req))) st)) as (evs & E).
        exists evs. split; [exact E|]. reflexivity.
      * reflexivity.
    + rewrite (@generate_unconfirmed w req st M C). cbn [fst snd record resumes log].
      split; [|split].
      * intros _. repeat split; try reflexivity. discriminate.
      * right. exists []. split; [reflexivity|]. intros D. exfalso. apply D. reflexivity.
      * intros D. exfalso. apply D. reflexivity.
Qed.

(** The theorem at a request with a blank text and an unconfirmed payment. *)
Lemma payment_gate_witness :
  resumes (snd (generate refusing_world request_blank_text empty_state)) = [] /\
  fst (generate refusing_world request_blank_text empty_state) = payment_unverified.
Proof.
  destruct (payment_gate refusing_world request_blank_text empty_state) as [H _].
  destruct (H eq_refl) as (R & _ & P & _).
  split; [exact R | apply P; reflexivity].
Defined.

(** C9.  The page depends on the labeled text only through the six lookups
    NAME, CONTACT, SUMMARY, EXPERIENCE, EDUCATION and SKILLS; LANGUAGES is
    not among them and the template has no text for it; and when the
    languages value holds none of the six lookup labels followed by a colon,
    the page of a record is the page of the same record without its
    languages. *)
Theorem markup_ignores_languages :
  (forall t1 t2,
      (forall L, In L lookup_labels -> getSection t1 L = getSection t2 L) ->
      renderHtmlFromAiText t1 = renderHtmlFromAiText t2) /\
  ~ In (js "LANGUAGES") lookup_labels /\
  occurs (js "LANGUAGES") template_text = false /\
  (forall f : ExtractedFields,
      no_lookup_token (languages f) = true ->
      renderHtmlFromAiText (render f)
      = renderHtmlFromAiText (render (without_languages f))).
Proof.
  assert (A : forall t1 t2,
             (forall L, In L lookup_labels -> getSection t1 L = getSection t2 L) ->
             renderHtmlFromAiText t1 = renderHtmlFromAiText t2).
  { intros t1 t2 H. unfold renderHtmlFromAiText, sections.
    rewrite (H (js "NAME")), (H (js "CONTACT")), (H (js "SUMMARY")),
      (H (js "EXPERIENCE")), (H (js "EDUCATION")), (H (js "SKILLS"));
      try reflexivity;
      cbn [In lookup_labels]; repeat ((left; reflexivity) || right). }
  split; [exact A|].
  split.
  { cbn [In lookup_labels]. intros H.
    repeat (destruct H as [H|H]; [vm_compute in H; discriminate H|]). exact H. }
  split; [vm_compute; reflexivity|].
  intros f Hl. apply A. intros T HT.
  rewrite render_languages_last.
  destruct (render_ends_lf f) as (b & ->).
  unfold no_lookup_token in Hl. rewrite forallb_forall in Hl.
  pose proof (Hl T HT) as Ov. apply negb_true_iff in Ov.
  cbn [In lookup_labels] in HT.
  repeat (destruct HT as [<-|HT];
          [apply getSection_extra_line; solve [reflexivity | exact Ov]|]).
  destruct HT.
Qed.

(** The theorem at a record with a language. *)
Lemma markup_ignores_languages_witness :
  renderHtmlFromAiText (render well_formed_fields)
  = renderHtmlFromAiText (render (without_languages well_formed_fields)).
Proof.
  destruct markup_ignores_languages as (_ & _ & _ & H).
  apply (H well_formed_fields). vm_compute. reflexivity.
Defined.

(** C10, as stated, fails: a target role with a line break in it goes into
    the summary as it is, so for the resume ["hello"] the run with such a
    role returns two lines that start with [SKILLS: ] and that the run
    without a role does not have. *)
Lemma role_only_in_summary_line_fails :
  ~ role_only_in_summary_line (js "hello") (js "Modern Professional") role_with_label [].
Proof.
  intros (o1 & o2 & E1 & E2 & H).
  vm_compute in E1. vm_compute in E2.
  apply Ok_inj in E1. apply Ok_inj in E2. subst o1 o2.
  vm_compute in H. discriminate H.
Qed.

(** C10, amended.  For a text that is not blank, two runs that differ only
    in the target role extract the same name, contact, skills, experience,
    education and languages, and return texts that are equal before and
    after what is written for PROFESSIONAL SUMMARY.  A target role without a
    line break gives a summary without one; for two such roles the texts
    have the same lines except for the one PROFESSIONAL SUMMARY line. *)
Theorem target_role_only_in_summary :
  forall resumeText resumeType role1 role2,
    nonBlank resumeText = true ->
    exists f1 f2 before after,
      extract resumeText role1 = Ok f1 /\
      extract resumeText role2 = Ok f2 /\
      name f1 = name f2 /\ contact f1 = contact f2 /\ skills f1 = skills f2 /\
      experience f1 = experience f2 /\ education f1 = education f2 /\
      languages f1 = languages f2 /\
      improveResume resumeText resumeType role1
      = Ok (before ++ LF :: js "PROFESSIONAL SUMMARY: " ++ summary f1 ++ LF :: after) /\
      improveResume resumeText resumeType role2
      = Ok (before ++ LF :: js "PROFESSIONAL SUMMARY: " ++ summary f2 ++ LF :: after) /\
      (~ In LF role1 -> ~ In LF (summary f1)) /\
      (~ In LF role2 -> ~ In LF (summary f2)) /\
      (~ In LF role1 -> ~ In LF role2 ->
       lines_of (render f1)
       = lines_of before ++ (js "PROFESSIONAL SUMMARY: " ++ summary f1) :: lines_of after /\
       lines_of (render f2)
       = lines_of before ++ (js "PROFESSIONAL SUMMARY: " ++ summary f2) :: lines_of after /\
       role_only_in_summary_line resumeText resumeType role1 role2).
Proof.
  intros resumeText resumeType role1 role2 NB.
  destruct (extract_shape resumeText role1) as (k & e & d & l & su1 & Es1 & E1 & Eany).
  set (c := extract_contact resumeText) in *.
  destruct (extract_summary_defined resumeText role2) as (su2 & Es2).
  pose proof (Eany role2 su2 Es2) as E2.
  set (before := js "NAME: " ++ orDefault (extract_name resumeText) (js "Applicant")
                 ++ (if isEmpty c then [] else LF :: js "CONTACT" ++ js ": " ++ c)).
  set (after := optional_line (js "SKILLS") k
                ++ optional_line (js "WORK EXPERIENCE") e
                ++ optional_line (js "EDUCATION") d
                ++ optional_line (js "LANGUAGES") l).
  assert (R : forall su,
             render {| name := extract_name resumeText; contact := c; summary := su;
                       skills := k; experience := e; education := d; languages := l |}
             = before ++ LF :: js "PROFESSIONAL SUMMARY: " ++ su ++ LF :: after).
  { intros su. unfold render, before, after, optional_line at 1.
    cbn [name contact summary skills experience education languages].
    destruct (isEmpty c); rewrite <- !app_assoc; cbn [app];
      rewrite <- ?app_assoc; reflexivity. }
  exists {| name := extract_name resumeText; contact := c; summary := su1;
            skills := k; experience := e; education := d; languages := l |},
         {| name := extract_name resumeText; contact := c; summary := su2;
            skills := k; experience := e; education := d; languages := l |},
         before, after.
  cbn [name contact summary skills experience education languages].
  assert (I1 : improveResume resumeText resumeType role1
               = Ok (before ++ LF :: js "PROFESSIONAL SUMMARY: " ++ su1 ++ LF :: after)).
  { rewrite improveResume_nonblank by exact NB. rewrite E1. cbn [bind].
    rewrite R. reflexivity. }
  assert (I2 : improveResume resumeText resumeType role2
               = Ok (before ++ LF :: js "PROFESSIONAL SUMMARY: " ++ su2 ++ LF :: after)).
  { rewrite improveResume_nonblank by exact NB. rewrite E2. cbn [bind].
    rewrite R. reflexivity. }
  repeat (split; [first [exact E1 | exact E2 | exact I1 | exact I2 | reflexivity]|]).
  split; [apply (extract_summary_lf_free _ _ Es1)|].
  split; [apply (extract_summary_lf_free _ _ Es2)|].
  intros R1 R2.
  pose proof (extract_summary_lf_free _ _ Es1 R1) as S1.
  pose proof (extract_summary_lf_free _ _ Es2 R2) as S2.
  assert (L : forall su, ~ In LF su ->
              lines_of (before ++ LF :: js "PROFESSIONAL SUMMARY: " ++ su ++ LF :: after)
              = lines_of before ++ (js "PROFESSIONAL SUMMARY: " ++ su) :: lines_of after).
  { intros su Hsu. rewrite app_assoc. apply lines_around.
    apply lf_free_In. apply lf_free_app; [reflexivity | apply lf_free_In, Hsu]. }
  rewrite !R. split; [apply L, S1|]. split; [apply L, S2|].
  exists (before ++ LF :: js "PROFESSIONAL SUMMARY: " ++ su1 ++ LF :: after),
         (before ++ LF :: js "PROFESSIONAL SUMMARY: " ++ su2 ++ LF :: after).
  split; [exact I1|]. split; [exact I2|].
  rewrite !other_lines_around by assumption. reflexivity.
Qed.

(** The theorem at a resume with a name, with and without a target role. *)
Lemma target_role_only_in_summary_witness :
  role_only_in_summary_line (js "Name: Jane Doe") (js "Modern Professional")
    (js "Engineer") [].
Proof.
  destruct (target_role_only_in_summary (js "Name: Jane Doe") (js "Modern Professional")
              (js "Engineer") []) as (f1 & f2 & b & a & H);
    [vm_compute; reflexivity|].
  destruct H as (_ & _ & _ & _ & _ & _ & _ & _ & _ & _ & _ & _ & H).
  apply H; intros I; repeat (destruct I as [I|I]; [discriminate I|]); exact I.
Defined.

(* ================================================================== *)
(** * Further properties of the code *)
(* ================================================================== *)

(** X1.  The four sections as functions on the text.  Each section is read
    behind the first occurrence of its word, in any case and anywhere in
    the text, after the white space and colons that follow the word, and
    ends at the first line break that one of its closing labels follows or
    that ends the text; without such a line break it is empty.  The skills
    and the languages are its pieces between commas, semicolons and line
    breaks, trimmed and not empty, the first twelve for the skills; the
    education is its first three lines that are not blank; the experience
    is its first five blocks that are not blank, a block starting at a line
    break that a capital letter follows. *)
Theorem sections_read_from_text :
  forall (k : SectionKind) (resumeText : jsstring),
    extract_section k resumeText
    = Ok (section_field k
            (raw_section (section_word k) (section_stops k) resumeText)).
Proof.
  intros k t. apply extract_section_raw.
Qed.

(** X2.  The skills value is a list of at most twelve entries joined by a
    line break, a bullet and a space; no entry is empty, has white space at
    its ends, or holds a comma, a semicolon or a line break. *)
Theorem skills_entries_bounded :
  forall resumeText : jsstring,
    exists entries,
      extract_skills resumeText = Ok (join bullet_join entries) /\
      length entries <= 12 /\
      Forall (fun e => e <> [] /\ trim e = e /\
                       forallb (fun c => negb (is_list_sep c)) e = true) entries.
Proof.
  intros t. unfold extract_skills.
  destruct (section_raw_defined skills_re t eq_refl) as (raw & ->). cbn [bind].
  eexists. split; [reflexivity|]. split.
  - apply firstn_length_bound.
  - apply Forall_firstn, list_entries_shape.
Qed.

(** X3.  The education value is a list of at most three lines joined by a
    line break, a bullet and a space; every line is kept as it is in the
    text, is not blank and holds no line break. *)
Theorem education_lines_bounded :
  forall resumeText : jsstring,
    exists lines,
      extract_education resumeText = Ok (join bullet_join lines) /\
      length lines <= 3 /\
      Forall (fun l => nonBlank l = true /\
                       forallb (fun c => negb (N.eqb c LF)) l = true) lines.
Proof.
  intros t. unfold extract_education.
  destruct (section_raw_defined education_re t eq_refl) as (raw & ->). cbn [bind].
  eexists. split; [reflexivity|]. split.
  - apply firstn_length_bound.
  - apply Forall_firstn. rewrite split_str_char.
    eapply Forall_impl;
      [|apply (Forall_filter_keep nonBlank
                 (pieces_sep_free (fun c => N.eqb c LF) raw [] eq_refl))].
    intros l [H1 H2]. split; assumption.
Qed.

(** X4.  The experience value is made of at most five entries, none of
    them blank; every line of the value starts with a bullet or with the
    indent [  - ] and holds no line break, and a value that is not empty
    starts with a bullet and a space. *)
Theorem experience_lines_shape :
  forall resumeText : jsstring,
    exists entries lines,
      extract_experience resumeText = Ok (join [LF] (map format_entry entries)) /\
      length entries <= 5 /\
      Forall (fun e => nonBlank e = true) entries /\
      join [LF] (map format_entry entries) = join [LF] lines /\
      Forall entry_line lines /\
      (entries <> [] ->
       startsWith bullet_prefix (join [LF] (map format_entry entries)) = true).
Proof.
  intros t. unfold extract_experience.
  destruct (section_raw_defined experience_re t eq_refl) as (raw & ->). cbn [bind].
  set (entries := firstn 5 (filter nonBlank (split false entry_start_re raw))).
  assert (NB : Forall (fun e => nonBlank e = true) entries).
  { apply Forall_firstn. apply Forall_forall. intros e H.
    apply filter_In in H. apply H. }
  exists entries,
    (concat (map (fun e => mapi entry_line_of (split_str [LF] (trim e))) entries)).
  split; [reflexivity|]. split; [apply firstn_length_bound|]. split; [exact NB|].
  split; [|split].
  - rewrite <- join_groups.
    + rewrite map_map. reflexivity.
    + apply Forall_map. apply Forall_forall. intros e _. apply format_entry_shape.
  - apply Forall_concat. apply Forall_map. apply Forall_forall. intros e _.
    apply format_entry_shape.
  - intros Hne. destruct entries as [|e es]; [congruence|].
    inversion NB as [|? ? He _]; subst.
    cbn [map]. apply startsWith_join, format_entry_bullet, He.
Qed.

(** X5.  The languages value is a list of entries joined by a comma and a
    space; no entry is empty, has white space at its ends, or holds a
    comma, a semicolon or a line break. *)
Theorem languages_entries_shape :
  forall resumeText : jsstring,
    exists entries,
      extract_languages resumeText = Ok (join (js ", ") entries) /\
      Forall (fun e => e <> [] /\ trim e = e /\
                       forallb (fun c => negb (is_list_sep c)) e = true) entries.
Proof.
  intros t. unfold extract_languages.
  destruct (section_raw_defined languages_re t eq_refl) as (raw & ->). cbn [bind].
  eexists. split; [reflexivity|]. apply list_entries_shape.
Qed.

(** X6.  A section that starts a line is found as written: when the text
    before the label does not read the word of the section, the label is
    followed by white space or colons and then by a content that starts
    with another character and has no line starting with a closing label,
    and behind the content comes a line break that a closing label follows
    or that ends the text, then the field is made from exactly this
    content. *)
Theorem labeled_section_found :
  forall (k : SectionKind) (before Label sp v rest : jsstring),
    reads (section_word k) Label = true ->
    line_start before = true ->
    occurs (section_word k) before = false ->
    forallb is_ws_colon sp = true ->
    starts_plain v = true ->
    stop_free (section_stops k) v = true ->
    section_stop (section_stops k) (LF :: rest) = true ->
    extract_section k (before ++ Label ++ sp ++ v ++ LF :: rest)
    = Ok (section_field k v).
Proof.
  intros k before Label sp v rest R LS O Hsp Hv Sf St.
  rewrite extract_section_raw.
  unfold reads in R. apply andb_true_iff in R. destruct R as [M Len].
  apply Nat.eqb_eq in Len.
  destruct (section_labels_no_lf k) as [F HL].
  rewrite (@raw_section_found (section_word k) (section_stops k) before Label sp v rest
             F HL M Len LS O Hsp Hv Sf St).
  reflexivity.
Qed.

(** The theorem at an experience section of two lines between a name line
    and an education heading. *)
Lemma labeled_section_found_witness :
  extract_section Experience
    (js "Name: Jane Doe
" ++ js "Experience" ++ [LF] ++ js "Engineer at Acme
Built systems" ++ LF :: js "Education
BSc CS
")
  = Ok (section_field Experience (js "Engineer at Acme
Built systems")).
Proof.
  apply (@labeled_section_found Experience); reflexivity.
Defined.

(** X7.  The summary as a function on the text.  The objective is read
    behind the first [objective] or [summary], in any case and anywhere in
    the text, after the white space and colons that follow it, up to the
    next line break; it is empty when no line break follows.  An objective
    of more than five characters, trimmed, is the summary; otherwise the
    summary is the synthesized sentence.  The career goal is appended when
    a target role is given and the summary does not read [role]. *)
Theorem summary_read_from_text :
  forall resumeText targetRole : jsstring,
    extract_summary resumeText targetRole
    = Ok (with_career_goal targetRole
            (if 5 <? length (objective_text resumeText)
             then trim (objective_text resumeText)
             else default_summary targetRole)).
Proof.
  intros t role. apply extract_summary_text.
Qed.

(** X8.  An objective line is found as written: when the text before an
    [Objective] or [Summary] label that starts a line reads neither word,
    and the label is followed by white space or colons and then by more
    than five characters up to the end of the line, the summary is this
    rest of the line, trimmed, with the career goal when it applies. *)
Theorem objective_line_found :
  forall (before Label sp v rest targetRole : jsstring),
    objective_here Label = Some [] ->
    line_start before = true ->
    occurs (js "objective") before = false ->
    occurs (js "summary") before = false ->
    forallb is_ws_colon sp = true ->
    starts_plain v = true ->
    forallb (fun c => negb (N.eqb c LF)) v = true ->
    5 < length v ->
    extract_summary (before ++ Label ++ sp ++ v ++ LF :: rest) targetRole
    = Ok (with_career_goal targetRole (trim v)).
Proof.
  intros before Label sp v rest role HL LS O S Hsp Hv Nl Len.
  rewrite extract_summary_text.
  rewrite (@objective_text_found before Label sp v rest HL LS O S Hsp Hv Nl).
  apply Nat.ltb_lt in Len. rewrite Len. reflexivity.
Qed.

(** The theorem at a summary line between a name line and a skills line. *)
Lemma objective_line_found_witness :
  extract_summary
    (js "Name: Jane Doe
" ++ js "SUMMARY" ++ js ": " ++ js "Backend engineer, ten years " ++ LF :: js "Skills: Go
")
    (js "Staff Engineer")
  = Ok (with_career_goal (js "Staff Engineer") (trim (js "Backend engineer, ten years "))).
Proof.
  apply (@objective_line_found (js "Name: Jane Doe
") (js "SUMMARY") (js ": ") (js "Backend engineer, ten years ")); try reflexivity.
  cbn. lia.
Defined.

(** X9.  When a target role is given, the summary reads [role]: either it
    did before the career goal was considered, or the career goal, which
    does, has been appended. *)
Theorem summary_mentions_role :
  forall resumeText targetRole : jsstring,
    targetRole <> [] ->
    exists summary,
      extract_summary resumeText targetRole = Ok summary /\
      includes (js "role") summary = true.
Proof.
  intros t role Hr. rewrite extract_summary_text.
  eexists. split; [reflexivity|].
  unfold with_career_goal.
  set (s1 := if 5 <? length (objective_text t) then trim (objective_text t)
             else default_summary role).
  destruct (includes (js "role") s1) eqn:I; cbn [negb andb]; [exact I|].
  destruct role as [|c role]; [congruence|]. cbn [nonEmpty isEmpty negb].
  apply includes_app_l, includes_app_l, includes_app_l.
  change (js " role to apply technical skills and contribute to organizational growth.")
    with ([SPACE] ++ js "role" ++ js " to apply technical skills and contribute to organizational growth.").
  apply includes_embedded.
Qed.

(** The theorem at a resume without an objective. *)
Lemma summary_mentions_role_witness :
  exists summary,
    extract_summary (js "hello") (js "Engineer") = Ok summary /\
    includes (js "role") summary = true.
Proof.
  apply (@summary_mentions_role (js "hello") (js "Engineer")). discriminate.
Defined.

(** X10.  The name is made of ASCII letters and white space only and has
    no white space at its ends, whatever the text: a name with a hyphen, a
    digit or an accented letter is never extracted as it is written. *)
Theorem name_letters_only :
  forall resumeText : jsstring,
    forallb name_char (extract_name resumeText) = true /\
    trim (extract_name resumeText) = extract_name resumeText.
Proof.
  intros t. unfold extract_name.
  destruct (exec false name_re t) as [m|] eqn:E; [|split; reflexivity].
  destruct (@name_group t 0 m E) as (g & -> & F).
  destruct (isEmpty g); [split; reflexivity|].
  split; [apply forallb_trim, F | apply trim_idem].
Qed.

(** X11.  A name line is found as written: when the text before a [Name]
    or [name] label that starts a line reads neither of the two, and the
    label is followed by white space or colons and then by a name of
    letters and spaces that a line break, a comma or the end of the text
    follows, this name is extracted. *)
Theorem name_line_found :
  forall (before Label sp v t : jsstring),
    Label = js "Name" \/ Label = js "name" ->
    line_start before = true ->
    includes (js "Name") before = false ->
    includes (js "name") before = false ->
    forallb is_ws_colon sp = true ->
    v <> [] -> trim v = v -> forallb name_letter v = true ->
    name_end t = true ->
    extract_name (before ++ Label ++ sp ++ v ++ t) = v.
Proof.
  intros before Label sp v t HL LS N1 N2 Hsp Hv Tv F E.
  destruct (@name_line_match Label sp v t HL Hsp Hv Tv F E) as (rest & M).
  destruct (@exec_from_skip false name_re before (Label ++ sp ++ v ++ t) 0
              (@name_skip before _ LS N1 N2)) as (j & J).
  destruct (@exec_from_here_m1 false name_re _ j _ _ M) as (m & Em & Hm).
  unfold extract_name, exec. rewrite J, Em, Hm.
  destruct v as [|c v]; [congruence|]. cbn [isEmpty]. exact Tv.
Qed.

(** The theorem at a name line below a title, followed by a comma. *)
Lemma name_line_found_witness :
  extract_name (js "Curriculum vitae
" ++ js "Name" ++ js ": " ++ js "Jane Doe" ++ js ", Engineer") = js "Jane Doe".
Proof.
  apply (@name_line_found (js "Curriculum vitae
") (js "Name") (js ": ") (js "Jane Doe") (js ", Engineer"));
    try reflexivity.
  - left. reflexivity.
  - discriminate.
Defined.


(** X13.  Four digits in a row anywhere in the text, such as a year or a
    postal code, are enough for the phone pattern: the contact of such a
    text is never empty. *)
Theorem four_digits_make_a_phone :
  forall (before after : jsstring) (d1 d2 d3 d4 : char),
    isDigit d1 = true -> isDigit d2 = true -> isDigit d3 = true -> isDigit d4 = true ->
    exec false phone_re (before ++ d1 :: d2 :: d3 :: d4 :: after) <> None /\
    extract_contact (before ++ d1 :: d2 :: d3 :: d4 :: after) <> [].
Proof.
  intros before after d1 d2 d3 d4 D1 D2 D3 D4.
  assert (E : exec false phone_re (before ++ d1 :: d2 :: d3 :: d4 :: after) <> None).
  { apply exec_from_found. apply phone_at_digits; assumption. }
  split; [exact E|].
  unfold extract_contact, exec. unfold exec in E.
  destruct (exec_from false phone_re 0 (before ++ d1 :: d2 :: d3 :: d4 :: after))
    as [mp|] eqn:Ep; [|congruence].
  destruct (@phone_group _ 0 mp Ep) as (p & -> & _ & Lp).
  destruct p as [|c p]; [cbn [length] in Lp; lia|].
  destruct (isEmpty _); [discriminate|].
  intros H. apply app_eq_nil in H. destruct H as [_ H]. discriminate H.
Qed.

(** The theorem at a resume whose only digits are a year. *)
Lemma four_digits_make_a_phone_witness :
  exec false phone_re (js "Engineer at Acme since " ++ ch "2" :: ch "0" :: ch "1" :: ch "9" :: js ".")
  <> None /\
  extract_contact (js "Engineer at Acme since " ++ ch "2" :: ch "0" :: ch "1" :: ch "9" :: js ".")
  <> [].
Proof.
  apply (@four_digits_make_a_phone (js "Engineer at Acme since ") (js ".")); reflexivity.
Defined.

(** X14.  A text in which none of the six lookup labels occurs with its
    colon, in any case, gives the default page: the name [Applicant] in the
    title and the heading, and five empty blocks. *)
Theorem page_without_labels :
  forall aiText : jsstring,
    no_lookup_token aiText = true ->
    renderHtmlFromAiText aiText = default_page.
Proof.
  intros t H. unfold no_lookup_token in H. rewrite forallb_forall in H.
  assert (A : forall L, In L lookup_labels -> getSection t L = []).
  { intros L HL. apply getSection_absent. apply negb_true_iff, H, HL. }
  unfold renderHtmlFromAiText, sections, default_page.
  rewrite !A by (cbn [In lookup_labels]; repeat ((left; reflexivity) || right)).
  reflexivity.
Qed.

(** The theorem at a text without labels. *)
Lemma page_without_labels_witness :
  renderHtmlFromAiText (js "Jane Doe, backend engineer") = default_page.
Proof.
  apply (@page_without_labels (js "Jane Doe, backend engineer")). reflexivity.
Defined.

(** X15.  Whatever the text, each of the six values that the page embeds
    has no white space at its ends and holds no line break that letters and
    a colon follow. *)
Theorem page_values_clean :
  forall aiText : jsstring,
    Forall (fun v => trim v = v /\ break_free v = true)
           (section_values (sections aiText)).
Proof.
  intros t. unfold section_values, sections.
  cbn [s_name s_contact s_summary s_experience s_education s_skills].
  assert (D : forall L d, (trim d = d /\ break_free d = true) ->
                          trim (orDefault (getSection t L) d) = orDefault (getSection t L) d /\
                          break_free (orDefault (getSection t L) d) = true).
  { intros L d Hd. unfold orDefault.
    destruct (isEmpty (getSection t L)); [exact Hd | apply getSection_clean]. }
  repeat constructor; apply D; split; reflexivity.
Qed.

(** X16.  The test path: a missing or empty [resume_text] is answered with
    status 400; a text of white space only with status 500 and the message
    of [improveResume]; every other text with the labeled text that
    [improveResume] returns, which starts with the NAME line. *)
Theorem test_generate_answers :
  forall req : Request,
    (missing (resume_text req) = true -> test_generate req = missing_text) /\
    (missing (resume_text req) = false ->
     nonBlank (value (resume_text req)) = false ->
     test_generate req = TestFailure 500 (js "Resume text cannot be empty")) /\
    (missing (resume_text req) = false ->
     nonBlank (value (resume_text req)) = true ->
     exists aiText,
       test_generate req = TestSuccess aiText /\
       generated_text req = Ok aiText /\
       startsWith (js "NAME: ") aiText = true).
Proof.
  intros req. unfold test_generate. fold (generated_text req).
  split; [intros ->; reflexivity|]. split.
  - intros -> NB. rewrite (generated_text_blank req NB). reflexivity.
  - intros -> NB. destruct (generated_text_nonblank req NB) as (f & ->).
    exists (render f). repeat split.
Qed.

(** X17.  The generate handler answers with a download reference exactly
    when the payment id and the text are there, the gateway confirms the
    payment, the text is not blank, the engine returns a buffer for the
    page, and HOST_URL is set.  The reference is then HOST_URL without its
    final slash, [/download/] and the file name; the file written under
    [resumes/] holds the buffer that the engine returned for the page of
    the very text that the test path answers with.  (The file write
    itself is taken to succeed.) *)
Theorem generate_success :
  forall (w : World) (req : Request) (st : State),
    ((exists url, fst (generate w req st) = Success url) <->
     (missing (payment_id req) || missing (resume_text req) = false /\
      confirms (gateway w (value (payment_id req))) = true /\
      nonBlank (value (resume_text req)) = true /\
      (exists aiText pdf,
          generated_text req = Ok aiText /\
          htmlToPdfBuffer w (renderHtmlFromAiText aiText) = Ok pdf) /\
      HOST_URL w <> None)) /\
    (forall url,
        fst (generate w req st) = Success url ->
        exists aiText pdf host,
          test_generate req = TestSuccess aiText /\
          htmlToPdfBuffer w (renderHtmlFromAiText aiText) = Ok pdf /\
          HOST_URL w = Some host /\
          url = strip_final_slash host ++ js "/download/" ++ fileName w /\
          resumes (snd (generate w req st))
          = (js "resumes/" ++ fileName w, pdf) :: resumes st).
Proof.
  intros w req st. split; [split|].
  - intros (url & E).
    destruct (generate_success_inv w req st E)
      as (M & C & aiText & pdf & host & G & P & H & _ & _).
    split; [exact M|]. split; [exact C|]. split.
    + destruct (nonBlank (value (resume_text req))) eqn:NB; [reflexivity|].
      rewrite (generated_text_blank req NB) in G. discriminate G.
    + split; [exists aiText, pdf; split; assumption|]. rewrite H. discriminate.
  - intros (M & C & _ & (aiText & pdf & G & P) & H).
    destruct (HOST_URL w) as [host|] eqn:Eh; [|congruence].
    eexists. apply (generate_success_when w req st M C G P Eh).
  - intros url E.
    destruct (generate_success_inv w req st E)
      as (M & C & aiText & pdf & host & G & P & H & U & R).
    exists aiText, pdf, host.
    split; [|repeat split; assumption].
    unfold test_generate. fold (generated_text req).
    apply orb_false_iff in M. destruct M as [_ ->]. rewrite G. reflexivity.
Qed.

(** X18.  What a failure answer of the generate handler tells.  Status 400
    is the missing-input answer or the payment answer, and leaves no file.
    Status 500 is given only after a confirmed payment; its text asks to
    paste the resume when the text is blank or the engine failed with a
    message that reads [empty], reports a payment failure only when the
    engine failed with a message that reads [Payment not verified], and is
    the general one otherwise. *)
Theorem generate_failure :
  forall (w : World) (req : Request) (st : State) (status : nat) (msg : jsstring),
    fst (generate w req st) = Failure status msg ->
    (status = 400 /\ resumes (snd (generate w req st)) = resumes st /\
     ((msg = js "Missing payment_id or resume_text" /\
       missing (payment_id req) || missing (resume_text req) = true) \/
      (msg = js "Payment not verified" /\
       confirms (gateway w (value (payment_id req))) = false))) \/
    (status = 500 /\
     confirms (gateway w (value (payment_id req))) = true /\
     ((msg = paste_message /\
       (nonBlank (value (resume_text req)) = false \/ engine_says w (js "empty"))) \/
      (msg = payment_message /\ engine_says w (js "Payment not verified")) \/
      msg = generic_message)).
Proof.
  intros w req st status msg.
  assert (OE : forall e : Exception,
             on_error e = Failure status msg ->
             status = 500 /\
             ((msg = paste_message /\ includes (js "empty") (message e) = true) \/
              (msg = payment_message /\
               includes (js "Payment not verified") (message e) = true) \/
              msg = generic_message)).
  { intros e. unfold on_error.
    destruct (includes (js "empty") (message e)) eqn:I1.
    - intros H. injection H as <- <-. split; [reflexivity|]. left. split; reflexivity.
    - destruct (includes (js "Payment not verified") (message e)) eqn:I2;
        intros H; injection H as <- <-; (split; [reflexivity|]); right;
        [left; split; reflexivity | right; reflexivity]. }
  unfold generate.
  destruct (missing (payment_id req) || missing (resume_text req)) eqn:M.
  { cbn [fst snd]. intros H. injection H as <- <-. left.
    split; [reflexivity|]. split; [reflexivity|]. left. split; reflexivity. }
  destruct (confirms (gateway w (value (payment_id req)))) eqn:C; cbn [negb].
  2:{ cbn [fst snd]. intros H. injection H as <- <-. left.
      split; [reflexivity|]. split; [reflexivity|]. right. split; reflexivity. }
  unfold deliver. fold (generated_text req).
  destruct (nonBlank (value (resume_text req))) eqn:NB.
  - destruct (generated_text_nonblank req NB) as (f & ->).
    destruct (htmlToPdfBuffer w (renderHtmlFromAiText (render f))) as [pdf|e] eqn:P.
    + destruct (HOST_URL w); cbn [fst]; [discriminate|].
      intros H. apply OE in H. destruct H as (-> & [[-> I]|[[-> I]| ->]]).
      * vm_compute in I. discriminate I.
      * vm_compute in I. discriminate I.
      * right. split; [reflexivity|]. split; [reflexivity|]. right. right. reflexivity.
    + cbn [fst]. intros H. apply OE in H.
      destruct H as (-> & [[-> I]|[[-> I]| ->]]); right;
        (split; [reflexivity|]); (split; [reflexivity|]).
      * left. split; [reflexivity|]. right.
        destruct e as [m|]; [|vm_compute in I; discriminate I].
        exists (renderHtmlFromAiText (render f)), m. split; [exact P | exact I].
      * right. left. split; [reflexivity|].
        destruct e as [m|]; [|vm_compute in I; discriminate I].
        exists (renderHtmlFromAiText (render f)), m. split; [exact P | exact I].
      * right. right. reflexivity.
  - rewrite (generated_text_blank req NB). cbn [fst]. intros H.
    vm_compute in H. injection H as <- <-. right.
    split; [reflexivity|]. split; [reflexivity|]. left. split; [reflexivity|].
    left. reflexivity.
Qed.

(** The theorem at a confirmed payment with a blank text. *)
Lemma generate_failure_witness :
  fst (generate (accepting_world (Some (js "https://host/"))) request_blank_text empty_state)
  = Failure 500 paste_message /\
  confirms (gateway (accepting_world (Some (js "https://host/")))
              (value (payment_id request_blank_text))) = true.
Proof.
  assert (E : fst (generate (accepting_world (Some (js "https://host/")))
                     request_blank_text empty_state)
              = Failure 500 paste_message) by (vm_compute; reflexivity).
  split; [exact E|].
  destruct (@generate_failure _ _ _ _ _ E) as [[D _]|[_ [C _]]];
    [discriminate D | exact C].
Defined.

(** X19.  When HOST_URL is not set, no request is answered with a download
    reference; a request that passes the payment check and whose page the
    engine renders is answered with status 500 and the general message,
    although its file has been written. *)
Theorem host_unset_fails_after_write :
  forall (w : World) (req : Request) (st : State),
    HOST_URL w = None ->
    (forall url, fst (generate w req st) <> Success url) /\
    (forall aiText pdf,
        missing (payment_id req) || missing (resume_text req) = false ->
        confirms (gateway w (value (payment_id req))) = true ->
        generated_text req = Ok aiText ->
        htmlToPdfBuffer w (renderHtmlFromAiText aiText) = Ok pdf ->
        fst (generate w req st) = Failure 500 generic_message /\
        resumes (snd (generate w req st))
        = (js "resumes/" ++ fileName w, pdf) :: resumes st).
Proof.
  intros w req st H. split.
  - intros url E.
    destruct (generate_success_inv w req st E)
      as (_ & _ & aiText & pdf & host & _ & _ & Hh & _).
    congruence.
  - intros aiText pdf M C G P. rewrite (generate_confirmed w req st M C).
    unfold deliver. fold (generated_text req). rewrite G, P, H.
    split; [reflexivity|].
    destruct (email req) as [to|]; [destruct (smtp_configured w && nonEmpty to)|];
      reflexivity.
Qed.

(** The theorem at a confirmed payment and a resume, without HOST_URL. *)
Lemma host_unset_fails_after_write_witness :
  fst (generate (accepting_world None) request_with_resume empty_state)
  = Failure 500 generic_message /\
  length (resumes (snd (generate (accepting_world None) request_with_resume empty_state)))
  = 1.
Proof.
  destruct (@host_unset_fails_after_write (accepting_world None) request_with_resume
              empty_state eq_refl) as [_ H].
  destruct (generated_text_nonblank request_with_resume eq_refl) as (f & G).
  destruct (H (render f) (renderHtmlFromAiText (render f)) eq_refl eq_refl G eq_refl)
    as [A B].
  split; [exact A | rewrite B; reflexivity].
Defined.

(** X20.  The mail is optional and comes last: a mail is sent only when
    SMTP is configured and the request names a recipient, to that
    recipient, with the file that has just been written, and it is the
    last step of the run; neither the answer nor the files depend on the
    recipient or on the mail configuration. *)
Theorem mail_after_write :
  forall (w : World) (req : Request) (st : State),
    (exists evs,
        log (snd (generate w req st)) = evs ++ log st /\
        (forall to path,
            In (SendMail to path) evs ->
            smtp_configured w = true /\ email req = Some to /\ to <> [] /\
            path = js "resumes/" ++ fileName w /\
            exists pdf earlier,
              evs = SendMail to path :: WriteFile path pdf :: earlier)) /\
    (forall (e : field) (configured : bool),
        fst (generate (with_smtp w configured) (with_email req e) st)
        = fst (generate w req st) /\
        resumes (snd (generate (with_smtp w configured) (with_email req e) st))
        = resumes (snd (generate w req st))).
Proof.
  intros w req st. split.
  - unfold generate.
    destruct (missing (payment_id req) || missing (resume_text req)).
    { exists []. split; [reflexivity|]. intros to path []. }
    destruct (confirms (gateway w (value (payment_id req)))); cbn [negb].
    2:{ exists [VerifyPayment (value (payment_id req))]. split; [reflexivity|].
        intros to path [H|[]]. discriminate H. }
    unfold deliver. fold (generated_text req).
    destruct (generated_text req) as [aiText|e].
    2:{ eexists [_; _]. split; [reflexivity|].
        intros to path [H|[H|[]]]; discriminate H. }
    destruct (htmlToPdfBuffer w (renderHtmlFromAiText aiText)) as [pdf|e].
    2:{ eexists [_; _; _; _]. split; [reflexivity|].
        intros to path [H|[H|[H|[H|[]]]]]; discriminate H. }
    assert (A : exists evs,
               log (match email req with
                    | Some to =>
                        if smtp_configured w && nonEmpty to
                        then record (SendMail to (js "resumes/" ++ fileName w))
                               (writeFileSync (js "resumes/" ++ fileName w) pdf
                                  (record (RenderPdf (renderHtmlFromAiText aiText))
                                     (record (RenderHtml aiText)
                                        (record (ImproveResume (value (resume_text req)))
                                           (record (VerifyPayment (value (payment_id req)))
                                              st)))))
                        else writeFileSync (js "resumes/" ++ fileName w) pdf
                               (record (RenderPdf (renderHtmlFromAiText aiText))
                                  (record (RenderHtml aiText)
                                     (record (ImproveResume (value (resume_text req)))
                                        (record (VerifyPayment (value (payment_id req)))
                                           st))))
                    | None => writeFileSync (js "resumes/" ++ fileName w) pdf
                                (record (RenderPdf (renderHtmlFromAiText aiText))
                                   (record (RenderHtml aiText)
                                      (record (ImproveResume (value (resume_text req)))
                                         (record (VerifyPayment (value (payment_id req)))
                                            st))))
                    end) = evs ++ log st /\
               (forall to path,
                   In (SendMail to path) evs ->
                   smtp_configured w = true /\ email req = Some to /\ to <> [] /\
                   path = js "resumes/" ++ fileName w /\
                   exists pdf0 earlier,
                     evs = SendMail to path :: WriteFile path pdf0 :: earlier)).
    { destruct (email req) as [to|].
      - destruct (smtp_configured w) eqn:S; cbn [andb].
        + destruct to as [|c to]; cbn [nonEmpty isEmpty negb].
          * eexists [_; _; _; _; _]. split; [reflexivity|].
            intros t p [H|[H|[H|[H|[H|[]]]]]]; discriminate H.
          * eexists [_; _; _; _; _; _]. split; [reflexivity|].
            intros t p [H|[H|[H|[H|[H|[H|[]]]]]]]; try discriminate H.
            injection H as <- <-.
            split; [reflexivity|]. split; [reflexivity|]. split; [discriminate|].
            split; [reflexivity|]. eexists _, _. reflexivity.
        + eexists [_; _; _; _; _]. split; [reflexivity|].
          intros t p [H|[H|[H|[H|[H|[]]]]]]; discriminate H.
      - eexists [_; _; _; _; _]. split; [reflexivity|].
        intros t p [H|[H|[H|[H|[H|[]]]]]]; discriminate H. }
    destruct (HOST_URL w); exact A.
  - intros e configured. unfold generate. cbn [payment_id resume_text with_email].
    destruct (missing (payment_id req) || missing (resume_text req));
      [split; reflexivity|].
    cbn [gateway with_smtp].
    destruct (confirms (gateway w (value (payment_id req)))); cbn [negb];
      [|split; reflexivity].
    unfold deliver.
    cbn [resume_type target_role email with_email htmlToPdfBuffer fileName HOST_URL
           smtp_configured with_smtp].
    destruct (improveResume _ _ _) as [aiText|err]; [|split; reflexivity].
    destruct (htmlToPdfBuffer w (renderHtmlFromAiText aiText)) as [pdf|err];
      [|split; reflexivity].
    destruct (HOST_URL w); (split; [reflexivity|]);
      destruct e as [to|]; destruct (email req) as [to'|];
      try destruct (configured && nonEmpty to);
      try destruct (smtp_configured w && nonEmpty to'); reflexivity.
Qed.

(** X21.  A generated file can be fetched: after a request that is answered
    with a download reference, the download handler finds the file under
    the name that the reference ends with, and the file holds the buffer
    that the engine returned for the page of the request's text. *)
Theorem download_after_generate :
  forall (w : World) (req : Request) (st : State) (before : jsstring -> bool)
         (url now uuid : jsstring),
    fileName w = artifact_name now uuid ->
    forallb isDigit now = true ->
    forallb uuid_char uuid = true ->
    fst (generate w req st) = Success url ->
    download (existsSync before (snd (generate w req st))) (fileName w)
    = SendFile (js "resumes/" ++ fileName w) /\
    (exists aiText pdf,
        stored (resumes (snd (generate w req st))) (js "resumes/" ++ fileName w) = Some pdf /\
        generated_text req = Ok aiText /\
        htmlToPdfBuffer w (renderHtmlFromAiText aiText) = Ok pdf) /\
    (exists host, url = host ++ js "/download/" ++ fileName w).
Proof.
  intros w req st before url now uuid N Hn Hu E.
  destruct (generate_success_inv w req st E)
    as (_ & _ & aiText & pdf & host & G & P & _ & U & R).
  assert (Pl : plain_name (fileName w) = true)
    by (rewrite N; apply artifact_name_plain; assumption).
  split; [|split].
  - unfold download, existsSync. rewrite (path_join_plain _ Pl), R.
    cbn [existsb fst]. rewrite str_eqb_refl. reflexivity.
  - exists aiText, pdf. rewrite R. cbn [stored]. rewrite str_eqb_refl.
    repeat split; assumption.
  - exists (strip_final_slash host). exact U.
Qed.

(** The theorem at a confirmed payment and a resume. *)
Lemma download_after_generate_witness :
  download
    (existsSync (fun _ => false)
       (snd (generate (accepting_world (Some (js "https://host/")))
               request_with_resume empty_state)))
    (fileName (accepting_world (Some (js "https://host/"))))
  = SendFile (js "resumes/" ++ fileName (accepting_world (Some (js "https://host/")))).
Proof.
  apply (@download_after_generate
           (accepting_world (Some (js "https://host/"))) request_with_resume empty_state
           (fun _ => false)
           (js "https://host/download/1700000000000_3f2b8c1e-9a4d-4c6f-8e2a-5b7d9c0e1f23.pdf")
           (js "1700000000000") (js "3f2b8c1e-9a4d-4c6f-8e2a-5b7d9c0e1f23"));
    vm_compute; reflexivity.
Defined.

(** X22.  A route parameter without a [..] segment never leads outside the
    directory: the path that the download handler looks up and hands to
    [res.download] is [resumes] or lies below it. *)
Theorem download_stays_in_resumes :
  forall (exists_ : jsstring -> bool) (file path : jsstring),
    no_parent_segment file = true ->
    download exists_ file = SendFile path ->
    in_resumes path = true /\ exists_ path = true.
Proof.
  intros ex file path H. unfold download.
  destruct (ex (path_join (js "resumes") file)) eqn:E; [|discriminate].
  intros D. injection D as <-. split; [apply path_join_inside, H | exact E].
Qed.

(** The theorem at a plain file name. *)
Lemma download_stays_in_resumes_witness :
  in_resumes (js "resumes/a.pdf") = true /\ (fun _ : jsstring => true) (js "resumes/a.pdf") = true.
Proof.
  apply (@download_stays_in_resumes (fun _ => true) (js "a.pdf") (js "resumes/a.pdf"));
    reflexivity.
Defined.

(** X23.  A route parameter that starts with [../] leads outside the
    directory: for every plain file name, the download handler looks the
    name up in the working directory and, when a file of this name is
    there, hands it to [res.download]. *)
Theorem download_leaves_resumes :
  forall (exists_ : jsstring -> bool) (n : jsstring),
    plain_name n = true ->
    download exists_ (js "../" ++ n) = if exists_ n then SendFile n else NotFound.
Proof.
  intros ex n P. unfold download. rewrite (path_join_parent _ P). reflexivity.
Qed.

(** The theorem at the source file of the server. *)
Lemma download_leaves_resumes_witness :
  download (fun p => str_eqb p (js "server.js")) (js "../server.js")
  = SendFile (js "server.js").
Proof.
  apply (@download_leaves_resumes (fun p => str_eqb p (js "server.js")) (js "server.js")).
  reflexivity.
Defined.

(** X24.  The webhook cannot be made to fail by a body that is an object,
    an array or any other value but [null]: whatever members are missing
    or of another type, the answer is 200 [ok]; the console line is written
    only for the event [payment.captured]. *)
Theorem webhook_answers :
  forall (number : Type) (nonzero : number -> bool) (payload : Value number),
    (payload <> VUndefined -> payload <> VNull ->
     fst (webhook nonzero payload) = (200, js "ok")) /\
    (snd (webhook nonzero payload) <> None ->
     get (js "event") payload = Ok (VString (js "payment.captured"))) /\
    (payload = VUndefined \/ payload = VNull ->
     webhook nonzero payload = ((500, js "error"), None)).
Proof.
  intros number nonzero payload.
  assert (G : forall key (x : Value number),
             truthy nonzero x = true -> exists v, get key x = Ok v).
  { intros key x T. destruct x; try discriminate T; eexists; reflexivity. }
  assert (B : forall e, get (js "event") payload = Ok e ->
                        exists line, webhook_body nonzero payload = Ok line /\
                                     (line <> None -> is_captured e = true)).
  { intros e Ee. unfold webhook_body. rewrite Ee. cbn [bind].
    destruct (is_captured e) eqn:Ce; [|exists None; split; [reflexivity | congruence]].
    assert (Gp : exists p, get (js "payload") payload = Ok p)
      by (destruct payload; try discriminate Ee; eexists; reflexivity).
    destruct Gp as (p & ->). cbn [bind].
    destruct (truthy nonzero p) eqn:Tp; [|exists None; split; [reflexivity | congruence]].
    destruct (G (js "payment") p Tp) as (pay & ->). cbn [bind].
    destruct (truthy nonzero pay) eqn:Tpay;
      [|exists None; split; [reflexivity | congruence]].
    destruct (G (js "entity") pay Tpay) as (ent & ->). cbn [bind].
    destruct (truthy nonzero ent) eqn:Tent;
      [|exists None; split; [reflexivity | congruence]].
    destruct (G (js "id") ent Tent) as (id & ->).
    destruct (G (js "amount") ent Tent) as (amount & ->). cbn [bind].
    eexists. split; [reflexivity|]. reflexivity. }
  split; [|split].
  - intros U N.
    assert (Ge : exists e, get (js "event") payload = Ok e)
      by (destruct payload; try congruence; eexists; reflexivity).
    destruct Ge as (e & Ee). destruct (B e Ee) as (line & Hb & _).
    unfold webhook. rewrite Hb. reflexivity.
  - unfold webhook. intros S.
    destruct (get (js "event") payload) as [e|err] eqn:Ee.
    + destruct (B e eq_refl) as (line & Hb & Hl).
      rewrite Hb in S. cbn [snd] in S. specialize (Hl S).
      destruct e; try discriminate Hl. cbn [is_captured] in Hl.
      apply str_eqb_eq in Hl. rewrite Hl. reflexivity.
    + unfold webhook_body in S. rewrite Ee in S. cbn [bind snd] in S. congruence.
  - intros [-> | ->]; reflexivity.
Qed.

(** X25.  A payment id is not used up: the handler keeps no record of the
    payments it has served, so a request that was answered with a download
    reference is answered with one again when it is repeated, as long as
    the gateway still confirms the payment, and a second file is
    written. *)
Theorem payment_id_reusable :
  forall (w : World) (req : Request) (st : State) (url name : jsstring),
    fst (generate w req st) = Success url ->
    exists url',
      fst (generate (later w name) req (snd (generate w req st))) = Success url' /\
      length (resumes (snd (generate (later w name) req (snd (generate w req st)))))
      = 2 + length (resumes st).
Proof.
  intros w req st url name E.
  destruct (generate_success_inv w req st E)
    as (M & C & aiText & pdf & host & G & P & H & _ & R).
  assert (E2 : fst (generate (later w name) req (snd (generate w req st)))
               = Success (strip_final_slash host ++ js "/download/" ++ name)).
  { apply (@generate_success_when (later w name) req (snd (generate w req st))
             aiText pdf host M C G P H). }
  eexists. split; [exact E2|].
  destruct (generate_success_inv (later w name) req (snd (generate w req st)) E2)
    as (_ & _ & aiText' & pdf' & host' & _ & _ & _ & _ & R2).
  rewrite R2, R. reflexivity.
Qed.

(** The theorem at a confirmed payment and a resume. *)
Lemma payment_id_reusable_witness :
  exists url',
    fst (generate (later (accepting_world (Some (js "https://host/"))) (js "2_b.pdf"))
           request_with_resume
           (snd (generate (accepting_world (Some (js "https://host/")))
                   request_with_resume empty_state)))
    = Success url' /\
    length (resumes
              (snd (generate (later (accepting_world (Some (js "https://host/")))
                                (js "2_b.pdf"))
                      request_with_resume
                      (snd (generate (accepting_world (Some (js "https://host/")))
                              request_with_resume empty_state)))))
    = 2 + length (resumes empty_state).
Proof.
  apply (@payment_id_reusable (accepting_world (Some (js "https://host/")))
           request_with_resume empty_state
           (js "https://host/download/1700000000000_3f2b8c1e-9a4d-4c6f-8e2a-5b7d9c0e1f23.pdf")
           (js "2_b.pdf")).
  vm_compute. reflexivity.
Defined.

(** X26.  A target role that itself reads [role] suppresses the career
    goal of the synthesized summary: when the text offers no objective of
    more than five characters, the summary is the synthesized sentence
    alone. *)
Theorem role_in_target_role :
  forall resumeText targetRole : jsstring,
    includes (js "role") targetRole = true ->
    length (objective_text resumeText) <= 5 ->
    extract_summary resumeText targetRole = Ok (default_summary targetRole).
Proof.
  intros t role I L. rewrite extract_summary_text.
  assert (E : (5 <? length (objective_text t)) = false) by (apply Nat.ltb_ge, L).
  rewrite E. unfold with_career_goal.
  assert (D : includes (js "role") (default_summary role) = true).
  { unfold default_summary. apply includes_app_l.
    destruct role as [|c role]; [discriminate I|].
    cbn [orDefault isEmpty]. apply includes_app_r, I. }
  rewrite D. reflexivity.
Qed.

(** The theorem at a resume without an objective. *)
Lemma role_in_target_role_witness :
  extract_summary (js "hello") (js "Petroleum Engineer")
  = Ok (default_summary (js "Petroleum Engineer")).
Proof.
  apply (@role_in_target_role (js "hello") (js "Petroleum Engineer")).
  - reflexivity.
  - vm_compute. lia.
Defined.
